(** * Duplicate detection and resolution engine (background/duplicate-detector.js)

    A shallow embedding of the [DuplicateDetector] class together with the parts of
    [BookmarkService] and [StorageManager] it calls, and the properties of the
    engine stated by the specification.

    Conventions of the embedding.
    - JavaScript strings are [string]s over code units below 128; [length] is the
      number of code units.
    - JavaScript numbers are exact rationals ([Q]); timestamps ([Date] values) are
      integers, the milliseconds since the epoch.  [Date.now()] is a parameter
      [now], read once per call of the engine.
    - An absent ([undefined] / [null]) field is [None].
    - A thrown exception is a [Throw] completion; [async] functions are run to
      completion in program order over an explicit store.
    - The platform's [URL] and [URLSearchParams] constructors are parameters of
      the engine; [Whatwg] gives a model of them on plain http(s) URLs. *)

From Stdlib Require Import QArith Lqa.
From stdpp Require Import gmap strings list fin_maps sorting.
From Stdlib Require Import String Ascii.

Local Open Scope string_scope.
Local Open Scope Z_scope.

(** ** Completions: normal return or thrown exception *)

Inductive error : Type :=
  | TypeError (msg : string)
  | Error (msg : string).

Inductive completion (A : Type) : Type :=
  | Normal (a : A)
  | Throw (e : error).
Arguments Normal {A} a.
Arguments Throw {A} e.

#[global] Instance completion_ret : MRet completion := fun A a => Normal a.
#[global] Instance completion_bind : MBind completion := fun A B k c =>
  match c with
  | Normal a => k a
  | Throw e => Throw e
  end.

(** [try { body } catch (error) { handler }] *)
Definition try_catch {A} (body : completion A) (handler : error -> completion A)
  : completion A :=
  match body with
  | Normal a => Normal a
  | Throw e => handler e
  end.

(** ** JavaScript string primitives *)

Module JsString.

Definition is_upper (c : ascii) : bool :=
  let n := nat_of_ascii c in (65 <=? n)%nat && (n <=? 90)%nat.
Definition is_lower (c : ascii) : bool :=
  let n := nat_of_ascii c in (97 <=? n)%nat && (n <=? 122)%nat.
Definition is_digit (c : ascii) : bool :=
  let n := nat_of_ascii c in (48 <=? n)%nat && (n <=? 57)%nat.
Definition is_alpha (c : ascii) : bool := is_upper c || is_lower c.
Definition is_alnum (c : ascii) : bool := is_alpha c || is_digit c.

(** White space removed by [trim]: TAB, LF, VT, FF, CR and SPACE. *)
Definition is_space (c : ascii) : bool :=
  let n := nat_of_ascii c in ((9 <=? n)%nat && (n <=? 13)%nat) || (n =? 32)%nat.

Definition lower_char (c : ascii) : ascii :=
  if is_upper c then ascii_of_nat (nat_of_ascii c + 32) else c.

Fixpoint map_chars (f : ascii -> ascii) (s : string) : string :=
  match s with
  | EmptyString => EmptyString
  | String c s' => String (f c) (map_chars f s')
  end.

(** [s.toLowerCase()] *)
Definition toLowerCase (s : string) : string := map_chars lower_char s.

(** [s.startsWith(p)] *)
Definition startsWith (s p : string) : bool := String.prefix p s.

Fixpoint drop (n : nat) (s : string) : string :=
  match n, s with
  | O, _ => s
  | S n', String _ s' => drop n' s'
  | S _, EmptyString => EmptyString
  end.

Fixpoint rev_onto (s acc : string) : string :=
  match s with
  | EmptyString => acc
  | String c s' => rev_onto s' (String c acc)
  end.
Definition rev (s : string) : string := rev_onto s EmptyString.

(** [s.endsWith(p)] *)
Definition endsWith (s p : string) : bool := String.prefix (rev p) (rev s).

(** [s.slice(0, -1)] *)
Fixpoint slice_0_m1 (s : string) : string :=
  match s with
  | EmptyString => EmptyString
  | String c EmptyString => EmptyString
  | String c s' => String c (slice_0_m1 s')
  end.

Fixpoint trimStart (s : string) : string :=
  match s with
  | String c s' => if is_space c then trimStart s' else s
  | EmptyString => EmptyString
  end.
Definition trimEnd (s : string) : string := rev (trimStart (rev s)).

(** [s.trim()] *)
Definition trim (s : string) : string := trimEnd (trimStart s).

(** [parts.join(sep)] *)
Fixpoint join (sep : string) (parts : list string) : string :=
  match parts with
  | [] => ""
  | [p] => p
  | p :: ps => p ++ sep ++ join sep ps
  end.

(** *** The regular expressions of the engine

    Patterns anchored at the start are sequences of literal and optional
    literal characters, matched greedily with backtracking. *)
Inductive atom : Type :=
  | Lit (c : ascii)
  | Opt (c : ascii).

Fixpoint match_start (p : list atom) (s : string) : option string :=
  match p with
  | [] => Some s
  | Lit c :: p' =>
      match s with
      | String d s' => if Ascii.eqb c d then match_start p' s' else None
      | EmptyString => None
      end
  | Opt c :: p' =>
      match s with
      | String d s' =>
          if Ascii.eqb c d then
            match match_start p' s' with
            | Some r => Some r
            | None => match_start p' s
            end
          else match_start p' s
      | EmptyString => match_start p' s
      end
  end.

(** [s.replace(/^p/, '')] *)
Definition replace_start (p : list atom) (s : string) : string :=
  match match_start p s with
  | Some rest => rest
  | None => s
  end.

Definition lits (s : string) : list atom := List.map Lit (list_ascii_of_string s).

(** [/^www\./] *)
Definition re_www : list atom := lits "www.".
(** [/^https?:\/\//] *)
Definition re_scheme : list atom := lits "http" ++ [Opt "s"%char] ++ lits "://".

(** [s.replace(/\/$/, '')] *)
Definition replace_trailing_slash (s : string) : string :=
  if endsWith s "/" then slice_0_m1 s else s.

(** [s.replace(/[^a-zA-Z0-9]/g, '_')] *)
Definition replace_non_alnum (s : string) : string :=
  map_chars (fun c => if is_alnum c then c else "_"%char) s.

(** Truthiness of an optional string: present and not [""]. *)
Definition truthy (o : option string) : bool :=
  match o with
  | Some (String _ _) => true
  | _ => false
  end.

(** [s && s.trim().length > 0] *)
Definition nonblank (o : option string) : bool :=
  match o with
  | Some s => truthy o && (0 <? String.length (trim s))%nat
  | None => false
  end.

End JsString.

Import JsString.

(** ** Arrays: [Array.prototype.sort]

    The sort is stable: [insert_by] puts an element in front of the first element
    that it does not have to follow, and [Array_sort_by] inserts from the right, so
    that of two elements that compare equal the one first in the input stays
    first. *)

Section ArraySort.
Context {A : Type}.

Fixpoint insert_by (le : A -> A -> bool) (x : A) (l : list A) : list A :=
  match l with
  | [] => [x]
  | y :: l' => if le x y then x :: y :: l' else y :: insert_by le x l'
  end.

Definition Array_sort_by (le : A -> A -> bool) (l : list A) : list A :=
  foldr (insert_by le) [] l.

(** [l.sort((a, b) => cmp(a, b))]: [a] stays before [b] unless [cmp a b > 0]. *)
Definition Array_sort (cmp : A -> A -> Q) (l : list A) : list A :=
  Array_sort_by (fun a b => Qle_bool (cmp a b) 0) l.
End ArraySort.

(** [l.sort()] on strings: code-unit order. *)
Definition Array_sort_default (l : list string) : list string :=
  Array_sort_by String.leb l.

(** [l.includes(s)] *)
Definition includes (l : list string) (s : string) : bool :=
  existsb (String.eqb s) l.

(** ** URL Normalizer *)

(** The fields of a platform [URL] object that the engine reads. *)
Record URL : Type := mkURL {
  protocol : string;
  hostname : string;
  pathname : string;
  search : string;
  hash : string
}.

Definition trackingParams : list string :=
  ["utm_source"; "utm_medium"; "utm_campaign"; "utm_term"; "utm_content";
   "fbclid"; "gclid"].

Section Normalizer.
(** [new URL(url)]: the parsed URL, or the [TypeError] it throws. *)
Variable URL_new : string -> completion URL.
(** The [key, value] pairs [new URLSearchParams(search)] iterates over. *)
Variable URLSearchParams_new : string -> list (string * string).

(** The [catch] branch of [normalizeUrl]. *)
Definition normalizeUrl_fallback (url : string) : string :=
  replace_trailing_slash
    (replace_start re_www (replace_start re_scheme (toLowerCase url))).

(** The [try] branch of [normalizeUrl]. *)
Definition normalizeUrl_try (url : string) : completion string :=
  urlObj ← URL_new url;
  let normalized := toLowerCase (hostname urlObj) in
  let normalized := replace_start re_www normalized in
  let path := pathname urlObj in
  let path :=
    if (1 <? String.length path)%nat && endsWith path "/"
    then slice_0_m1 path else path in
  let normalized := normalized ++ toLowerCase path in
  let normalized :=
    if truthy (Some (hash urlObj))
    then normalized ++ toLowerCase (hash urlObj) else normalized in
  let searchParams := URLSearchParams_new (search urlObj) in
  let cleanParams :=
    List.map (fun kv => fst kv ++ "=" ++ snd kv)
      (List.filter
         (fun kv => negb (includes trackingParams (toLowerCase (fst kv))))
         searchParams) in
  let normalized :=
    if (0 <? List.length cleanParams)%nat
    then normalized ++ "?" ++ join "&" (Array_sort_default cleanParams)
    else normalized in
  mret normalized.

Definition normalizeUrl (url : string) : completion string :=
  try_catch (normalizeUrl_try url)
    (fun _ => mret (normalizeUrl_fallback url)).

(** The value [normalizeUrl] returns ([normalizeUrl_total] below). *)
Definition normalized (url : string) : string :=
  match normalizeUrl url with
  | Normal n => n
  | Throw _ => ""
  end.
End Normalizer.

(** *** A model of the platform's URL parser

    [Whatwg.URL_new] follows the URL Standard's parser without a base URL on
    the fragment of plain http(s) URLs: an input with no scheme is rejected, as
    the standard does; [http:] and [https:] inputs are split into host, path,
    query and fragment when the host is a dotted name of letters and digits
    whose last label starts with a letter and the rest uses characters that the
    parser neither encodes nor rewrites.  Inputs outside this fragment
    (credentials, ports, IP addresses, percent-encoding, dot segments, other
    schemes) are rejected by the model although the platform accepts some of
    them; the properties below that are stated for every parser do not depend
    on the model. *)
Module Whatwg.

(** Leading and trailing C0 controls and spaces are stripped, and ASCII tab
    and newline are removed everywhere. *)
Definition is_c0_or_space (c : ascii) : bool := (nat_of_ascii c <=? 32)%nat.
Definition is_tab_or_newline (c : ascii) : bool :=
  let n := nat_of_ascii c in (n =? 9)%nat || (n =? 10)%nat || (n =? 13)%nat.

Fixpoint strip_start (s : string) : string :=
  match s with
  | String c s' => if is_c0_or_space c then strip_start s' else s
  | EmptyString => EmptyString
  end.

Fixpoint remove_tab_newline (s : string) : string :=
  match s with
  | String c s' =>
      if is_tab_or_newline c then remove_tab_newline s'
      else String c (remove_tab_newline s')
  | EmptyString => EmptyString
  end.

Definition preprocess (s : string) : string :=
  remove_tab_newline (rev (strip_start (rev (strip_start s)))).

(** [span p s]: the longest prefix of [s] whose characters satisfy [p], and
    the rest. *)
Fixpoint span (p : ascii -> bool) (s : string) : string * string :=
  match s with
  | String c s' =>
      if p c then let '(a, b) := span p s' in (String c a, b)
      else (EmptyString, s)
  | EmptyString => (EmptyString, EmptyString)
  end.

Definition is_scheme_char (c : ascii) : bool :=
  is_alnum c || Ascii.eqb c "+" || Ascii.eqb c "-" || Ascii.eqb c ".".

(** Scheme start state and scheme state: a letter, then letters, digits,
    [+], [-] and [.], then [:]. *)
Definition split_scheme (s : string) : option (string * string) :=
  match s with
  | String c _ =>
      if is_alpha c then
        match span is_scheme_char s with
        | (scheme, String ":" rest) => Some (toLowerCase scheme, rest)
        | _ => None
        end
      else None
  | EmptyString => None
  end.

Definition is_slash (c : ascii) : bool := Ascii.eqb c "/" || Ascii.eqb c "\".

Fixpoint forallb_chars (p : ascii -> bool) (s : string) : bool :=
  match s with
  | String c s' => p c && forallb_chars p s'
  | EmptyString => true
  end.

Definition is_host_char (c : ascii) : bool := is_alnum c || Ascii.eqb c ".".

Fixpoint has_dot (s : string) : bool :=
  match s with
  | String c s' => Ascii.eqb c "." || has_dot s'
  | EmptyString => false
  end.

(** Labels are not empty and the last one starts with a letter. *)
Fixpoint host_labels_ok (at_label_start : bool) (s : string) : bool :=
  match s with
  | String c s' =>
      if Ascii.eqb c "." then negb at_label_start && host_labels_ok true s'
      else
        (if at_label_start then is_alpha c || has_dot s' else true)
        && host_labels_ok false s'
  | EmptyString => negb at_label_start
  end.

Definition is_path_char (c : ascii) : bool :=
  is_alnum c || Ascii.eqb c "/" || Ascii.eqb c "-" || Ascii.eqb c "_"
  || Ascii.eqb c "." || Ascii.eqb c "~".
Definition is_query_char (c : ascii) : bool :=
  is_alnum c || Ascii.eqb c "=" || Ascii.eqb c "&" || Ascii.eqb c "-"
  || Ascii.eqb c "_" || Ascii.eqb c "." || Ascii.eqb c "~".
Definition is_fragment_char (c : ascii) : bool :=
  is_alnum c || Ascii.eqb c "/" || Ascii.eqb c "-" || Ascii.eqb c "_"
  || Ascii.eqb c "." || Ascii.eqb c "~".

Definition not_in (stops : string) (c : ascii) : bool :=
  forallb_chars (fun d => negb (Ascii.eqb c d)) stops.

(** [split_on sep s]: the pieces of [s] between the occurrences of [sep]. *)
Fixpoint split_on (sep : ascii) (s : string) : list string :=
  match s with
  | EmptyString => [EmptyString]
  | String c s' =>
      if Ascii.eqb c sep then EmptyString :: split_on sep s'
      else
        match split_on sep s' with
        | p :: ps => String c p :: ps
        | [] => [String c EmptyString]
        end
  end.

(** No segment of the path is [.] or [..], which the parser would resolve. *)
Definition no_dot_segment (path : string) : bool :=
  forallb (fun seg => negb (String.eqb seg "." || String.eqb seg ".."))
    (split_on "/" path).

Definition URL_new (input : string) : completion URL :=
  match split_scheme (preprocess input) with
  | None => Throw (TypeError "Invalid URL")
  | Some (scheme, rest) =>
      if String.eqb scheme "http" || String.eqb scheme "https" then
        let '(_, rest) := span is_slash rest in
        let '(host, rest) := span (not_in "/\?#") rest in
        let '(path, rest) := span (not_in "?#") rest in
        let '(query, fragment) := span (not_in "#") rest in
        if forallb_chars is_host_char host && host_labels_ok true host
           && forallb_chars is_path_char path && no_dot_segment path
           && forallb_chars is_query_char (drop 1 query)
           && forallb_chars is_fragment_char (drop 1 fragment)
        then
          Normal {|
            protocol := scheme ++ ":";
            hostname := toLowerCase host;
            pathname := if String.eqb path "" then "/" else path;
            search := if String.eqb query "?" then "" else query;
            hash := if String.eqb fragment "#" then "" else fragment
          |}
        else Throw (TypeError "Invalid URL")
      else Throw (TypeError "Invalid URL")
  end.

(** [application/x-www-form-urlencoded] parsing of a query without [+] and
    [%]: split on [&], drop empty pieces, split each piece at its first [=]. *)
Definition name_value (piece : string) : string * string :=
  let '(name, rest) := span (not_in "=") piece in (name, drop 1 rest).

Definition URLSearchParams_new (init : string) : list (string * string) :=
  let init := if startsWith init "?" then drop 1 init else init in
  List.map name_value
    (List.filter (fun p => negb (String.eqb p "")) (split_on "&" init)).

End Whatwg.

(** The normalizer over the model parser. *)
Definition normalizeUrl_whatwg : string -> completion string :=
  normalizeUrl Whatwg.URL_new Whatwg.URLSearchParams_new.

(** ** Data model *)

Record Tag : Type := mkTag {
  tag_id : option string;
  tag_name : string;
  tag_color : string
}.

Record Category : Type := mkCategory {
  category_id : string;
  category_name : string
}.

(** Values stored under the keys of a bookmark's [meta] object. *)
Inductive MetaValue : Type :=
  | MStr (s : string)
  | MNum (n : Z)
  | MDate (t : Z)
  | MBool (b : bool).

Record Bookmark : Type := mkBookmark {
  id : string;
  url : option string;
  title : option string;
  description : option string;
  tags : option (list Tag);
  category : option Category;
  meta : option (gmap string MetaValue);
  dateAdded : option Z;
  dateModified : option Z;
  dateVisited : option Z;
  visitCount : option Z;
  isBroken : bool;
  isDuplicate : bool;
  duplicateOf : option string
}.

#[global] Instance Tag_eq_dec : EqDecision Tag.
Proof. solve_decision. Defined.
#[global] Instance Category_eq_dec : EqDecision Category.
Proof. solve_decision. Defined.
#[global] Instance MetaValue_eq_dec : EqDecision MetaValue.
Proof. solve_decision. Defined.
#[global] Instance Bookmark_eq_dec : EqDecision Bookmark.
Proof. solve_decision. Defined.

(** ** JavaScript [Map] and [Set], in insertion order *)

Section JsMap.
Context {K V : Type} `{EqDecision K}.

Definition Map_has (m : list (K * V)) (k : K) : bool :=
  existsb (fun kv => bool_decide (fst kv = k)) m.

Fixpoint Map_get (m : list (K * V)) (k : K) : option V :=
  match m with
  | [] => None
  | (k', v) :: m' => if decide (k' = k) then Some v else Map_get m' k
  end.

(** The value under [k] is changed where it stands. *)
Fixpoint Map_alter (f : V -> V) (k : K) (m : list (K * V)) : list (K * V) :=
  match m with
  | [] => []
  | (k', v) :: m' =>
      if decide (k' = k) then (k', f v) :: m' else (k', v) :: Map_alter f k m'
  end.

(** A new key goes last; a known key keeps its place. *)
Definition Map_set (m : list (K * V)) (k : K) (v : V) : list (K * V) :=
  if Map_has m k then Map_alter (fun _ => v) k m else (m ++ [(k, v)])%list.

Definition Map_values (m : list (K * V)) : list V := List.map snd m.
End JsMap.

Section JsSet.
Context {A : Type} `{EqDecision A}.

Definition Set_add (s : list A) (x : A) : list A :=
  if bool_decide (x ∈ s) then s else (s ++ [x])%list.

(** [[...new Set(l)]] *)
Definition Set_new (l : list A) : list A := foldl Set_add [] l.
End JsSet.

(** ** Quality scorer, resolution recommender and grouper *)

Definition Math_min (a b : Q) : Q := if Qle_bool a b then a else b.
Definition Math_max (a b : Q) : Q := if Qle_bool a b then b else a.

(** [s.length] as a number, for a present string. *)
Definition length_of (o : option string) : Q :=
  inject_Z (Z.of_nat (String.length (default "" o))).

(** [tags.length] *)
Definition count_of {A} (o : option (list A)) : Z :=
  Z.of_nat (List.length (default [] o)).

(** [b.tags && b.tags.length > 0] *)
Definition has_tags (b : Bookmark) : bool := 0 <? count_of (tags b).

Inductive ActionKind : Type :=
  | merge_metadata
  | keep_most_descriptive
  | keep_most_recent
  | keep_first.

Record Merge : Type := mkMerge {
  merged_title : string;
  merged_description : string;
  merged_tags : list Tag;
  merged_metadata : gmap string MetaValue
}.

Record Recommendation : Type := mkRecommendation {
  keep : string;
  action : ActionKind;
  reason : string;
  merge : Merge
}.

Record Scored : Type := mkScored {
  bookmark : Bookmark;
  score : Q
}.

Record Group : Type := mkGroup {
  group_id : string;
  normalizedUrl : string;
  bookmarks : list Bookmark
}.

(** [g.bookmarks.push(b)] *)
Definition Group_push (g : Group) (b : Bookmark) : Group :=
  {| group_id := group_id g;
     normalizedUrl := normalizedUrl g;
     bookmarks := (bookmarks g ++ [b])%list |}.

(** [g.bookmarks.length] *)
Definition Group_length (g : Group) : nat := List.length (bookmarks g).

Inductive Severity : Type := critical | high | medium.

Record DuplicateGroup : Type := mkDuplicateGroup {
  dg_id : string;
  dg_url : string;
  dg_bookmarks : list Bookmark;
  dg_count : Z;
  dg_recommendedAction : Recommendation;
  dg_severity : Severity
}.

(** [l.forEach(f)] over a state that [f] updates; [f] may throw. *)
Fixpoint forEach {A S} (f : S -> A -> completion S) (l : list A) (s : S)
  : completion S :=
  match l with
  | [] => mret s
  | x :: l' => s' ← f s x; forEach f l' s'
  end.

(** [l.map(f)] where [f] may throw. *)
Fixpoint Array_map {A B} (f : A -> completion B) (l : list A)
  : completion (list B) :=
  match l with
  | [] => mret []
  | x :: l' => y ← f x; ys ← Array_map f l'; mret (y :: ys)
  end.

Section Detector.
Variable URL_new : string -> completion URL.
Variable URLSearchParams_new : string -> list (string * string).
(** [Date.now()] *)
Variable now : Z.

(** [(Date.now() - new Date(t)) / (1000 * 60 * 60 * 24)] *)
Definition daysSince (t : Z) : Q :=
  (inject_Z (now - t) / inject_Z (1000 * 60 * 60 * 24))%Q.

Definition scoreBookmark (b : Bookmark) : Q :=
  let score := 0%Q in
  let score :=
    if nonblank (title b)
    then (score + 10 + Math_min (length_of (title b) / 10) 5)%Q else score in
  let score :=
    if nonblank (description b)
    then (score + 8 + Math_min (length_of (description b) / 20) 4)%Q
    else score in
  let score :=
    match meta b with
    | Some m => (score + inject_Z (Z.of_nat (size m)) * 2)%Q
    | None => score
    end in
  let score :=
    match dateVisited b with
    | Some t => (score + Math_max 0 (20 - daysSince t / 30))%Q
    | None => score
    end in
  let score := (score + inject_Z (default 0%Z (visitCount b)) * (1 # 2))%Q in
  let score :=
    if has_tags b then (score + inject_Z (count_of (tags b)) * 3)%Q
    else score in
  let score := if category b is Some _ then (score + 5)%Q else score in
  let score :=
    match dateAdded b with
    | Some t => (score + Math_max 0 (15 - daysSince t / 60))%Q
    | None => score
    end in
  let score :=
    if truthy (url b) && startsWith (default "" (url b)) "https://"
    then (score + 3)%Q else score in
  let score := if isBroken b then (score - 50)%Q else score in
  Math_max 0 score.

Definition scoreBookmarks (bookmarks : list Bookmark) : list Scored :=
  List.map (fun b => {| bookmark := b; score := scoreBookmark b |}) bookmarks.

Definition determineAction (bookmarks : list Bookmark) : ActionKind :=
  let hasCompleteMetadata :=
    existsb (fun b => truthy (title b) && truthy (description b) && has_tags b)
      bookmarks in
  if hasCompleteMetadata then merge_metadata
  else if existsb (fun b => truthy (title b)
                            && (20 <? String.length (default "" (title b)))%nat)
            bookmarks
  then keep_most_descriptive
  else if existsb (fun b => bool_decide (is_Some (dateVisited b))) bookmarks
  then keep_most_recent
  else keep_first.

(** [scores[0]] of an empty array is [undefined], and reading [.bookmark]
    of it throws. *)
Definition getActionReason (bookmarks : list Bookmark) : completion string :=
  let scores := scoreBookmarks bookmarks in
  match scores with
  | [] => Throw (TypeError "Cannot read properties of undefined")
  | best :: _ =>
      let b := bookmark best in
      let reasons : list string := [] in
      let reasons :=
        if truthy (title b) && (20 <? String.length (default "" (title b)))%nat
        then (reasons ++ ["Most descriptive title"])%list else reasons in
      let reasons :=
        if truthy (description b)
        then (reasons ++ ["Has description"])%list else reasons in
      let reasons :=
        if has_tags b then (reasons ++ ["Most tagged"])%list else reasons in
      let reasons :=
        match dateVisited b with
        | Some t =>
            if negb (Qle_bool 30 (daysSince t))
            then (reasons ++ ["Recently visited"])%list else reasons
        | None => reasons
        end in
      let reasons :=
        if category b is Some _
        then (reasons ++ ["Categorized"])%list else reasons in
      mret (if (0 <? List.length reasons)%nat then join ", " reasons
            else "Highest overall quality")
  end.

Definition mergeTitles (bookmarks : list Bookmark) : string :=
  let titles :=
    List.filter nonblank (List.map title bookmarks) in
  match Array_sort (fun a b => (length_of b - length_of a)%Q) titles with
  | [] => ""
  | t :: _ => default "" t
  end.

Definition mergeDescriptions (bookmarks : list Bookmark) : string :=
  let descriptions :=
    List.filter nonblank (List.map description bookmarks) in
  if (List.length descriptions =? 0)%nat then ""
  else
    let uniqueDescriptions := Set_new descriptions in
    join " | " (List.map (default "") uniqueDescriptions).

Definition mergeTags (bookmarks : list Bookmark) : list Tag :=
  let allTags :=
    foldl (fun allTags b =>
             match tags b with
             | Some ts =>
                 foldl (fun allTags tag =>
                          if negb (Map_has allTags (tag_id tag))
                          then Map_set allTags (tag_id tag) tag else allTags)
                   allTags ts
             | None => allTags
             end)
      [] bookmarks in
  Map_values allTags.

Definition mergeMetadata (bookmarks : list Bookmark) : gmap string MetaValue :=
  let merged : gmap string MetaValue := ∅ in
  let merged :=
    foldl (fun merged b =>
             match meta b with
             | Some m => m ∪ merged
             | None => merged
             end)
      merged bookmarks in
  let totalVisits :=
    foldl (fun sum b => sum + default 0 (visitCount b)) 0 bookmarks in
  let merged := <["totalVisits" := MNum totalVisits]> merged in
  let visits :=
    Array_sort (fun a b => inject_Z (b - a))
      (omap dateVisited bookmarks) in
  match visits with
  | v :: _ => <["lastVisited" := MDate v]> merged
  | [] => merged
  end.

(** [best.bookmark.id] is read first and throws on an empty array. *)
Definition recommendAction (bookmarks : list Bookmark)
  : completion Recommendation :=
  let scored := scoreBookmarks bookmarks in
  let scored := Array_sort (fun a b => (score b - score a)%Q) scored in
  match scored with
  | [] => Throw (TypeError "Cannot read properties of undefined")
  | best :: others =>
      reason ← getActionReason bookmarks;
      mret {|
        keep := id (bookmark best);
        action := determineAction bookmarks;
        reason := reason;
        merge := {|
          merged_title := mergeTitles bookmarks;
          merged_description := mergeDescriptions bookmarks;
          merged_tags := mergeTags bookmarks;
          merged_metadata := mergeMetadata bookmarks
        |}
      |}
  end.

Definition calculateSeverity (count : Z) : Severity :=
  if 5 <=? count then critical
  else if 3 <=? count then high
  else medium.

Definition groupDuplicates_step (urlGroups : list (string * Group))
    (b : Bookmark) : completion (list (string * Group)) :=
  if negb (truthy (url b)) then mret urlGroups
  else
    normalizedUrl ← normalizeUrl URL_new URLSearchParams_new (default "" (url b));
    let urlGroups :=
      if negb (Map_has urlGroups normalizedUrl)
      then Map_set urlGroups normalizedUrl
             {| group_id := "dup_" ++ replace_non_alnum normalizedUrl;
                normalizedUrl := normalizedUrl;
                bookmarks := [] |}
      else urlGroups in
    mret (Map_alter (fun g => Group_push g b) normalizedUrl urlGroups).

Definition groupDuplicates (bookmarks : list Bookmark) : completion (list Group) :=
  urlGroups ← forEach groupDuplicates_step bookmarks [];
  mret (List.filter (fun g => (1 <? Group_length g)%nat)
          (Map_values urlGroups)).
End Detector.

(** ** The bookmark store, [StorageManager] and [BookmarkService]

    The [bookmarks] object store of the database, keyed by [id].  An [async]
    function is a function of the store that returns a completion and the
    store it leaves; what was written before an exception stays written. *)

Definition Async (A : Type) : Type :=
  gmap string Bookmark -> completion A * gmap string Bookmark.

#[global] Instance Async_ret : MRet Async := fun A a σ => (Normal a, σ).
#[global] Instance Async_bind : MBind Async := fun A B k m σ =>
  match m σ with
  | (Normal a, σ') => k a σ'
  | (Throw e, σ') => (Throw e, σ')
  end.

(** [throw e] *)
Definition throw {A} (e : error) : Async A := fun σ => (Throw e, σ).

(** A synchronous computation inside an [async] function. *)
Definition sync {A} (c : completion A) : Async A := fun σ => (c, σ).

(** [try { body } catch (error) { handler }] around [await]s. *)
Definition Async_try_catch {A} (body : Async A) (handler : error -> Async A)
  : Async A := fun σ =>
  match body σ with
  | (Normal a, σ') => (Normal a, σ')
  | (Throw e, σ') => handler e σ'
  end.

(** [for (const x of l) { body }] over the locals [s] that [body] updates;
    [continue] is an early return of [body]. *)
Fixpoint for_of {A S} (l : list A) (body : S -> A -> Async S) (s : S) : Async S :=
  match l with
  | [] => mret s
  | x :: l' => s' ← body s x; for_of l' body s'
  end.

(** The fields an [updates] object passed to [updateBookmark] may carry;
    [None] is a key that the object does not have. *)
Record Updates : Type := mkUpdates {
  u_title : option (option string);
  u_description : option (option string);
  u_tags : option (option (list Tag));
  u_meta : option (option (gmap string MetaValue));
  u_isDuplicate : option bool;
  u_duplicateOf : option (option string)
}.

(** [{ ...existing, ...updates, id: id, dateModified: dateModified }] *)
Definition spread (existing : Bookmark) (updates : Updates) (i : string)
    (modified : Z) : Bookmark :=
  {| id := i;
     url := url existing;
     title := default (title existing) (u_title updates);
     description := default (description existing) (u_description updates);
     tags := default (tags existing) (u_tags updates);
     category := category existing;
     meta := default (meta existing) (u_meta updates);
     dateAdded := dateAdded existing;
     dateModified := Some modified;
     dateVisited := dateVisited existing;
     visitCount := visitCount existing;
     isBroken := isBroken existing;
     isDuplicate := default (isDuplicate existing) (u_isDuplicate updates);
     duplicateOf := default (duplicateOf existing) (u_duplicateOf updates) |}.

Definition with_dateModified (b : Bookmark) (t : option Z) : Bookmark :=
  mkBookmark (id b) (url b) (title b) (description b) (tags b) (category b)
    (meta b) (dateAdded b) t (dateVisited b) (visitCount b) (isBroken b)
    (isDuplicate b) (duplicateOf b).

Record Options : Type := mkOptions {
  opt_mergeMetadata : bool;
  opt_keepBestQuality : bool;
  opt_preserveUserChoices : bool
}.

(** [options = {}]: every option takes its default. *)
Definition default_options : Options := mkOptions true true true.

Record Resolution : Type := mkResolution {
  res_group : string;
  res_kept : string;
  res_removed : list string;
  res_action : ActionKind
}.

Definition ActionKind_eqb (a b : ActionKind) : bool :=
  match a, b with
  | merge_metadata, merge_metadata
  | keep_most_descriptive, keep_most_descriptive
  | keep_most_recent, keep_most_recent
  | keep_first, keep_first => true
  | _, _ => false
  end.

Section Service.
Variable URL_new : string -> completion URL.
Variable URLSearchParams_new : string -> list (string * string).
Variable now : Z.

(** *** StorageManager *)

(** [store.put({ ...bookmark, dateModified: new Date() })] *)
Definition saveBookmark (b : Bookmark) : Async Bookmark := fun σ =>
  (Normal b, <[id b := with_dateModified b (Some now)]> σ).

(** [store.get(id)], [null] when there is no such record. *)
Definition getBookmark (i : string) : Async (option Bookmark) := fun σ =>
  (Normal (σ !! i), σ).

(** [store.getAll()]: the records in the order of their keys. *)
Definition Storage_getAllBookmarks : Async (list Bookmark) := fun σ =>
  (Normal (Array_sort_by (fun a b => String.leb (fst a) (fst b))
             (map_to_list σ)).*2, σ).

(** *** BookmarkService *)

Definition validateUrl (u : string) : bool :=
  match URL_new u with
  | Normal urlObj =>
      if negb (includes ["http:"; "https:"] (protocol urlObj)) then false
      else if (2048 <? String.length u)%nat then false
      else if includes ["javascript:"; "data:"; "file:"; "ftp:"]
                (protocol urlObj)
      then false
      else true
  | Throw _ => false
  end.

(** [validateBookmark(bookmark).isValid] *)
Definition validateBookmark (b : Bookmark) : bool :=
  let errors : list string := [] in
  let errors :=
    if negb (nonblank (title b))
    then (errors ++ ["Title is required"])%list else errors in
  let errors :=
    if negb (truthy (url b)) then (errors ++ ["URL is required"])%list
    else if negb (validateUrl (default "" (url b)))
    then (errors ++ ["Invalid URL"])%list else errors in
  let errors :=
    if truthy (title b) && (255 <? String.length (default "" (title b)))%nat
    then (errors ++ ["Title too long (max 255 characters)"])%list
    else errors in
  (List.length errors =? 0)%nat.

Definition updateBookmark (i : string) (updates : Updates) : Async Bookmark :=
  existingBookmark ← getBookmark i;
  match existingBookmark with
  | None => throw (Error "Bookmark not found")
  | Some existingBookmark =>
      let updatedBookmark := spread existingBookmark updates i now in
      if negb (validateBookmark updatedBookmark)
      then throw (Error "Invalid bookmark")
      else
        _ ← saveBookmark updatedBookmark;
        mret updatedBookmark
  end.

(** The comparator of [getAllBookmarks] for the default [sortBy] and
    [sortOrder]: by [dateModified], descending.  A record without
    [dateModified] gives an invalid date, which neither [>] nor [<] relates
    to anything. *)
Definition by_dateModified_desc (a b : Bookmark) : Q :=
  match dateModified a, dateModified b with
  | Some valueA, Some valueB =>
      if valueB <? valueA then (-1)%Q
      else if valueA <? valueB then 1%Q else 0%Q
  | _, _ => 0%Q
  end.

(** [getAllBookmarks()] with no filters. *)
Definition getAllBookmarks : Async (list Bookmark) :=
  bookmarks ← Storage_getAllBookmarks;
  mret (Array_sort by_dateModified_desc bookmarks).

(** *** DuplicateDetector *)

Definition describe_group (group : Group) : completion DuplicateGroup :=
  recommendedAction ← recommendAction now (bookmarks group);
  mret {| dg_id := group_id group;
          dg_url := normalizedUrl group;
          dg_bookmarks := bookmarks group;
          dg_count := Z.of_nat (List.length (bookmarks group));
          dg_recommendedAction := recommendedAction;
          dg_severity :=
            calculateSeverity (Z.of_nat (List.length (bookmarks group))) |}.

Definition findAll : Async (list DuplicateGroup) :=
  Async_try_catch
    (allBookmarks ← getAllBookmarks;
     duplicateGroups ←
       sync (groupDuplicates URL_new URLSearchParams_new allBookmarks);
     sync (Array_map describe_group duplicateGroups))
    (fun _ => mret []).

(** The update of the keeper with the merged data. *)
Definition keeper_updates (keeper : Bookmark) (merge : Merge) : Updates :=
  {| u_title :=
       Some (if truthy (Some (merged_title merge))
             then Some (merged_title merge) else title keeper);
     u_description :=
       Some (if truthy (Some (merged_description merge))
             then Some (merged_description merge) else description keeper);
     u_tags := Some (Some (merged_tags merge));
     u_meta := Some (Some (merged_metadata merge ∪ default ∅ (meta keeper)));
     u_isDuplicate := None;
     u_duplicateOf := None |}.

(** [{ isDuplicate: true, duplicateOf: keeper.id }] *)
Definition duplicate_mark (keeper : Bookmark) : Updates :=
  {| u_title := None; u_description := None; u_tags := None; u_meta := None;
     u_isDuplicate := Some true;
     u_duplicateOf := Some (Some (id keeper)) |}.

(** The second loop of [autoResolve]: mark the duplicates of [keeper]. *)
Definition mark_duplicates (keeper : Bookmark) (members : list Bookmark)
  : Async unit :=
  for_of members
    (fun _ bookmark =>
       if negb (String.eqb (id bookmark) (id keeper))
       then _ ← updateBookmark (id bookmark) (duplicate_mark keeper); mret tt
       else mret tt)
    tt.

(** The body of the loop of [autoResolve] over the groups. *)
Definition resolve_group (options : Options) (results : list Resolution)
    (group : DuplicateGroup) : Async (list Resolution) :=
  if dg_count group <? 2 then mret results
  else
    let rec := dg_recommendedAction group in
    match List.find (fun b => String.eqb (id b) (keep rec)) (dg_bookmarks group) with
    | None => mret results
    | Some keeper =>
        _ ← (if opt_mergeMetadata options
                && ActionKind_eqb (action rec) merge_metadata
             then
               _ ← updateBookmark (id keeper) (keeper_updates keeper (merge rec));
               mret tt
             else mret tt);
        _ ← mark_duplicates keeper (dg_bookmarks group);
        mret (results ++
              [{| res_group := dg_id group;
                  res_kept := id keeper;
                  res_removed :=
                    List.map id
                      (List.filter
                         (fun b => negb (String.eqb (id b) (id keeper)))
                         (dg_bookmarks group));
                  res_action := action rec |}])%list
    end.

Definition autoResolve (options : Options) : Async (list Resolution) :=
  duplicateGroups ← findAll;
  for_of duplicateGroups (resolve_group options) [].
End Service.

(** The store keeps every record under its [id] (the key path of the object
    store). *)
Definition store_wf (σ : gmap string Bookmark) : Prop :=
  forall i b, σ !! i = Some b -> id b = i.

(** The keeper that [autoResolve] selects in a group. *)
Definition keeper_of (group : DuplicateGroup) : option Bookmark :=
  List.find (fun b => String.eqb (id b) (keep (dg_recommendedAction group)))
    (dg_bookmarks group).

(** The groups share no record id. *)
Fixpoint ids_disjoint (groups : list DuplicateGroup) : Prop :=
  match groups with
  | [] => True
  | g :: groups' =>
      (forall g' b b', g' ∈ groups' -> b ∈ dg_bookmarks g ->
         b' ∈ dg_bookmarks g' -> id b <> id b')
      /\ ids_disjoint groups'
  end.

(** The duplicate flags of the record stored under [i]. *)
Definition flags (σ : gmap string Bookmark) (i : string)
  : option (bool * option string) :=
  (fun b => (isDuplicate b, duplicateOf b)) <$> σ !! i.

(** ** Definitions used to state the properties *)

(** *** Ordering *)

Section Ordering.
Context {A : Type} (key : A -> Q).

(** The comparator [(a, b) => key(b) - key(a)]. *)
Definition descending (a b : A) : Q := (key b - key a)%Q.

(** The earliest element among those of the greatest key. *)
Definition first_max : list A -> option A :=
  foldr (fun x best =>
           match best with
           | Some y => if Qle_bool (key y) (key x) then Some x else Some y
           | None => Some x
           end) None.
End Ordering.

(** The elements of [l], each kept at the first place where its [key] occurs. *)
Fixpoint distinct_on {A K} `{EqDecision K} (key : A -> K) (l : list A) : list A :=
  match l with
  | [] => []
  | x :: l' =>
      x :: List.filter (fun y => negb (bool_decide (key y = key x)))
             (distinct_on key l')
  end.

(** A [Map] filled by "set unless present", keyed by [key]. *)
Definition set_unless_present {A K} `{EqDecision K} (key : A -> K)
    (m : list (K * A)) (x : A) : list (K * A) :=
  if negb (Map_has m (key x)) then Map_set m (key x) x else m.

(** *** Normalizer: the fallback in the specification's words

    The lowercased input with a leading [http://] or [https://] stripped, a
    leading [www.] stripped, and a trailing [/] stripped. *)

Definition strip_leading (p s : string) : string :=
  if String.prefix p s then drop (String.length p) s else s.

Definition strip_scheme (s : string) : string :=
  if String.prefix "http://" s then drop 7 s
  else if String.prefix "https://" s then drop 8 s
  else s.

Fixpoint strip_trailing_slash (s : string) : string :=
  match s with
  | EmptyString => EmptyString
  | String c EmptyString => if Ascii.eqb c "/" then EmptyString else s
  | String c s' => String c (strip_trailing_slash s')
  end.

Definition spec_fallback (url : string) : string :=
  strip_trailing_slash (strip_leading "www." (strip_scheme (toLowerCase url))).

(** *** Grouper *)

Section GrouperSpec.
Variable URL_new : string -> completion URL.
Variable URLSearchParams_new : string -> list (string * string).

(** The grouping key of a record: the normalized form of its URL, when it has
    one. *)
Definition key_of (b : Bookmark) : option string :=
  if truthy (url b)
  then Some (normalized URL_new URLSearchParams_new (default "" (url b)))
  else None.

Definition has_key (k : string) (b : Bookmark) : bool :=
  bool_decide (key_of b = Some k).

(** The records that share the key [k], in encounter order. *)
Definition sharing (k : string) (records : list Bookmark) : list Bookmark :=
  List.filter (has_key k) records.

(** The entry of the map for [k] once the records [seen] are processed. *)
Definition group_for (k : string) (seen : list Bookmark) : option Group :=
  match sharing k seen with
  | [] => None
  | members =>
      Some {| group_id := "dup_" ++ replace_non_alnum k;
              normalizedUrl := k;
              bookmarks := members |}
  end.

Definition grouped (m : list (string * Group)) (seen : list Bookmark) : Prop :=
  NoDup m.*1 /\ forall k, Map_get m k = group_for k seen.
End GrouperSpec.

(** *** Scorer and recommender *)

(** A present string that is not [""]. *)
Definition nonempty (o : option string) : Prop :=
  exists s, o = Some s /\ s <> "".

(** Non-empty title, non-empty description and at least one tag. *)
Definition has_complete_metadata (b : Bookmark) : Prop :=
  nonempty (title b) /\ nonempty (description b)
  /\ exists ts, tags b = Some ts /\ (1 <= List.length ts)%nat.

(** A title longer than 20 characters. *)
Definition has_descriptive_title (b : Bookmark) : Prop :=
  exists t, title b = Some t /\ (20 < String.length t)%nat.

Definition was_visited (b : Bookmark) : Prop := is_Some (dateVisited b).

(** Record updates. *)
Definition with_tags (b : Bookmark) (ts : option (list Tag)) : Bookmark :=
  mkBookmark (id b) (url b) (title b) (description b) ts (category b) (meta b)
    (dateAdded b) (dateModified b) (dateVisited b) (visitCount b) (isBroken b)
    (isDuplicate b) (duplicateOf b).

Definition with_description (b : Bookmark) (d : option string) : Bookmark :=
  mkBookmark (id b) (url b) (title b) d (tags b) (category b) (meta b)
    (dateAdded b) (dateModified b) (dateVisited b) (visitCount b) (isBroken b)
    (isDuplicate b) (duplicateOf b).

Definition with_visitCount (b : Bookmark) (n : option Z) : Bookmark :=
  mkBookmark (id b) (url b) (title b) (description b) (tags b) (category b)
    (meta b) (dateAdded b) (dateModified b) (dateVisited b) n (isBroken b)
    (isDuplicate b) (duplicateOf b).

Definition with_dateVisited (b : Bookmark) (t : option Z) : Bookmark :=
  mkBookmark (id b) (url b) (title b) (description b) (tags b) (category b)
    (meta b) (dateAdded b) (dateModified b) t (visitCount b) (isBroken b)
    (isDuplicate b) (duplicateOf b).

Definition with_isBroken (b : Bookmark) (broken : bool) : Bookmark :=
  mkBookmark (id b) (url b) (title b) (description b) (tags b) (category b)
    (meta b) (dateAdded b) (dateModified b) (dateVisited b) (visitCount b) broken
    (isDuplicate b) (duplicateOf b).

(** Adding a tag to a record. *)
Definition add_tag (b : Bookmark) (t : Tag) : Bookmark :=
  with_tags b (Some (default [] (tags b) ++ [t])%list).

(** One more visit counted. *)
Definition add_visit (b : Bookmark) : Bookmark :=
  with_visitCount b (Some (default 0 (visitCount b) + 1)).

Section RecommenderSpec.
Variable now : Z.

(** The reason for keeping [b], in the specification's words: the phrases
    that apply to [b], joined with [", "], or ["Highest overall quality"]. *)
Definition reason_phrases (b : Bookmark) : list string :=
  ((if (20 <? String.length (default "" (title b)))%nat
    then ["Most descriptive title"] else [])
   ++ (if truthy (description b) then ["Has description"] else [])
   ++ (if 1 <=? count_of (tags b) then ["Most tagged"] else [])
   ++ (match dateVisited b with
       | Some t =>
           if Qle_bool 30 (daysSince now t) then [] else ["Recently visited"]
       | None => []
       end)
   ++ (if category b is Some _ then ["Categorized"] else []))%list.

Definition reason_for (b : Bookmark) : string :=
  match reason_phrases b with
  | [] => "Highest overall quality"
  | phrases => join ", " phrases
  end.

(** The visit counts of the members, added up. *)
Definition total_visits (records : list Bookmark) : Z :=
  foldr (fun b sum => default 0 (visitCount b) + sum) 0 records.

(** The value a left-to-right merge of the members' [meta] maps holds under
    [k]: that of the last member whose map has the key. *)
Definition merged_meta_value (k : string) (records : list Bookmark)
  : option MetaValue :=
  last (omap (fun b => m ← meta b; m !! k) records).

(** The titles and descriptions of the members that are not blank. *)
Definition nonblank_titles (records : list Bookmark) : list (option string) :=
  List.filter nonblank (List.map title records).
Definition nonblank_descriptions (records : list Bookmark)
  : list (option string) :=
  List.filter nonblank (List.map description records).

(** All the tags of the members, in encounter order. *)
Definition all_tags (records : list Bookmark) : list Tag :=
  List.concat (List.map (fun b => default [] (tags b)) records).
End RecommenderSpec.

(** *** Sample records *)

Definition a_bookmark (i : string) : Bookmark :=
  mkBookmark i None None None None None None None None None None false false None.

Definition with_title (b : Bookmark) (t : option string) : Bookmark :=
  mkBookmark (id b) (url b) t (description b) (tags b) (category b) (meta b)
    (dateAdded b) (dateModified b) (dateVisited b) (visitCount b) (isBroken b)
    (isDuplicate b) (duplicateOf b).

Definition with_url (b : Bookmark) (u : option string) : Bookmark :=
  mkBookmark (id b) u (title b) (description b) (tags b) (category b) (meta b)
    (dateAdded b) (dateModified b) (dateVisited b) (visitCount b) (isBroken b)
    (isDuplicate b) (duplicateOf b).

Definition with_meta (b : Bookmark) (m : option (gmap string MetaValue))
  : Bookmark :=
  mkBookmark (id b) (url b) (title b) (description b) (tags b) (category b) m
    (dateAdded b) (dateModified b) (dateVisited b) (visitCount b) (isBroken b)
    (isDuplicate b) (duplicateOf b).

(** A time of the year 2023, in milliseconds. *)
Definition sample_now : Z := 1700000000000.

(** The group of the [recommendAction] test. *)
Definition test_short : Bookmark :=
  with_visitCount
    (with_tags
       (with_description (with_title (a_bookmark "1") (Some "Short Title"))
          (Some ""))
       (Some []))
    (Some 0).

Definition test_descriptive : Bookmark :=
  with_dateVisited
    (with_visitCount
       (with_tags
          (with_description
             (with_title (a_bookmark "2")
                (Some "This is a very descriptive and detailed title about this bookmark"))
             (Some "A comprehensive description of the bookmark content"))
          (Some [mkTag None "tag1" ""; mkTag None "tag2" ""]))
       (Some 5))
    (Some sample_now).

(** The group of the [recommendAction] test, and two copies of one page. *)
Definition test_group : list Bookmark := [test_short; test_descriptive].

Definition twin (i : string) : Bookmark :=
  with_url (with_title (a_bookmark i) (Some "GitHub")) (Some "https://github.com/").

(** The working record of the [scoreBookmarks] test. *)
Definition test_working : Bookmark :=
  with_visitCount (with_title (a_bookmark "1") (Some "Working Bookmark")) (Some 5).

(** A record whose title and description are blanks, and a short one. *)
Definition blank_record : Bookmark :=
  with_description (with_title (a_bookmark "1") (Some "     ")) (Some "   ").
Definition short_record : Bookmark :=
  with_description (with_title (a_bookmark "2") (Some "abc")) (Some "d").

(** A keeper of an earlier resolution: its [meta] holds the [lastVisited] that
    was merged into it; it was not visited since. *)
Definition resolved_record : Bookmark :=
  with_meta (with_title (a_bookmark "1") (Some "abc"))
    (Some {["lastVisited" := MDate 1690000000000]}).

(** A store of three records, two of them for one page. *)
Definition sample_store : gmap string Bookmark :=
  <["3" := with_url (with_title (a_bookmark "3") (Some "Different Site"))
             (Some "https://example.com")]>
    (<["2" := with_url (with_title (a_bookmark "2") (Some "GitHub Repo"))
                (Some "https://www.github.com/user/repo/")]>
       (<["1" := with_url (with_title (a_bookmark "1") (Some "GitHub Repository"))
                   (Some "https://github.com/user/repo")]> ∅)).

(** ** [DuplicateDetector]: manual resolution, statistics and clean-up

    The methods of the class that the recommender and [autoResolve] leave,
    over the same store: as there, a request on the object store succeeds,
    and the updates of one run are made at the one time [now]. *)

(** What [resolveManually] returns; [action] is the string it was given. *)
Record ManualResolution : Type := mkManualResolution {
  man_kept : string;
  man_removed : list string;
  man_action : string
}.

(** The object [allData] of [resolveManually]. *)
Record AllData : Type := mkAllData {
  data_title : option string;
  data_description : option string;
  data_tags : option (list Tag);
  data_meta : option (gmap string MetaValue)
}.

(** One turn of the loop of [resolveManually] over the duplicates: the data
    of [duplicate] is taken where it is better. *)
Definition merge_if_better (allData : AllData) (duplicate : Bookmark) : AllData :=
  let allData :=
    if truthy (title duplicate)
       && (String.length (default "" (data_title allData))
           <? String.length (default "" (title duplicate)))%nat
    then mkAllData (title duplicate) (data_description allData)
           (data_tags allData) (data_meta allData)
    else allData in
  let allData :=
    if truthy (description duplicate)
       && negb (truthy (data_description allData))
    then mkAllData (data_title allData) (description duplicate)
           (data_tags allData) (data_meta allData)
    else allData in
  let allData :=
    if (if tags duplicate is Some _ then true else false)
       && (List.length (default [] (data_tags allData))
           <? List.length (default [] (tags duplicate)))%nat
    then mkAllData (data_title allData) (data_description allData)
           (tags duplicate) (data_meta allData)
    else allData in
  allData.

(** [allData] as the [updates] of [updateBookmark]: the four keys are
    there, whatever their values. *)
Definition AllData_updates (allData : AllData) : Updates :=
  {| u_title := Some (data_title allData);
     u_description := Some (data_description allData);
     u_tags := Some (data_tags allData);
     u_meta := Some (data_meta allData);
     u_isDuplicate := None;
     u_duplicateOf := None |}.

(** [{ isDuplicate: false, duplicateOf: null }] *)
Definition duplicate_unmark : Updates :=
  {| u_title := None; u_description := None; u_tags := None; u_meta := None;
     u_isDuplicate := Some false;
     u_duplicateOf := Some None |}.

Definition Severity_eqb (a b : Severity) : bool :=
  match a, b with
  | critical, critical | high, high | medium, medium => true
  | _, _ => false
  end.

Record SeverityCounts : Type := mkSeverityCounts {
  count_critical : Z;
  count_high : Z;
  count_medium : Z
}.

Record ResolutionCounts : Type := mkResolutionCounts {
  autoResolved : Z;
  manualResolution : Z
}.

Record Statistics : Type := mkStatistics {
  totalGroups : Z;
  totalDuplicates : Z;
  totalBookmarksAffected : Z;
  severityCounts : SeverityCounts;
  resolution : ResolutionCounts
}.

Section Maintenance.
Variable URL_new : string -> completion URL.
Variable URLSearchParams_new : string -> list (string * string).
Variable now : Z.

(** *** StorageManager and BookmarkService *)

(** [store.delete(id)]; [BookmarkService.deleteBookmark] hands over to it. *)
Definition deleteBookmark (i : string) : Async unit := fun σ =>
  (Normal tt, delete i σ).

(** *** DuplicateDetector *)

(** [action] is the third argument; a call without it passes
    ["merge_metadata"]. *)
Definition resolveManually (groupId keepBookmarkId action : string)
  : Async ManualResolution :=
  duplicateGroups ← findAll URL_new URLSearchParams_new now;
  match List.find (fun g => String.eqb (dg_id g) groupId) duplicateGroups with
  | None => throw (Error "Duplicate group not found")
  | Some group =>
      let keeper :=
        List.find (fun b => String.eqb (id b) keepBookmarkId)
          (dg_bookmarks group) in
      let duplicates :=
        List.filter (fun b => negb (String.eqb (id b) keepBookmarkId))
          (dg_bookmarks group) in
      match keeper with
      | None => throw (Error "Bookmark to keep not found")
      | Some keeper =>
          _ ← (if String.eqb action "merge_metadata"
               then
                 let allData :=
                   {| data_title := title keeper;
                      data_description := description keeper;
                      data_tags := tags keeper;
                      data_meta := meta keeper |} in
                 let allData := foldl merge_if_better allData duplicates in
                 _ ← updateBookmark URL_new now (id keeper)
                       (AllData_updates allData);
                 mret tt
               else mret tt);
          _ ← for_of duplicates
                (fun _ duplicate =>
                   _ ← updateBookmark URL_new now (id duplicate)
                         (duplicate_mark keeper);
                   mret tt)
                tt;
          mret {| man_kept := id keeper;
                  man_removed := List.map id duplicates;
                  man_action := action |}
      end
  end.

(** The first step of [resolveManually] once the keeper is found: with the
    action "merge_metadata", the update of the keeper with the data
    merged. *)
Definition merge_data (action : string) (keeper : Bookmark)
    (duplicates : list Bookmark) : Async unit :=
  if String.eqb action "merge_metadata"
  then
    _ ← updateBookmark URL_new now (id keeper)
          (AllData_updates
             (foldl merge_if_better
                {| data_title := title keeper;
                   data_description := description keeper;
                   data_tags := tags keeper;
                   data_meta := meta keeper |} duplicates));
    mret tt
  else mret tt.

(** The first step of a turn of [autoResolve] once the keeper is found:
    with the option [mergeMetadata] and the action "merge_metadata", the
    update of the keeper with the merged data. *)
Definition merge_keeper (options : Options) (keeper : Bookmark)
    (rec : Recommendation) : Async unit :=
  if opt_mergeMetadata options && ActionKind_eqb (action rec) merge_metadata
  then
    _ ← updateBookmark URL_new now (id keeper)
          (keeper_updates keeper (merge rec));
    mret tt
  else mret tt.

Definition getStatistics : Async Statistics :=
  duplicateGroups ← findAll URL_new URLSearchParams_new now;
  let totalDuplicates :=
    foldl (fun sum group => sum + dg_count group) 0 duplicateGroups in
  let severityCounts :=
    {| count_critical :=
         Z.of_nat (List.length
           (List.filter (fun g => Severity_eqb (dg_severity g) critical)
              duplicateGroups));
       count_high :=
         Z.of_nat (List.length
           (List.filter (fun g => Severity_eqb (dg_severity g) high)
              duplicateGroups));
       count_medium :=
         Z.of_nat (List.length
           (List.filter (fun g => Severity_eqb (dg_severity g) medium)
              duplicateGroups)) |} in
  mret {| totalGroups := Z.of_nat (List.length duplicateGroups);
          totalDuplicates := totalDuplicates;
          totalBookmarksAffected := totalDuplicates;
          severityCounts := severityCounts;
          resolution := {| autoResolved := 0; manualResolution := 0 |} |}.

(** The body of the loop of [cleanup]; [bookmarkService.getBookmark] hands
    over to the storage manager's. *)
Definition cleanup_step (_ : unit) (bookmark : Bookmark) : Async unit :=
  if isDuplicate bookmark && truthy (duplicateOf bookmark)
  then
    original ← getBookmark (default "" (duplicateOf bookmark));
    if original is Some _ then mret tt
    else
      _ ← updateBookmark URL_new now (id bookmark) duplicate_unmark;
      mret tt
  else mret tt.

Definition cleanup : Async unit :=
  allBookmarks ← getAllBookmarks;
  for_of allBookmarks cleanup_step tt.
End Maintenance.

(** *** Normalizer *)

(** The search parameters that are no tracking parameters. *)
Definition untracked (params : list (string * string))
  : list (string * string) :=
  List.filter (fun kv => negb (includes trackingParams (toLowerCase (fst kv))))
    params.

(** *** Stores *)

Section StoreSpec.
Variable URL_new : string -> completion URL.

(** Every stored record passes [validateBookmark]. *)
Definition store_valid (σ : gmap string Bookmark) : Prop :=
  forall i b, σ !! i = Some b -> validateBookmark URL_new b = true.
End StoreSpec.

(** A record marked as the duplicate of a record that the store does not
    hold. *)
Definition dangling (σ : gmap string Bookmark) (b : Bookmark) : Prop :=
  isDuplicate b = true
  /\ exists d, duplicateOf b = Some d /\ d <> "" /\ σ !! d = None.

(** The stores that the loop of [cleanup] goes through, from [σ]: a record
    is as it was or, when it was dangling, unmarked. *)
Definition cleaned_from (now : Z) (σ σc : gmap string Bookmark) : Prop :=
  forall i,
    σc !! i = σ !! i
    \/ exists b, σ !! i = Some b /\ dangling σ b
                 /\ σc !! i = Some (spread b duplicate_unmark (id b) now).

(** The fields of a record that no update of the detector writes. *)
Definition same_origin (a b : Bookmark) : Prop :=
  id a = id b /\ url a = url b /\ category a = category b
  /\ dateAdded a = dateAdded b /\ dateVisited a = dateVisited b
  /\ visitCount a = visitCount b /\ isBroken a = isBroken b.

(** The fields of a record that hold its content. *)
Definition same_content (a b : Bookmark) : Prop :=
  title a = title b /\ description a = description b
  /\ tags a = tags b /\ meta a = meta b.

(** The stores [σ] and [σ'] hold records under the same ids, and each record
    of [σ'] has the origin of the one of [σ]. *)
Definition same_records (σ σ' : gmap string Bookmark) : Prop :=
  forall i,
    match σ !! i, σ' !! i with
    | Some a, Some b => same_origin a b
    | None, None => True
    | _, _ => False
    end.

(** The entry of the results of [autoResolve] for a group. *)
Definition resolution_of (group : DuplicateGroup) : Resolution :=
  {| res_group := dg_id group;
     res_kept := keep (dg_recommendedAction group);
     res_removed :=
       List.map id
         (List.filter
            (fun b => negb (String.eqb (id b) (keep (dg_recommendedAction group))))
            (dg_bookmarks group));
     res_action := action (dg_recommendedAction group) |}.

(** *** Sample stores *)

Definition with_duplicateOf (b : Bookmark) (d : string) : Bookmark :=
  mkBookmark (id b) (url b) (title b) (description b) (tags b) (category b)
    (meta b) (dateAdded b) (dateModified b) (dateVisited b) (visitCount b)
    (isBroken b) true (Some d).

(** [sample_store] with the record "2" marked as a duplicate of "1". *)
Definition marked_store : gmap string Bookmark :=
  <["2" := with_duplicateOf
             (with_url (with_title (a_bookmark "2") (Some "GitHub Repo"))
                (Some "https://www.github.com/user/repo/"))
             "1"]> sample_store.

(** [marked_store] without the record "1": the mark of "2" dangles. *)
Definition orphan_store : gmap string Bookmark := delete "1" marked_store.

(** The store after two records were saved, a second apart. *)
Definition saved_store : gmap string Bookmark :=
  (saveBookmark (sample_now + 1000) (twin "2")
     (saveBookmark sample_now (twin "1") ∅).2).2.

(** Two URLs of one page: the parameters in another order, and a tracking
    parameter. *)
Definition plain_url : string := "http://example.com/a?a=2&b=1".
Definition tracked_url : string :=
  "https://example.com/a?b=1&utm_source=news&a=2".

(** * Properties *)

Import JsString.

(** ** Sorting *)

Section ArraySortPerm.
Context {A : Type} (le : A -> A -> bool).

Lemma insert_by_Permutation x l : insert_by le x l ≡ₚ x :: l.
Proof.
  induction l as [|y l IH]; simpl; [done|].
  destruct (le x y); [done|]. rewrite IH. apply Permutation_swap.
Qed.

Lemma Array_sort_by_Permutation l : Array_sort_by le l ≡ₚ l.
Proof.
  induction l as [|x l IH]; [done|].
  unfold Array_sort_by in *. simpl.
  rewrite insert_by_Permutation. by rewrite IH.
Qed.
End ArraySortPerm.

Section ArraySortFacts.
Context {A : Type} (key : A -> Q).








Lemma Array_sort_head l : head (Array_sort (descending key) l) = first_max key l.
Proof.
  induction l as [|x l IH]; [done|].
  change (Array_sort (descending key) (x :: l))
    with (insert_by (fun a b => Qle_bool (descending key a b) 0) x
            (Array_sort (descending key) l)).
  simpl. rewrite <- IH.
  destruct (Array_sort (descending key) l) as [|y l']; simpl; [done|].
  unfold descending.
  destruct (Qle_bool (key y - key x) 0) eqn:E1, (Qle_bool (key y) (key x)) eqn:E2;
    try done.
  - apply Qle_bool_iff in E1. apply not_true_iff_false in E2.
    rewrite Qle_bool_iff in E2. lra.
  - apply Qle_bool_iff in E2. apply not_true_iff_false in E1.
    rewrite Qle_bool_iff in E1. lra.
Qed.

Lemma first_max_is_Some x l : is_Some (first_max key (x :: l)).
Proof. simpl. destruct (first_max key l); [destruct (Qle_bool _ _)|]; eauto. Qed.

(** [first_max] is the earliest element of the greatest key. *)
Lemma first_max_spec l m :
  first_max key l = Some m ->
  exists i, l !! i = Some m
    /\ (forall j y, l !! j = Some y -> (key y <= key m)%Q)
    /\ (forall j y, (j < i)%nat -> l !! j = Some y -> (key y < key m)%Q).
Proof.
  revert m. induction l as [|x l IH]; intros m; simpl; [done|].
  destruct (first_max key l) as [y|] eqn:Ey.
  - destruct (IH y eq_refl) as (i & Hi & Hmax & Hbefore).
    destruct (Qle_bool (key y) (key x)) eqn:E; intros [= <-].
    + apply Qle_bool_iff in E. exists 0%nat. split; [done|]. split.
      * intros [|j] z; simpl; [intros [= <-]; lra|].
        intros Hz. specialize (Hmax _ _ Hz). lra.
      * intros j z Hj. lia.
    + apply not_true_iff_false in E. rewrite Qle_bool_iff in E.
      exists (S i). split; [done|]. split.
      * intros [|j] z; simpl; [intros [= <-]; lra|]. apply Hmax.
      * intros [|j] z Hj; simpl; [intros [= <-]; lra|].
        apply Hbefore. lia.
  - intros [= <-]. exists 0%nat. split; [done|].
    destruct l as [|z l]; [|by destruct (first_max_is_Some z l) as [? ?]; congruence].
    split.
    + intros [|j] y; simpl; [intros [= <-]; lra|done].
    + intros j y Hj. lia.
Qed.

End ArraySortFacts.

(** ** URL Normalizer *)

Lemma prefix_cons c p d s :
  String.prefix (String c p) (String d s) = Ascii.eqb c d && String.prefix p s.
Proof.
  simpl. destruct (ascii_dec c d) as [->|Hne].
  - by rewrite Ascii.eqb_refl.
  - apply Ascii.eqb_neq in Hne. by rewrite Hne.
Qed.

Lemma prefix_app p1 p2 s :
  String.prefix (p1 ++ p2) s
  = String.prefix p1 s && String.prefix p2 (drop (String.length p1) s).
Proof.
  revert s. induction p1 as [|c p1 IH]; intros s; [by destruct s|].
  destruct s as [|d s]; [done|].
  change (String c p1 ++ p2) with (String c (p1 ++ p2)).
  rewrite !prefix_cons, IH. simpl. by rewrite andb_assoc.
Qed.

Lemma match_start_lits p rest s :
  match_start (lits p ++ rest)%list s
  = if String.prefix p s then match_start rest (drop (String.length p) s) else None.
Proof.
  revert s. induction p as [|c p IH]; intros s; [by destruct s|].
  destruct s as [|d s]; [done|].
  rewrite prefix_cons. change (lits (String c p)) with (Lit c :: lits p).
  simpl. destruct (Ascii.eqb c d); [apply IH|done].
Qed.

Lemma replace_start_lits p s : replace_start (lits p) s = strip_leading p s.
Proof.
  unfold replace_start, strip_leading.
  rewrite <- (app_nil_r (lits p)), match_start_lits. by destruct (String.prefix p s).
Qed.

Lemma drop_drop n m s : drop n (drop m s) = drop (m + n) s.
Proof.
  revert s. induction m as [|m IH]; intros s; [done|].
  destruct s; simpl; [by destruct n|]. apply IH.
Qed.

Lemma replace_start_scheme s : replace_start re_scheme s = strip_scheme s.
Proof.
  unfold replace_start, strip_scheme, re_scheme.
  rewrite match_start_lits.
  change "http://" with ("http" ++ "://").
  change "https://" with ("http" ++ "s://").
  rewrite !prefix_app.
  change (String.length "http") with 4%nat.
  replace (drop 7 s) with (drop 3 (drop 4 s)) by apply drop_drop.
  replace (drop 8 s) with (drop 4 (drop 4 s)) by apply drop_drop.
  destruct (String.prefix "http" s); [|done]. cbn [andb].
  generalize (drop 4 s). intros s'.
  change ([Opt "s"%char] ++ lits "://")%list
    with (Opt "s"%char :: (lits "://" ++ [])%list).
  destruct s' as [|d s']; [done|].
  cbn [match_start]. rewrite !match_start_lits.
  change "s://" with (String "s" "://"). rewrite (prefix_cons "s").
  change (String.length "://") with 3%nat.
  destruct (Ascii.eqb_spec "s"%char d) as [<-|Hne]; cbn [andb].
  - change (drop 4 (String "s" s')) with (drop 3 s').
    change (String.prefix "://" (String "s" s')) with false.
    by destruct (String.prefix "://" s').
  - by destruct (String.prefix "://" (String d s')).
Qed.

Lemma append_assoc (a b c : string) : (a ++ b) ++ c = a ++ (b ++ c).
Proof.
  induction a as [|x a IH]; [done|].
  change (String x ((a ++ b) ++ c) = String x (a ++ (b ++ c))). by rewrite IH.
Qed.

Lemma rev_onto_app s acc : rev_onto s acc = rev s ++ acc.
Proof.
  unfold rev. revert acc. induction s as [|c s IH]; intros acc; [done|].
  simpl. rewrite (IH (String c "")), IH.
  by rewrite append_assoc.
Qed.

Lemma rev_cons c s : rev (String c s) = rev s ++ String c "".
Proof. unfold rev at 1. simpl. apply rev_onto_app. Qed.

Lemma prefix_nil s : String.prefix "" s = true.
Proof. by destruct s. Qed.

Lemma prefix1_app c a b :
  a <> "" -> String.prefix (String c "") (a ++ b) = String.prefix (String c "") a.
Proof.
  destruct a as [|e r]; [done|]. intros _.
  change (String e r ++ b) with (String e (r ++ b)).
  by rewrite !prefix_cons, !prefix_nil.
Qed.

Lemma rev_cons_nonempty c s : rev (String c s) <> "".
Proof. rewrite rev_cons. destruct (rev s); discriminate. Qed.

Lemma endsWith_slash_cons c d s :
  endsWith (String c (String d s)) "/" = endsWith (String d s) "/".
Proof.
  unfold endsWith. rewrite (rev_cons c).
  change (rev "/") with "/".
  apply prefix1_app, rev_cons_nonempty.
Qed.

Lemma replace_trailing_slash_spec s :
  replace_trailing_slash s = strip_trailing_slash s.
Proof.
  unfold replace_trailing_slash.
  induction s as [|c s IH]; [done|].
  destruct s as [|d s].
  - unfold endsWith. change (rev "/") with "/".
    change (rev (String c "")) with (String c "").
    rewrite prefix_cons, prefix_nil, andb_true_r, Ascii.eqb_sym.
    cbn [strip_trailing_slash slice_0_m1]. by destruct (Ascii.eqb c "/").
  - rewrite endsWith_slash_cons.
    change (strip_trailing_slash (String c (String d s)))
      with (String c (strip_trailing_slash (String d s))).
    rewrite <- IH. destruct (endsWith (String d s) "/"); done.
Qed.

Lemma length_toLowerCase s : String.length (toLowerCase s) = String.length s.
Proof.
  unfold toLowerCase. induction s as [|c s IH]; [done|]. simpl. by rewrite IH.
Qed.

Lemma length_drop n s : String.length (drop n s) = (String.length s - n)%nat.
Proof.
  revert s. induction n as [|n IH]; intros s; [simpl; lia|].
  destruct s as [|c s]; [done|]. simpl. apply IH.
Qed.

Lemma prefix_length p s :
  String.prefix p s = true -> (String.length p <= String.length s)%nat.
Proof.
  revert s. induction p as [|c p IH]; intros s; [simpl; lia|].
  destruct s as [|d s]; [done|]. rewrite prefix_cons.
  intros [_ H]%andb_true_iff. apply IH in H. simpl. lia.
Qed.

(** Stripping a prefix that is there shortens the string. *)
Lemma length_strip_leading p s :
  if String.prefix p s
  then (String.length (strip_leading p s) + String.length p
        = String.length s)%nat
  else strip_leading p s = s.
Proof.
  unfold strip_leading. destruct (String.prefix p s) eqn:E; [|done].
  rewrite length_drop. apply prefix_length in E. lia.
Qed.

Lemma length_strip_scheme s :
  (String.length (strip_scheme s) <= String.length s)%nat
  /\ (String.prefix "http://" s = true ->
      (String.length (strip_scheme s) < String.length s)%nat)
  /\ (String.prefix "http://" s = false -> String.prefix "https://" s = true ->
      (String.length (strip_scheme s) < String.length s)%nat).
Proof.
  unfold strip_scheme.
  destruct (String.prefix "http://" s) eqn:E1.
  { apply prefix_length in E1. rewrite length_drop. simpl in E1.
    repeat split; intros; (lia || done). }
  destruct (String.prefix "https://" s) eqn:E2.
  { apply prefix_length in E2. rewrite length_drop. simpl in E2.
    repeat split; intros; (lia || done). }
  repeat split; intros; (lia || done).
Qed.

Lemma length_slice_0_m1 s :
  String.length (slice_0_m1 s) = (String.length s - 1)%nat.
Proof.
  induction s as [|c s IH]; [done|]. destruct s as [|d s]; [done|].
  change (slice_0_m1 (String c (String d s)))
    with (String c (slice_0_m1 (String d s))).
  simpl String.length in *. rewrite IH. lia.
Qed.

Lemma endsWith_nonempty s : endsWith s "/" = true -> s <> "".
Proof. by intros H ->. Qed.

(** Stripping a trailing slash that is there shortens the string. *)
Lemma length_replace_trailing_slash s :
  if endsWith s "/"
  then (String.length (replace_trailing_slash s) < String.length s)%nat
  else replace_trailing_slash s = s.
Proof.
  unfold replace_trailing_slash. destruct (endsWith s "/") eqn:E; [|done].
  rewrite length_slice_0_m1. apply endsWith_nonempty in E.
  destruct s; [done|]. simpl. lia.
Qed.

Section NormalizerFacts.
Variable URL_new : string -> completion URL.
Variable URLSearchParams_new : string -> list (string * string).

Lemma normalizeUrl_fallback_spec url :
  normalizeUrl_fallback url = spec_fallback url.
Proof.
  unfold normalizeUrl_fallback, spec_fallback, re_www.
  by rewrite replace_start_scheme, replace_start_lits, replace_trailing_slash_spec.
Qed.

Lemma normalizeUrl_total url :
  normalizeUrl URL_new URLSearchParams_new url
  = Normal (normalized URL_new URLSearchParams_new url).
Proof.
  unfold normalized, normalizeUrl, normalizeUrl_try, try_catch.
  destruct (URL_new url); done.
Qed.

(** C5.  [normalizeUrl] returns normally on every string, and when the URL
    constructor throws it returns the lowercased input with a leading
    [http://] or [https://] stripped, then a leading [www.] stripped, then
    a trailing [/] stripped. *)
Theorem normalizeUrl_never_throws (url : string) :
  exists n,
    normalizeUrl URL_new URLSearchParams_new url = Normal n
    /\ (forall e, URL_new url = Throw e -> n = spec_fallback url).
Proof.
  exists (normalized URL_new URLSearchParams_new url).
  split; [apply normalizeUrl_total|].
  intros e He. unfold normalized, normalizeUrl, normalizeUrl_try.
  rewrite He. simpl. apply normalizeUrl_fallback_spec.
Qed.

(** The fallback leaves exactly the canonical strings as they are. *)
Lemma normalizeUrl_fallback_fixed n :
  normalizeUrl_fallback n = n
  <-> toLowerCase n = n
      /\ startsWith n "http://" = false
      /\ startsWith n "https://" = false
      /\ startsWith n "www." = false
      /\ endsWith n "/" = false.
Proof.
  unfold normalizeUrl_fallback, re_www, startsWith.
  rewrite replace_start_scheme, replace_start_lits.
  split.
  - intros Hfix. apply (f_equal String.length) in Hfix as Hlen.
    set (s0 := toLowerCase n) in *.
    set (s1 := strip_scheme s0) in *.
    set (s2 := strip_leading "www." s1) in *.
    pose proof (length_toLowerCase n) as H0. fold s0 in H0.
    destruct (length_strip_scheme s0) as (H1 & H1a & H1b). fold s1 in H1, H1a, H1b.
    pose proof (length_strip_leading "www." s1) as H2. fold s2 in H2.
    pose proof (length_replace_trailing_slash s2) as H3.
    assert (H2le : (String.length s2 <= String.length s1)%nat).
    { destruct (String.prefix "www." s1); [lia|by rewrite H2]. }
    destruct (endsWith s2 "/") eqn:E3; [lia|]. rewrite H3 in Hfix, Hlen.
    destruct (String.prefix "www." s1) eqn:E2; [simpl in H2; lia|].
    rewrite H2 in Hfix, Hlen.
    destruct (String.prefix "http://" s0) eqn:E1; [specialize (H1a eq_refl); lia|].
    destruct (String.prefix "https://" s0) eqn:E1';
      [specialize (H1b eq_refl eq_refl); lia|].
    assert (Hs1 : s1 = s0) by (unfold s1, strip_scheme; by rewrite E1, E1').
    rewrite Hs1 in Hfix. rewrite H2, Hs1 in E3.
    rewrite Hs1 in E2. rewrite Hfix in E1, E1', E2, E3. unfold s0 in Hfix. done.
  - intros (Hlow & Hhttp & Hhttps & Hwww & Hslash).
    rewrite Hlow. unfold strip_scheme. rewrite Hhttp, Hhttps.
    unfold strip_leading. rewrite Hwww.
    unfold replace_trailing_slash. by rewrite Hslash.
Qed.

(** C4, amended.  For a normalized form [n] of [url] that does not parse as
    a URL, normalizing [n] gives [n] again exactly when [n] is lowercase,
    starts with none of [http://], [https://] and [www.], and does not end
    with [/]. *)
Theorem normalizeUrl_idempotent_on_canonical (url n : string) :
  normalizeUrl URL_new URLSearchParams_new url = Normal n ->
  (exists e, URL_new n = Throw e) ->
  normalizeUrl URL_new URLSearchParams_new n
  = normalizeUrl URL_new URLSearchParams_new url
  <-> toLowerCase n = n
      /\ startsWith n "http://" = false
      /\ startsWith n "https://" = false
      /\ startsWith n "www." = false
      /\ endsWith n "/" = false.
Proof.
  intros -> [e He]. rewrite <- normalizeUrl_fallback_fixed.
  unfold normalizeUrl at 1, normalizeUrl_try. rewrite He. simpl.
  split; [by intros [= ->]|by intros ->].
Qed.
End NormalizerFacts.

(** C4, counterexample.  Three inputs on which a second normalization changes
    the result: a second [www.] is stripped, the [/] of a root path is
    stripped, and the query is lowercased. *)
Lemma normalizeUrl_not_idempotent :
  (normalizeUrl_whatwg "www.www.a" = Normal "www.a"
   /\ normalizeUrl_whatwg "www.a" = Normal "a")
  /\ (normalizeUrl_whatwg "https://example.com" = Normal "example.com/"
      /\ normalizeUrl_whatwg "example.com/" = Normal "example.com")
  /\ (normalizeUrl_whatwg "https://x.com/a?B=C" = Normal "x.com/a?B=C"
      /\ normalizeUrl_whatwg "x.com/a?B=C" = Normal "x.com/a?b=c").
Proof. repeat split; reflexivity. Qed.

(** The first of them, for every parser that rejects the two strings, as the
    URL Standard does for an input with no scheme. *)
Lemma normalizeUrl_not_idempotent_any_parser
    (URL_new : string -> completion URL)
    (URLSearchParams_new : string -> list (string * string)) :
  (exists e, URL_new "www.www.a" = Throw e) ->
  (exists e, URL_new "www.a" = Throw e) ->
  normalizeUrl URL_new URLSearchParams_new "www.www.a" = Normal "www.a"
  /\ normalizeUrl URL_new URLSearchParams_new "www.a" = Normal "a".
Proof.
  intros [e1 H1] [e2 H2]. unfold normalizeUrl, normalizeUrl_try.
  rewrite H1, H2. split; reflexivity.
Qed.

Lemma normalizeUrl_idempotent_on_canonical_witness :
  normalizeUrl_whatwg "https://www.github.com/user/repo/"
    = Normal "github.com/user/repo"
  /\ normalizeUrl_whatwg "github.com/user/repo"
     = normalizeUrl_whatwg "https://www.github.com/user/repo/".
Proof.
  split; [reflexivity|].
  apply (normalizeUrl_idempotent_on_canonical
           Whatwg.URL_new Whatwg.URLSearchParams_new
           "https://www.github.com/user/repo/" "github.com/user/repo").
  - reflexivity.
  - eexists. reflexivity.
  - repeat split; reflexivity.
Defined.

(** The scenario of the specification: two spellings of one address. *)
Example groupDuplicates_scenario :
  exists g,
    groupDuplicates Whatwg.URL_new Whatwg.URLSearchParams_new
      [with_url (a_bookmark "1") (Some "https://www.a.com/x/");
       with_url (a_bookmark "2") (Some "http://a.com/x");
       with_url (a_bookmark "3") (Some "https://example.com");
       a_bookmark "4"]
    = Normal [g]
    /\ normalizedUrl g = "a.com/x"
    /\ id <$> bookmarks g = ["1"; "2"]
    /\ calculateSeverity (Z.of_nat (Group_length g)) = medium.
Proof. eexists. split; [vm_compute; reflexivity|]. repeat split. Qed.

(** The cases of tests/unit/duplicate-detector.test.js. *)
Example normalizeUrl_test_cases :
  normalizeUrl_whatwg "https://www.github.com/user/repo/" = Normal "github.com/user/repo"
  /\ normalizeUrl_whatwg "http://github.com/user/repo" = Normal "github.com/user/repo"
  /\ normalizeUrl_whatwg "https://github.com/user/repo?utm_source=github"
     = Normal "github.com/user/repo"
  /\ normalizeUrl_whatwg "https://github.com/user/repo#readme"
     = Normal "github.com/user/repo#readme"
  /\ normalizeUrl_whatwg "not-a-valid-url" = Normal "not-a-valid-url".
Proof. repeat split; reflexivity. Qed.

(** ** Duplicate Grouper *)

Section JsMapFacts.
Context {K V : Type} `{EqDecision K}.
Implicit Types (m : list (K * V)) (k : K) (v : V).

Lemma Map_has_keys m k : Map_has m k = true <-> k ∈ m.*1.
Proof.
  unfold Map_has. rewrite existsb_exists. split.
  - intros ([k' v] & Hin & Hk). apply bool_decide_eq_true in Hk. simpl in Hk.
    subst. apply list_elem_of_In in Hin. apply list_elem_of_fmap. by exists (k, v).
  - intros ([k' v] & -> & Hin)%list_elem_of_fmap. exists (k', v).
    split; [by apply list_elem_of_In|]. by apply bool_decide_eq_true.
Qed.

Lemma Map_get_None m k : Map_get m k = None <-> k ∉ m.*1.
Proof.
  induction m as [|[k' v] m IH]; csimpl.
  - split; [intros _; apply not_elem_of_nil|done].
  - rewrite not_elem_of_cons. destruct (decide (k' = k)) as [->|Hne].
    + split; [done|]. by intros [? _].
    + rewrite IH. split; [by split|by intros [_ ?]].
Qed.

Lemma Map_has_false m k : Map_has m k = false <-> Map_get m k = None.
Proof. rewrite Map_get_None, <- Map_has_keys. by destruct (Map_has m k). Qed.

Lemma Map_get_alter f k m k' :
  Map_get (Map_alter f k m) k'
  = if decide (k = k') then f <$> Map_get m k' else Map_get m k'.
Proof.
  induction m as [|[k0 v] m IH]; simpl; [by destruct (decide _)|].
  destruct (decide (k0 = k)) as [->|Hne]; simpl.
  - destruct (decide (k = k')); [done|]. done.
  - destruct (decide (k0 = k')) as [->|Hne'].
    + destruct (decide (k = k')); [congruence|done].
    + apply IH.
Qed.

Lemma Map_alter_keys f k m : (Map_alter f k m).*1 = m.*1.
Proof.
  induction m as [|[k0 v] m IH]; csimpl; [done|].
  destruct (decide (k0 = k)); csimpl; [done|]. by rewrite IH.
Qed.

Lemma Map_get_snoc m k v k' :
  Map_get (m ++ [(k, v)]) k'
  = match Map_get m k' with
    | Some x => Some x
    | None => if decide (k = k') then Some v else None
    end.
Proof.
  induction m as [|[k0 v0] m IH]; simpl; [done|].
  destruct (decide (k0 = k')); [done|]. apply IH.
Qed.

Lemma Map_get_elem_of m k v :
  NoDup m.*1 -> (k, v) ∈ m <-> Map_get m k = Some v.
Proof.
  induction m as [|[k0 v0] m IH]; csimpl; intros Hnd.
  - split; [by intros ?%elem_of_nil|done].
  - apply NoDup_cons in Hnd as [Hk0 Hnd]. rewrite elem_of_cons.
    destruct (decide (k0 = k)) as [->|Hne].
    + split; [|intros [= ->]; by left].
      intros [[= ->]|Hin]; [done|]. exfalso. apply Hk0.
      apply list_elem_of_fmap. by exists (k, v).
    + rewrite <- IH by done. split; [|by right].
      intros [[= -> ->]|Hin]; [done|done].
Qed.
End JsMapFacts.

Section GrouperFacts.
Variable URL_new : string -> completion URL.
Variable URLSearchParams_new : string -> list (string * string).

Local Abbreviation key := (key_of URL_new URLSearchParams_new).
Local Abbreviation keyed := (has_key URL_new URLSearchParams_new).
Local Abbreviation shared := (sharing URL_new URLSearchParams_new).
Local Abbreviation step := (groupDuplicates_step URL_new URLSearchParams_new).
Local Abbreviation entry := (group_for URL_new URLSearchParams_new).
Local Abbreviation tracks := (grouped URL_new URLSearchParams_new).

Lemma sharing_snoc k seen b :
  shared k (seen ++ [b])
  = (shared k seen ++ if keyed k b then [b] else [])%list.
Proof. unfold sharing. rewrite List.filter_app. simpl. by destruct (keyed k b). Qed.

Lemma groupDuplicates_step_grouped m seen b :
  tracks m seen ->
  exists m', step m b = Normal m' /\ tracks m' (seen ++ [b]).
Proof.
  intros [Hnd Hget]. unfold groupDuplicates_step.
  destruct (truthy (url b)) eqn:Hurl; simpl.
  - rewrite normalizeUrl_total. simpl.
    set (n := normalized URL_new URLSearchParams_new (default "" (url b))).
    assert (Hkey : forall k, keyed k b = bool_decide (n = k)).
    { intros k. unfold has_key, key_of.
      rewrite Hurl. fold n. apply bool_decide_ext. naive_solver. }
    eexists. split; [done|].
    destruct (Map_has m n) eqn:Hhas; simpl.
    + split; [by rewrite Map_alter_keys|].
      intros k. rewrite Map_get_alter, Hget. unfold group_for.
      rewrite sharing_snoc, Hkey.
      destruct (decide (n = k)) as [->|Hne].
      * rewrite bool_decide_eq_true_2 by done.
        assert (Hsome : Map_get m k <> None).
        { rewrite <- Map_has_false. by rewrite Hhas. }
        rewrite Hget in Hsome. unfold group_for in Hsome.
        destruct (shared k seen) as [|x l]; [done|]. done.
      * rewrite bool_decide_eq_false_2 by done. by rewrite app_nil_r.
    + apply Map_has_false in Hhas as Hnone. unfold Map_set. rewrite Hhas.
      split.
      * rewrite Map_alter_keys, fmap_app. apply NoDup_app. split; [done|].
        split; [|apply NoDup_singleton].
        intros k Hk ->%list_elem_of_singleton.
        by apply Map_get_None in Hnone.
      * intros k. rewrite Map_get_alter, Map_get_snoc, Hget.
        unfold group_for. rewrite sharing_snoc, Hkey.
        rewrite Hget in Hnone. unfold group_for in Hnone.
        destruct (decide (n = k)) as [->|Hne].
        -- rewrite bool_decide_eq_true_2 by done.
           destruct (shared k seen) as [|x l]; [|done]. simpl.
           by destruct (decide (k = k)).
        -- rewrite bool_decide_eq_false_2 by done. rewrite app_nil_r.
           destruct (shared k seen) as [|x l]; [|done].
           by destruct (decide (n = k)).
  - exists m. split; [done|]. split; [done|].
    intros k. rewrite Hget. unfold group_for. rewrite sharing_snoc.
    assert (Hk : keyed k b = false).
    { apply bool_decide_eq_false_2. unfold key_of. by rewrite Hurl. }
    by rewrite Hk, app_nil_r.
Qed.

Lemma forEach_grouped bookmarks m seen :
  tracks m seen ->
  exists m', forEach step bookmarks m = Normal m'
             /\ tracks m' (seen ++ bookmarks).
Proof.
  revert m seen. induction bookmarks as [|b bs IH]; intros m seen Hm; simpl.
  - exists m. by rewrite app_nil_r.
  - destruct (groupDuplicates_step_grouped m seen b Hm) as (m1 & -> & Hm1).
    simpl. destruct (IH m1 (seen ++ [b])%list Hm1) as (m' & Hm' & Hg).
    exists m'. split; [done|]. by rewrite <- app_assoc in Hg.
Qed.

Lemma group_for_Some k seen g :
  entry k seen = Some g ->
  normalizedUrl g = k /\ bookmarks g = shared k seen /\ bookmarks g <> [].
Proof.
  unfold group_for. destruct (shared k seen) as [|x l] eqn:E; [done|].
  by intros [= <-].
Qed.

Lemma elem_of_sharing k records b :
  b ∈ shared k records <-> b ∈ records /\ key b = Some k.
Proof.
  unfold sharing. rewrite !list_elem_of_In, filter_In.
  unfold has_key. by rewrite bool_decide_eq_true.
Qed.

Lemma filter_sublist {A} (p : A -> bool) (l : list A) :
  List.filter p l `sublist_of` l.
Proof.
  induction l as [|x l IH]; simpl; [done|].
  destruct (p x); by constructor.
Qed.

Lemma grouped_values m seen :
  tracks m seen -> normalizedUrl <$> Map_values m = m.*1.
Proof.
  intros [Hnd Hget]. unfold Map_values.
  change (List.map snd m) with (m.*2). rewrite <- list_fmap_compose.
  apply list_fmap_ext. intros i [k g] Hi. simpl.
  assert (Hin : (k, g) ∈ m) by (apply list_elem_of_lookup; eauto).
  apply Map_get_elem_of in Hin; [|done]. rewrite Hget in Hin.
  by apply group_for_Some in Hin as [? _].
Qed.

(** The groups returned: one for each key shared by two records or more. *)
Lemma groupDuplicates_groups (records : list Bookmark) :
  exists groups,
    groupDuplicates URL_new URLSearchParams_new records = Normal groups
    /\ NoDup (normalizedUrl <$> groups)
    /\ (forall g, g ∈ groups <->
          entry (normalizedUrl g) records = Some g
          /\ (2 <= List.length (bookmarks g))%nat).
Proof.
  unfold groupDuplicates.
  destruct (forEach_grouped records [] []) as (m & -> & Hm).
  { split; [constructor|done]. }
  simpl in Hm. simpl. eexists. split; [done|]. split.
  - apply (sublist_NoDup _ (m.*1)); [apply Hm|].
    rewrite <- (grouped_values m records Hm).
    apply fmap_sublist, filter_sublist.
  - intros g. rewrite list_elem_of_In, filter_In.
    rewrite <- list_elem_of_In. unfold Group_length. rewrite Nat.ltb_lt.
    destruct Hm as [Hnd Hget]. unfold Map_values.
    change (List.map snd m) with (m.*2). rewrite list_elem_of_fmap.
    split.
    + intros [([k g'] & -> & Hkg) Hlen]. simpl in *. split; [|lia].
      apply Map_get_elem_of in Hkg; [|done]. rewrite Hget in Hkg.
      by destruct (group_for_Some _ _ _ Hkg) as [-> _].
    + intros [Hg Hlen]. split; [|lia]. exists (normalizedUrl g, g).
      split; [done|]. apply Map_get_elem_of; [done|]. by rewrite Hget.
Qed.

Lemma groupDuplicates_member (groups : list Group) records g b :
  (forall g, g ∈ groups <->
     entry (normalizedUrl g) records = Some g
     /\ (2 <= List.length (bookmarks g))%nat) ->
  g ∈ groups -> b ∈ bookmarks g ->
  b ∈ records /\ key b = Some (normalizedUrl g).
Proof.
  intros Hin [Hg _]%Hin Hb. apply group_for_Some in Hg as (_ & Hbs & _).
  rewrite Hbs in Hb. by apply elem_of_sharing in Hb.
Qed.

(** C3.  [groupDuplicates] returns one group for each normalized URL that
    two records or more share, with these records as members in encounter
    order: a record whose normalized URL is shared by two records or more
    is in exactly one returned group, a record whose normalized URL no
    other record has is in none, and a record without [url] is in none (it
    is no member and is not counted by any group). *)
Theorem groupDuplicates_complete (records : list Bookmark) :
  exists groups,
    groupDuplicates URL_new URLSearchParams_new records = Normal groups
    /\ NoDup (normalizedUrl <$> groups)
    /\ (forall g, g ∈ groups ->
          bookmarks g = shared (normalizedUrl g) records
          /\ (2 <= List.length (bookmarks g))%nat)
    /\ (forall b k, b ∈ records -> key b = Some k ->
          (2 <= List.length (shared k records))%nat ->
          exists g, g ∈ groups /\ b ∈ bookmarks g
                    /\ forall g', g' ∈ groups -> b ∈ bookmarks g' -> g' = g)
    /\ (forall b k, b ∈ records -> key b = Some k ->
          (List.length (shared k records) < 2)%nat ->
          forall g, g ∈ groups -> b ∉ bookmarks g)
    /\ (forall b, truthy (url b) = false ->
          forall g, g ∈ groups -> b ∉ bookmarks g).
Proof.
  destruct (groupDuplicates_groups records) as (groups & Hgroups & Hnd & Hin).
  exists groups. split; [done|]. split; [done|].
  assert (Hmem : forall g b, g ∈ groups -> b ∈ bookmarks g ->
            key b = Some (normalizedUrl g)).
  { intros g b Hg Hb. by eapply groupDuplicates_member. }
  split; [|split; [|split]].
  - intros g [Hg Hlen]%Hin. split; [|done].
    by apply group_for_Some in Hg as (_ & ? & _).
  - intros b k Hb Hk Hlen.
    destruct (entry k records) as [g|] eqn:Hg.
    2:{ unfold group_for in Hg.
        destruct (shared k records); [simpl in Hlen; lia|done]. }
    destruct (group_for_Some _ _ _ Hg) as (Hn & Hbs & _).
    exists g. split; [|split].
    + apply Hin. rewrite Hn, Hbs. done.
    + rewrite Hbs. by apply elem_of_sharing.
    + intros g' Hg' Hb'. pose proof (Hmem _ _ Hg' Hb') as Hk'.
      rewrite Hk in Hk'. injection Hk' as Hk'.
      apply Hin in Hg' as [Hg' _]. rewrite <- Hk', Hg in Hg'. by injection Hg'.
  - intros b k Hb Hk Hlen g Hg Hbg.
    pose proof (Hmem _ _ Hg Hbg) as Hk'. rewrite Hk in Hk'. injection Hk' as ->.
    apply Hin in Hg as [Hg Hlen']. apply group_for_Some in Hg as (_ & Hbs & _).
    rewrite Hbs in Hlen'. lia.
  - intros b Hurl g Hg Hbg. pose proof (Hmem _ _ Hg Hbg) as Hk.
    unfold key_of in Hk. by rewrite Hurl in Hk.
Qed.
End GrouperFacts.

(** ** Resolution Recommender: keeper, action and reason *)

Lemma first_max_fmap {A B} (f : A -> B) (key : B -> Q) (l : list A) :
  first_max key (f <$> l) = f <$> first_max (fun a => key (f a)) l.
Proof.
  induction l as [|x l IH]; [done|]. simpl in *. unfold fmap in IH. rewrite IH.
  destruct (first_max _ l); simpl; [|done]. by destruct (Qle_bool _ _).
Qed.

Section RecommenderFacts.
Variable now : Z.

Lemma getActionReason_nonempty bookmarks :
  bookmarks <> [] -> exists s, getActionReason now bookmarks = Normal s.
Proof. destruct bookmarks; [done|]. intros _. simpl. eauto. Qed.

Lemma recommendAction_first_max bookmarks :
  bookmarks <> [] ->
  exists r best,
    recommendAction now bookmarks = Normal r
    /\ head (Array_sort (fun a b => (score b - score a)%Q)
               (scoreBookmarks now bookmarks))
       = Some {| bookmark := best; score := scoreBookmark now best |}
    /\ first_max (scoreBookmark now) bookmarks = Some best
    /\ keep r = id best.
Proof.
  intros Hne. unfold recommendAction.
  pose proof (Array_sort_head score (scoreBookmarks now bookmarks)) as Hhead.
  unfold scoreBookmarks in Hhead at 2.
  change (List.map ?f ?l) with (f <$> l) in Hhead.
  rewrite first_max_fmap in Hhead.
  change (first_max _ bookmarks)
    with (first_max (scoreBookmark now) bookmarks) in Hhead.
  destruct bookmarks as [|b0 bs]; [done|].
  destruct (first_max_is_Some (scoreBookmark now) b0 bs) as [best Hbest].
  rewrite Hbest in Hhead.
  destruct (getActionReason_nonempty (b0 :: bs) Hne) as [s Hs].
  change (Array_sort (fun a b => (score b - score a)%Q))
    with (Array_sort (descending score)).
  destruct (Array_sort _ _) as [|top others] eqn:Hsort; [done|].
  injection Hhead as ->.
  rewrite Hs. simpl. eexists _, best. repeat split; done.
Qed.


Lemma existsb_Exists {A} (p : A -> bool) (P : A -> Prop) (l : list A) :
  (forall x, p x = true <-> P x) ->
  existsb p l = true <-> exists x, x ∈ l /\ P x.
Proof.
  intros Hp. rewrite existsb_exists. setoid_rewrite list_elem_of_In.
  by setoid_rewrite Hp.
Qed.

Lemma truthy_nonempty o : truthy o = true <-> nonempty o.
Proof.
  unfold nonempty. destruct o as [[|c s]|]; simpl.
  - split; [done|]. by intros (s & [= <-] & ?).
  - split; [|done]. intros _. by exists (String c s).
  - split; [done|]. by intros (s & ? & _).
Qed.

Lemma has_tags_spec b :
  has_tags b = true <-> exists ts, tags b = Some ts /\ (1 <= List.length ts)%nat.
Proof.
  unfold has_tags, count_of. rewrite Z.ltb_lt. destruct (tags b) as [ts|]; simpl.
  - split; [intros; exists ts; split; [done|lia]|].
    intros (ts' & [= <-] & ?). lia.
  - split; [lia|]. by intros (ts & ? & _).
Qed.

Lemma complete_spec b :
  truthy (title b) && truthy (description b) && has_tags b = true
  <-> has_complete_metadata b.
Proof.
  unfold has_complete_metadata.
  rewrite !andb_true_iff, !truthy_nonempty, has_tags_spec. tauto.
Qed.

Lemma descriptive_spec b :
  truthy (title b) && (20 <? String.length (default "" (title b)))%nat = true
  <-> has_descriptive_title b.
Proof.
  unfold has_descriptive_title. rewrite andb_true_iff, Nat.ltb_lt.
  destruct (title b) as [[|c s]|]; simpl.
  - split; [by intros [? _]|]. intros (t & [= <-] & Hlen). simpl in Hlen. lia.
  - split; [intros [_ ?]; by exists (String c s)|].
    intros (t & [= <-] & Hlen). done.
  - split; [by intros [? _]|]. by intros (t & ? & _).
Qed.

Lemma visited_spec b :
  bool_decide (is_Some (dateVisited b)) = true <-> was_visited b.
Proof. apply bool_decide_eq_true. Qed.

(** C7.  For a group with at least one member, the [action] that
    [recommendAction] returns follows the priority policy over the whole
    group: [merge_metadata] if some member has a non-empty title, a
    non-empty description and a tag; else [keep_most_descriptive] if some
    member has a title longer than 20 characters; else [keep_most_recent]
    if some member has a [dateVisited]; else [keep_first]. *)
Theorem recommendAction_action_policy (records : list Bookmark) :
  records <> [] ->
  exists r,
    recommendAction now records = Normal r
    /\ ((exists b, b ∈ records /\ has_complete_metadata b) ->
        action r = merge_metadata)
    /\ (~ (exists b, b ∈ records /\ has_complete_metadata b) ->
        (exists b, b ∈ records /\ has_descriptive_title b) ->
        action r = keep_most_descriptive)
    /\ (~ (exists b, b ∈ records /\ has_complete_metadata b) ->
        ~ (exists b, b ∈ records /\ has_descriptive_title b) ->
        (exists b, b ∈ records /\ was_visited b) ->
        action r = keep_most_recent)
    /\ (~ (exists b, b ∈ records /\ has_complete_metadata b) ->
        ~ (exists b, b ∈ records /\ has_descriptive_title b) ->
        ~ (exists b, b ∈ records /\ was_visited b) ->
        action r = keep_first).
Proof.
  intros Hne.
  destruct (recommendAction_first_max records Hne) as (r & best & Hr & _).
  exists r. split; [done|].
  assert (Ha : action r = determineAction records).
  { unfold recommendAction in Hr. destruct (Array_sort _ _); [done|].
    destruct (getActionReason now records); [|done]. by injection Hr as <-. }
  rewrite Ha. unfold determineAction.
  pose proof (existsb_Exists _ _ records complete_spec) as H1.
  pose proof (existsb_Exists _ _ records descriptive_spec) as H2.
  pose proof (existsb_Exists _ _ records visited_spec) as H3.
  match goal with
  | |- context [if existsb ?f records then merge_metadata else _] =>
      destruct (existsb f records)
  end.
  { destruct H1 as [H1 _]. specialize (H1 eq_refl).
    repeat split; intros; (done || tauto). }
  assert (N1 : ~ exists b, b ∈ records /\ has_complete_metadata b).
  { by intros ?%H1. }
  match goal with
  | |- context [if existsb ?f records then keep_most_descriptive else _] =>
      destruct (existsb f records)
  end.
  { destruct H2 as [H2 _]. specialize (H2 eq_refl).
    repeat split; intros; (done || tauto). }
  assert (N2 : ~ exists b, b ∈ records /\ has_descriptive_title b).
  { by intros ?%H2. }
  match goal with
  | |- context [if existsb ?f records then keep_most_recent else _] =>
      destruct (existsb f records)
  end.
  { destruct H3 as [H3 _]. specialize (H3 eq_refl).
    repeat split; intros; (done || tauto). }
  assert (N3 : ~ exists b, b ∈ records /\ was_visited b).
  { by intros ?%H3. }
  repeat split; intros; (done || tauto).
Qed.

(** What [getActionReason] returns: the reason for the first member. *)
Lemma getActionReason_first_member b bs :
  getActionReason now (b :: bs) = Normal (reason_for now b).
Proof.
  unfold getActionReason, reason_for, reason_phrases, has_tags. simpl.
  f_equal.
  replace (1 <=? count_of (tags b)) with (0 <? count_of (tags b))
    by (destruct (Z.ltb_spec 0 (count_of (tags b))),
                 (Z.leb_spec 1 (count_of (tags b))); lia).
  destruct (truthy (title b)) eqn:Et.
  2:{ assert (Hl : (20 <? String.length (default "" (title b)))%nat = false).
      { by destruct (title b) as [[|]|]. }
      rewrite Hl. simpl.
      destruct (truthy (description b)), (0 <? count_of (tags b)),
        (dateVisited b) as [t|], (category b); simpl;
        try destruct (Qle_bool 30 (daysSince now t)); reflexivity. }
  simpl.
  destruct (20 <? String.length (default "" (title b)))%nat,
    (truthy (description b)), (0 <? count_of (tags b)),
    (dateVisited b) as [t|], (category b); simpl;
    try destruct (Qle_bool 30 (daysSince now t)); reflexivity.
Qed.
End RecommenderFacts.

Lemma test_group_keep :
  exists r, recommendAction sample_now test_group = Normal r /\ keep r = "2".
Proof. eexists. split; [vm_compute; reflexivity|reflexivity]. Qed.





Lemma recommendAction_action_policy_witness :
  test_group <> []
  /\ exists r, recommendAction sample_now test_group = Normal r
               /\ action r = merge_metadata.
Proof.
  assert (Hne : test_group <> []) by discriminate.
  split; [exact Hne|].
  destruct (recommendAction_action_policy sample_now test_group Hne)
    as (r & Hr & Hmerge & _).
  exists r. split; [exact Hr|]. apply Hmerge.
  exists test_descriptive. split; [by right; left|].
  split; [eexists; split; [reflexivity|discriminate]|].
  split; [eexists; split; [reflexivity|discriminate]|].
  eexists. split; [reflexivity|]. simpl. lia.
Defined.

(** C2, at the group of the [recommendAction] test.  The member of the top
    score is ["2"], for which the phrases on the title, the description, the
    tags and the visit apply; the reason returned is the one for the first
    member of the group, ["1"], for which no phrase applies. *)
Theorem getActionReason_reads_first_member :
  exists r,
    recommendAction sample_now test_group = Normal r
    /\ keep r = id test_descriptive
    /\ reason r = "Highest overall quality"
    /\ reason r = reason_for sample_now test_short
    /\ reason_for sample_now test_descriptive
       = "Most descriptive title, Has description, Most tagged, Recently visited".
Proof.
  eexists. split; [vm_compute; reflexivity|]. repeat split; vm_compute; reflexivity.
Qed.

(** ** Quality Scorer *)

(** One layer of the scorer whose condition is the same on both sides. *)
Ltac peel :=
  match goal with
  | |- ((if ?c then _ else ?s) <= (if ?c then _ else ?s'))%Q =>
      cut (s <= s')%Q;
      [generalize s; generalize s'; intros; destruct c; lra|]
  | |- (match ?o with Some _ => _ | None => ?s end
        <= match ?o with Some _ => _ | None => ?s' end)%Q =>
      cut (s <= s')%Q;
      [generalize s; generalize s'; intros; destruct o; lra|]
  | |- (?s + ?x <= ?s' + ?x)%Q =>
      cut (s <= s')%Q; [generalize s; generalize s'; intros; lra|]
  end.

Section ScorerFacts.
Variable now : Z.

Lemma Math_max_le_compat a b c : (b <= c)%Q -> (Math_max a b <= Math_max a c)%Q.
Proof.
  intros Hbc. unfold Math_max.
  destruct (Qle_bool a b) eqn:E1, (Qle_bool a c) eqn:E2; try lra.
  - apply Qle_bool_iff in E1. apply not_true_iff_false in E2.
    rewrite Qle_bool_iff in E2. lra.
  - apply Qle_bool_iff in E2. lra.
Qed.

Lemma Math_max_lower a b : (a <= Math_max a b)%Q.
Proof.
  unfold Math_max. destruct (Qle_bool a b) eqn:E; [|lra].
  by apply Qle_bool_iff in E.
Qed.

Lemma Math_min_lower a b c : (c <= a)%Q -> (c <= b)%Q -> (c <= Math_min a b)%Q.
Proof. intros. unfold Math_min. by destruct (Qle_bool a b). Qed.

Lemma Math_max_clamp x :
  (Math_max 0 (x - 50) == Math_max 0 (Math_max 0 x - 50))%Q.
Proof.
  unfold Math_max.
  destruct (Qle_bool 0 x) eqn:E1; [lra|].
  apply not_true_iff_false in E1. rewrite Qle_bool_iff in E1.
  destruct (Qle_bool 0 (x - 50)) eqn:E2.
  { apply Qle_bool_iff in E2. lra. }
  destruct (Qle_bool 0 (0 - 50)) eqn:E3; [|lra].
  apply Qle_bool_iff in E3. lra.
Qed.

Lemma daysSince_antitone t0 t : t0 <= t -> (daysSince now t <= daysSince now t0)%Q.
Proof.
  intros Ht. unfold daysSince. apply Qmult_le_compat_r.
  - unfold Qle. simpl. lia.
  - apply Qinv_le_0_compat. done.
Qed.

Lemma score_add_tag b t :
  (scoreBookmark now b <= scoreBookmark now (add_tag b t))%Q.
Proof.
  unfold scoreBookmark. apply Math_max_le_compat.
  cbn [add_tag with_tags id url title description tags category meta dateAdded
       dateModified dateVisited visitCount isBroken].
  repeat peel.
  assert (Hc : count_of (Some (default [] (tags b) ++ [t])%list)
               = count_of (tags b) + 1).
  { unfold count_of. simpl. rewrite length_app. simpl. lia. }
  assert (H0 : 0 <= count_of (tags b)) by (unfold count_of; lia).
  unfold has_tags. cbn [add_tag with_tags tags]. rewrite Hc.
  match goal with |- ((if _ then ?s + _ else _) <= _)%Q => generalize s end.
  intros s.
  replace (0 <? count_of (tags b) + 1) with true by (symmetry; apply Z.ltb_lt; lia).
  rewrite inject_Z_plus. change (inject_Z 1) with 1%Q.
  assert (H0' : (0 <= inject_Z (count_of (tags b)))%Q)
    by (unfold Qle, inject_Z, Qnum, Qden; lia).
  destruct (0 <? count_of (tags b)); lra.
Qed.

Lemma score_with_description b d :
  nonblank (description b) = false ->
  (scoreBookmark now b <= scoreBookmark now (with_description b (Some d)))%Q.
Proof.
  intros Hd. unfold scoreBookmark, has_tags. apply Math_max_le_compat.
  cbn [with_description id url title description tags category meta dateAdded
       dateModified dateVisited visitCount isBroken has_tags].
  repeat peel. rewrite Hd.
  match goal with |- (?s <= _)%Q => generalize s end. intros s.
  assert (H0 : (0 <= Math_min (length_of (Some d) / 20) 4)%Q).
  { apply Math_min_lower; [|lra]. unfold length_of.
    apply Qle_shift_div_l; [lra|]. unfold Qle, inject_Z, Qnum, Qden.
    simpl. lia. }
  destruct (nonblank (Some d)); lra.
Qed.

Lemma score_add_visit b :
  (scoreBookmark now b <= scoreBookmark now (add_visit b))%Q.
Proof.
  unfold scoreBookmark, has_tags. apply Math_max_le_compat.
  cbn [add_visit with_visitCount id url title description tags category meta
       dateAdded dateModified dateVisited visitCount isBroken has_tags].
  repeat peel.
  match goal with |- (?s + _ <= _)%Q => generalize s end. intros s.
  cbn [from_option Datatypes.id]. rewrite inject_Z_plus. change (inject_Z 1) with 1%Q.
  lra.
Qed.

Lemma score_with_dateVisited b t :
  (forall t0, dateVisited b = Some t0 -> t0 <= t) ->
  (scoreBookmark now b <= scoreBookmark now (with_dateVisited b (Some t)))%Q.
Proof.
  intros Ht. unfold scoreBookmark, has_tags. apply Math_max_le_compat.
  cbn [with_dateVisited id url title description tags category meta
       dateAdded dateModified dateVisited visitCount isBroken has_tags].
  repeat peel.
  match goal with |- (_ <= ?s + _)%Q => generalize s end. intros s.
  pose proof (Math_max_lower 0 (20 - daysSince now t / 30)) as H0.
  destruct (dateVisited b) as [t0|]; [|lra].
  pose proof (daysSince_antitone t0 t (Ht t0 eq_refl)) as Hd.
  assert ((Math_max 0 (20 - daysSince now t0 / 30)
           <= Math_max 0 (20 - daysSince now t / 30))%Q); [|lra].
  apply Math_max_le_compat.
  assert (daysSince now t / 30 <= daysSince now t0 / 30)%Q; [|lra].
  apply Qmult_le_compat_r; [done|]. by apply Qinv_le_0_compat.
Qed.

Lemma score_with_isBroken b :
  isBroken b = false ->
  (scoreBookmark now (with_isBroken b true)
   == Math_max 0 (scoreBookmark now b - 50))%Q.
Proof.
  intros Hb. unfold scoreBookmark, has_tags.
  cbn [with_isBroken id url title description tags category meta
       dateAdded dateModified dateVisited visitCount isBroken has_tags].
  rewrite Hb.
  match goal with |- (Math_max 0 (?s - 50) == _)%Q => generalize s end.
  intros s. apply Math_max_clamp.
Qed.

(** C6, amended.  Adding a tag, adding a non-empty description to a record
    whose description is blank or absent, counting one more visit, or
    setting [dateVisited] to a time not before the one it had never
    decreases the score; setting [isBroken] on a record that is not broken
    changes the score [s] to [max(0, s - 50)]: it never increases it, and
    decreases it by 50 when [s] is at least 50. *)
Theorem scorer_monotone (b : Bookmark) :
  (forall t, (scoreBookmark now b <= scoreBookmark now (add_tag b t))%Q)
  /\ (forall d, d <> "" -> nonblank (description b) = false ->
        (scoreBookmark now b
         <= scoreBookmark now (with_description b (Some d)))%Q)
  /\ (scoreBookmark now b <= scoreBookmark now (add_visit b))%Q
  /\ (forall t, (forall t0, dateVisited b = Some t0 -> t0 <= t) ->
        (scoreBookmark now b
         <= scoreBookmark now (with_dateVisited b (Some t)))%Q)
  /\ (isBroken b = false ->
        (scoreBookmark now (with_isBroken b true)
         == Math_max 0 (scoreBookmark now b - 50))%Q
        /\ (scoreBookmark now (with_isBroken b true) <= scoreBookmark now b)%Q
        /\ ((50 <= scoreBookmark now b)%Q ->
             (scoreBookmark now (with_isBroken b true)
              == scoreBookmark now b - 50)%Q)).
Proof.
  split; [apply score_add_tag|].
  split; [intros d _; apply score_with_description|].
  split; [apply score_add_visit|].
  split; [apply score_with_dateVisited|].
  intros Hb. pose proof (score_with_isBroken b Hb) as Heq.
  split; [done|]. rewrite Heq.
  assert (H0 : (0 <= scoreBookmark now b)%Q) by apply Math_max_lower.
  unfold Math_max.
  destruct (Qle_bool 0 (scoreBookmark now b - 50)) eqn:E.
  - apply Qle_bool_iff in E. split; [lra|]. intros _. lra.
  - apply not_true_iff_false in E. rewrite Qle_bool_iff in E.
    split; [lra|]. intros ?. lra.
Qed.
End ScorerFacts.

(** C6, counterexample.  The working record of the [scoreBookmarks] test
    scores 14.1; marked broken it scores 0, which is not 14.1 - 50. *)
Lemma score_isBroken_clamped :
  isBroken test_working = false
  /\ (scoreBookmark sample_now test_working == 141 # 10)%Q
  /\ (scoreBookmark sample_now (with_isBroken test_working true) == 0)%Q
  /\ ~ (scoreBookmark sample_now (with_isBroken test_working true)
        == scoreBookmark sample_now test_working - 50)%Q.
Proof.
  split; [reflexivity|]. split; [vm_compute; reflexivity|].
  split; [vm_compute; reflexivity|]. intros H. vm_compute in H. discriminate H.
Qed.

Example score_with_isBroken_example :
  (scoreBookmark sample_now (with_isBroken test_descriptive true)
   == Math_max 0 (scoreBookmark sample_now test_descriptive - 50))%Q.
Proof. by apply score_with_isBroken. Qed.

(** ** Resolution Recommender: the merge payload *)

Section DistinctFacts.
Context {A K : Type} `{EqDecision K} (key : A -> K).

Lemma filter_filter_comm (p q : A -> bool) (l : list A) :
  List.filter p (List.filter q l) = List.filter q (List.filter p l).
Proof.
  induction l as [|x l IH]; [done|]. simpl.
  destruct (p x) eqn:Ep, (q x) eqn:Eq; simpl; rewrite ?Ep, ?Eq, IH; done.
Qed.

Lemma filter_all (p : A -> bool) (l : list A) :
  (forall x, x ∈ l -> p x = true) -> List.filter p l = l.
Proof.
  induction l as [|x l IH]; intros Hp; [done|]. simpl.
  rewrite Hp by left. rewrite IH; [done|]. intros y Hy. apply Hp. by right.
Qed.

Lemma elem_of_distinct_on x l : x ∈ distinct_on key l -> x ∈ l.
Proof.
  induction l as [|y l IH]; [done|]. simpl.
  intros [->|Hx]%elem_of_cons; [left|right].
  apply IH. apply list_elem_of_In in Hx. apply filter_In in Hx as [Hx _].
  by apply list_elem_of_In.
Qed.

(** [distinct_on] commutes with a filter that reads the key only. *)
Lemma distinct_on_filter (p : K -> bool) (l : list A) :
  distinct_on key (List.filter (fun x => p (key x)) l)
  = List.filter (fun x => p (key x)) (distinct_on key l).
Proof.
  induction l as [|x l IH]; [done|]. simpl.
  destruct (p (key x)) eqn:Ep; simpl.
  - rewrite IH. f_equal. apply filter_filter_comm.
  - rewrite IH, filter_filter_comm. symmetry. apply filter_all.
    intros y Hy. apply list_elem_of_In, filter_In in Hy as [_ Hy].
    apply negb_true_iff, bool_decide_eq_false_2. intros Heq. congruence.
Qed.

Lemma distinct_on_keys_NoDup l : NoDup (key <$> distinct_on key l).
Proof.
  induction l as [|x l IH]; csimpl; [constructor|].
  apply NoDup_cons. split.
  - intros (y & Hy & Hin)%list_elem_of_fmap.
    apply list_elem_of_In, filter_In in Hin as [_ Hin].
    apply negb_true_iff, bool_decide_eq_false in Hin. congruence.
  - apply (sublist_NoDup _ (key <$> distinct_on key l)); [exact IH|].
    apply fmap_sublist, filter_sublist.
Qed.

Lemma distinct_on_keys x l :
  x ∈ l -> exists y, y ∈ distinct_on key l /\ key y = key x.
Proof.
  induction l as [|z l IH]; [by intros ?%elem_of_nil|].
  intros [->|Hx]%elem_of_cons; simpl.
  - exists z. split; [left|done].
  - destruct (IH Hx) as (y & Hy & Hk).
    destruct (decide (key y = key z)) as [Heq|Hne].
    + exists z. split; [left|congruence].
    + exists y. split; [|done]. right.
      apply list_elem_of_In, filter_In. split; [by apply list_elem_of_In|].
      by apply negb_true_iff, bool_decide_eq_false_2.
Qed.

Lemma Map_has_snoc (m : list (K * A)) k v k' :
  Map_has (m ++ [(k, v)]) k' = Map_has m k' || bool_decide (k = k').
Proof.
  unfold Map_has. rewrite existsb_app. simpl. by rewrite orb_false_r.
Qed.

Lemma foldl_set_unless_present (m : list (K * A)) (l : list A) :
  foldl (set_unless_present key) m l
  = (m ++ ((fun x => (key x, x))
           <$> distinct_on key
                 (List.filter (fun x => negb (Map_has m (key x))) l)))%list.
Proof.
  revert m. induction l as [|x l IH]; intros m; simpl.
  - by rewrite app_nil_r.
  - rewrite IH. unfold set_unless_present.
    destruct (Map_has m (key x)) eqn:Eh; simpl; [done|].
    unfold Map_set. rewrite Eh. rewrite <- app_assoc. f_equal. csimpl. f_equal.
    f_equal.
    pose proof (distinct_on_filter (fun k => negb (bool_decide (k = key x)))
                  (List.filter (fun y => negb (Map_has m (key y))) l)) as Hd.
    cbv beta in Hd. rewrite <- Hd. clear Hd.
    f_equal. rewrite filter_filter_comm.
    clear. induction l as [|y l IH]; [done|]. simpl.
    rewrite Map_has_snoc, IH.
    rewrite (bool_decide_ext (key x = key y) (key y = key x)) by done.
    destruct (Map_has m (key y)) eqn:Ey, (bool_decide (key y = key x)) eqn:Eyx;
      simpl; rewrite ?Ey; done.
Qed.
End DistinctFacts.

Lemma Set_new_distinct {A} `{EqDecision A} (l : list A) :
  Set_new l = distinct_on (fun x => x) l.
Proof.
  unfold Set_new.
  assert (H' : forall s : list A,
             foldl Set_add s l
             = (s ++ distinct_on (fun x => x)
                      (List.filter (fun x => negb (bool_decide (x ∈ s))) l))%list).
  { induction l as [|x l IH]; intros s; [simpl; by rewrite app_nil_r|].
    change (foldl Set_add s (x :: l)) with (foldl Set_add (Set_add s x) l).
    rewrite IH. destruct (bool_decide (x ∈ s)) eqn:Ex.
    { replace (Set_add s x) with s by (unfold Set_add; by rewrite Ex).
      simpl. by rewrite Ex. }
    replace (Set_add s x) with (s ++ [x])%list by (unfold Set_add; by rewrite Ex).
    simpl. rewrite Ex. simpl.
    rewrite <- app_assoc. f_equal. simpl. f_equal.
    pose proof (distinct_on_filter (fun x => x)
                  (fun y => negb (bool_decide (y = x)))
                  (List.filter (fun y => negb (bool_decide (y ∈ s))) l)) as Hd.
    cbv beta in Hd. rewrite <- Hd. clear Hd.
    f_equal. rewrite filter_filter_comm.
    clear. induction l as [|y l IH]; [done|]. simpl. rewrite IH.
    rewrite (bool_decide_ext (y ∈ (s ++ [x])%list) (y ∈ s \/ y = x))
      by (rewrite elem_of_app, list_elem_of_singleton; done).
    rewrite bool_decide_or.
    destruct (bool_decide (y ∈ s)) eqn:E1, (bool_decide (y = x)) eqn:E2;
      simpl; rewrite ?E1; done. }
  rewrite H'. simpl. f_equal. by apply filter_all.
Qed.

Section SortExt.
Context {A : Type}.

Lemma insert_by_ext (le le' : A -> A -> bool) x l :
  (forall a b, le a b = le' a b) -> insert_by le x l = insert_by le' x l.
Proof.
  intros Hle. induction l as [|y l IH]; [done|]. simpl. by rewrite Hle, IH.
Qed.

Lemma Array_sort_by_ext (le le' : A -> A -> bool) l :
  (forall a b, le a b = le' a b) -> Array_sort_by le l = Array_sort_by le' l.
Proof.
  intros Hle. induction l as [|x l IH]; [done|]. unfold Array_sort_by in *.
  simpl. rewrite IH. by apply insert_by_ext.
Qed.
End SortExt.

Section MergeFacts.
Implicit Types records : list Bookmark.

Lemma mergeTitles_first_max records :
  mergeTitles records
  = match first_max length_of (nonblank_titles records) with
    | Some t => default "" t
    | None => ""
    end.
Proof.
  unfold mergeTitles. fold (nonblank_titles records).
  rewrite <- (Array_sort_head length_of).
  change (Array_sort (fun a b => (length_of b - length_of a)%Q))
    with (Array_sort (descending length_of)).
  by destruct (Array_sort _ _).
Qed.

Lemma mergeDescriptions_distinct records :
  mergeDescriptions records
  = join " | "
      (default "" <$> distinct_on (fun d => d) (nonblank_descriptions records)).
Proof.
  unfold mergeDescriptions. fold (nonblank_descriptions records).
  rewrite Set_new_distinct.
  by destruct (nonblank_descriptions records).
Qed.

Lemma mergeTags_distinct records :
  mergeTags records = distinct_on tag_id (all_tags records).
Proof.
  unfold mergeTags, all_tags.
  assert (H' : forall m,
            foldl (fun allTags b =>
                     match tags b with
                     | Some ts =>
                         foldl (fun allTags tag =>
                                  if negb (Map_has allTags (tag_id tag))
                                  then Map_set allTags (tag_id tag) tag
                                  else allTags) allTags ts
                     | None => allTags
                     end) m records
            = foldl (set_unless_present tag_id) m
                (List.concat (List.map (fun b => default [] (tags b)) records))).
  { induction records as [|b bs IH]; intros m; [done|]. simpl.
    rewrite foldl_app, IH. by destruct (tags b). }
  rewrite H', foldl_set_unless_present. simpl. unfold Map_values.
  rewrite filter_all by done.
  induction (distinct_on tag_id _) as [|t ts IH]; [done|]. csimpl.
  by rewrite <- IH at 2.
Qed.

Lemma foldl_total_visits records acc :
  foldl (fun sum b => sum + default 0 (visitCount b)) acc records
  = acc + total_visits records.
Proof.
  revert acc. induction records as [|b bs IH]; intros acc; simpl; [lia|].
  rewrite IH. unfold total_visits. lia.
Qed.

Lemma foldl_merge_meta records (acc : gmap string MetaValue) k :
  foldl (fun merged b =>
           match meta b with
           | Some m => m ∪ merged
           | None => merged
           end) acc records !! k
  = match merged_meta_value k records with
    | Some v => Some v
    | None => acc !! k
    end.
Proof.
  revert acc. unfold merged_meta_value.
  induction records as [|b bs IH]; intros acc; [done|]. simpl.
  rewrite IH. destruct (meta b) as [m|]; simpl.
  - destruct (m !! k) as [v|] eqn:Ek; simpl.
    + rewrite last_cons. destruct (last _); [done|].
      by rewrite lookup_union, Ek, union_Some_l.
    + destruct (last _); [done|].
      by rewrite lookup_union, Ek, (left_id_L None _).
  - done.
Qed.

Lemma visits_sorted_head records :
  head (Array_sort (fun a b => inject_Z (b - a)) (omap dateVisited records))
  = first_max inject_Z (omap dateVisited records).
Proof.
  rewrite <- (Array_sort_head inject_Z). f_equal.
  apply Array_sort_by_ext. intros a b. unfold descending.
  apply eq_true_iff_eq. rewrite !Qle_bool_iff.
  unfold Qle, Qminus, Qplus, Qopp, inject_Z, Qnum, Qden. split; lia.
Qed.

Variable now : Z.

Lemma recommendAction_inv records r :
  recommendAction now records = Normal r ->
  action r = determineAction records
  /\ getActionReason now records = Normal (reason r)
  /\ merged_title (merge r) = mergeTitles records
  /\ merged_description (merge r) = mergeDescriptions records
  /\ merged_tags (merge r) = mergeTags records
  /\ merged_metadata (merge r) = mergeMetadata records.
Proof.
  unfold recommendAction. destruct (Array_sort _ _); [done|].
  destruct (getActionReason now records); [|done]. simpl.
  by intros [= <-].
Qed.

(** C8, amended.  For a group with at least one member, the merge payload
    has: as title the longest of the member titles that are not blank, the
    earliest of them on a tie, and [""] when there is none; as description
    the distinct member descriptions that are not blank, in first-seen
    order, joined with [" | "]; as tags the member tags, one for each tag id,
    in first-seen order; as metadata, under a key other than [totalVisits]
    and [lastVisited], the value of the last member whose [meta] has the
    key, under [totalVisits] the sum of the visit counts, and under
    [lastVisited] the latest [dateVisited] of the members when one of them
    has one, and what the merge of the [meta] maps holds otherwise. *)
Theorem recommendAction_merge_payload (records : list Bookmark) :
  records <> [] ->
  exists r,
    recommendAction now records = Normal r
    /\ (nonblank_titles records = [] -> merged_title (merge r) = "")
    /\ (nonblank_titles records <> [] ->
        exists i,
          nonblank_titles records !! i = Some (Some (merged_title (merge r)))
          /\ (forall j t, nonblank_titles records !! j = Some t ->
                (length_of t <= length_of (Some (merged_title (merge r))))%Q)
          /\ (forall j t, (j < i)%nat ->
                nonblank_titles records !! j = Some t ->
                (length_of t < length_of (Some (merged_title (merge r))))%Q))
    /\ merged_description (merge r)
       = join " | "
           (default "" <$> distinct_on (fun d => d)
                             (nonblank_descriptions records))
    /\ merged_tags (merge r) = distinct_on tag_id (all_tags records)
    /\ merged_metadata (merge r) !! "totalVisits"
       = Some (MNum (total_visits records))
    /\ (forall k, k <> "totalVisits" -> k <> "lastVisited" ->
          merged_metadata (merge r) !! k = merged_meta_value k records)
    /\ ((exists b, b ∈ records /\ was_visited b) ->
        exists v,
          merged_metadata (merge r) !! "lastVisited" = Some (MDate v)
          /\ (exists b, b ∈ records /\ dateVisited b = Some v)
          /\ (forall b t, b ∈ records -> dateVisited b = Some t -> t <= v))
    /\ (~ (exists b, b ∈ records /\ was_visited b) ->
        merged_metadata (merge r) !! "lastVisited"
        = merged_meta_value "lastVisited" records).
Proof.
  intros Hne.
  destruct (recommendAction_first_max now records Hne) as (r & _ & Hr & _).
  exists r. split; [done|].
  destruct (recommendAction_inv records r Hr) as (_ & _ & Ht & Hd & Htags & Hm).
  rewrite Ht, Hd, Htags, Hm. clear Ht Hd Htags Hm Hr r.
  rewrite mergeTitles_first_max, mergeDescriptions_distinct, mergeTags_distinct.
  split; [by intros ->|]. split.
  { intros Hnb. destruct (nonblank_titles records) as [|t0 ts] eqn:Et; [done|].
    destruct (first_max_is_Some length_of t0 ts) as [t Hfm]. rewrite Hfm.
    destruct (first_max_spec _ _ _ Hfm) as (i & Hi & Hmax & Hfirst).
    assert (Hsome : t = Some (default "" t)).
    { assert (Hin : t ∈ nonblank_titles records).
      { rewrite Et. apply list_elem_of_lookup. eauto. }
      unfold nonblank_titles in Hin.
      apply list_elem_of_In, filter_In in Hin as [_ Hin]. by destruct t. }
    rewrite <- Hsome. exists i. done. }
  split; [done|]. split; [done|].
  unfold mergeMetadata.
  set (merged := foldl _ ∅ records).
  assert (Hmerged : forall k, merged !! k = merged_meta_value k records).
  { intros k. unfold merged. rewrite foldl_merge_meta.
    by destruct (merged_meta_value k records). }
  rewrite foldl_total_visits, Z.add_0_l.
  pose proof (visits_sorted_head records) as Hhead.
  destruct (Array_sort _ (omap dateVisited records)) as [|v vs] eqn:Es.
  - assert (Hnone : omap dateVisited records = []).
    { destruct (omap dateVisited records) as [|v vs] eqn:Ev; [done|].
      destruct (first_max_is_Some inject_Z v vs) as [? Hx].
      by rewrite Hx in Hhead. }
    split; [by rewrite lookup_insert_eq|].
    split; [intros k Hk1 Hk2; by rewrite lookup_insert_ne|].
    split.
    + intros (b & Hb & [v Hv]).
      assert (Hin : v ∈ omap dateVisited records)
        by (apply list_elem_of_omap; eauto).
      rewrite Hnone in Hin. by apply elem_of_nil in Hin.
    + intros _. by rewrite lookup_insert_ne.
  - simpl in Hhead. symmetry in Hhead.
    destruct (first_max_spec _ _ _ Hhead) as (i & Hi & Hmax & _).
    split; [by rewrite lookup_insert_ne, lookup_insert_eq|].
    split; [intros k Hk1 Hk2; by rewrite !lookup_insert_ne|].
    split.
    + intros _. exists v. split; [by rewrite lookup_insert_eq|]. split.
      * apply list_elem_of_omap, list_elem_of_lookup. eauto.
      * intros b t Hb Hbt.
        assert (Hin : t ∈ omap dateVisited records)
          by (apply list_elem_of_omap; eauto).
        apply list_elem_of_lookup in Hin as [j Hj].
        specialize (Hmax _ _ Hj). unfold Qle, inject_Z, Qnum, Qden in Hmax. lia.
    + intros Hno. exfalso. apply Hno.
      assert (Hin : v ∈ omap dateVisited records)
        by (apply list_elem_of_lookup; eauto).
      apply list_elem_of_omap in Hin as (b & Hb & Hv). exists b.
      split; [done|]. by exists v.
Qed.
End MergeFacts.

(** C8, counterexample.  The first member has the longest non-empty title,
    five blanks, and a non-empty description, three blanks; the merged title
    is the shorter title of the second member and the merged description has
    the description of the second member only.  And in a group where no
    member has a [dateVisited], the metadata still has a [lastVisited], the
    one in the [meta] of a member. *)
Lemma merge_payload_differs :
  (exists r,
     recommendAction sample_now [blank_record; short_record] = Normal r
     /\ merged_title (merge r) = "abc"
     /\ merged_description (merge r) = "d"
     /\ nonempty (title blank_record)
     /\ nonempty (description blank_record)
     /\ (String.length "abc"
         < String.length (default "" (title blank_record)))%nat)
  /\ (exists r,
       recommendAction sample_now [resolved_record; short_record] = Normal r
       /\ dateVisited resolved_record = None
       /\ dateVisited short_record = None
       /\ merged_metadata (merge r) !! "lastVisited"
          = Some (MDate 1690000000000)).
Proof.
  split.
  - eexists. split; [vm_compute; reflexivity|].
    split; [reflexivity|]. split; [reflexivity|].
    split; [eexists; split; [reflexivity|discriminate]|].
    split; [eexists; split; [reflexivity|discriminate]|].
    simpl. lia.
  - eexists. split; [vm_compute; reflexivity|].
    repeat split; vm_compute; reflexivity.
Qed.

Lemma recommendAction_merge_payload_witness :
  test_group <> []
  /\ exists r,
       recommendAction sample_now test_group = Normal r
       /\ merged_metadata (merge r) !! "totalVisits" = Some (MNum 5)
       /\ merged_tags (merge r) = [mkTag None "tag1" ""].
Proof.
  assert (Hne : test_group <> []) by discriminate.
  split; [exact Hne|].
  destruct (recommendAction_merge_payload sample_now test_group Hne)
    as (r & Hr & _ & _ & _ & Htags & Htotal & _).
  exists r. split; [exact Hr|]. split; [exact Htotal|exact Htags].
Defined.

(** ** Automatic resolution *)

Section AsyncFacts.
Variable URL_new : string -> completion URL.
Variable URLSearchParams_new : string -> list (string * string).
Variable now : Z.

Local Abbreviation update := (updateBookmark URL_new now).
Local Abbreviation resolve := (resolve_group URL_new now).

Implicit Types (σ : gmap string Bookmark) (i : string) (u : Updates).

Lemma flags_insert_ne σ i j b : j <> i -> flags (<[i := b]> σ) j = flags σ j.
Proof. intros Hne. unfold flags. by rewrite lookup_insert_ne. Qed.

Lemma flags_insert σ i b :
  flags (<[i := b]> σ) i = Some (isDuplicate b, duplicateOf b).
Proof. unfold flags. by rewrite lookup_insert_eq. Qed.

(** What one [update] does to the flags. *)
Lemma updateBookmark_flags i u σ :
  (forall j, j <> i ->
     flags (update i u σ).2 j = flags σ j)
  /\ match (update i u σ).1 with
     | Normal _ =>
         exists e, σ !! i = Some e
           /\ flags (update i u σ).2 i
              = Some (default (isDuplicate e) (u_isDuplicate u),
                      default (duplicateOf e) (u_duplicateOf u))
     | Throw _ => (update i u σ).2 = σ
     end.
Proof.
  unfold updateBookmark, getBookmark, mbind, Async_bind. simpl.
  destruct (σ !! i) as [e|] eqn:Hi; simpl; [|done].
  destruct (validateBookmark URL_new (spread e u i now)); simpl; [|done].
  split.
  - intros j Hj. by apply flags_insert_ne.
  - exists e. split; [done|]. by rewrite flags_insert.
Qed.

Lemma updateBookmark_keeps_flags i u σ :
  u_isDuplicate u = None -> u_duplicateOf u = None ->
  forall j, flags (update i u σ).2 j = flags σ j.
Proof.
  intros H1 H2 j. destruct (updateBookmark_flags i u σ) as [Hne Hi].
  destruct (decide (j = i)) as [->|Hj]; [|by apply Hne].
  destruct (update i u σ).1.
  - destruct Hi as (e & He & ->). rewrite H1, H2. simpl.
    unfold flags. by rewrite He.
  - by rewrite Hi.
Qed.

Lemma for_of_cons {A S} (x : A) (l : list A) (body : S -> A -> Async S) s σ :
  for_of (x :: l) body s σ
  = match body s x σ with
    | (Normal s', σ') => for_of l body s' σ'
    | (Throw e, σ') => (Throw e, σ')
    end.
Proof. done. Qed.

(** The flags after the duplicates of [keeper] among [members] are marked:
    a record is left as it was or, when it is a member other than the
    keeper, marked as a duplicate of the keeper; and when no update throws,
    every such member is marked. *)
Lemma mark_duplicates_flags keeper members σ :
  (forall i,
     flags (mark_duplicates URL_new now keeper members σ).2 i = flags σ i
     \/ (i <> id keeper /\ (exists b, b ∈ members /\ id b = i)
         /\ flags (mark_duplicates URL_new now keeper members σ).2 i
            = Some (true, Some (id keeper))))
  /\ (forall x, (mark_duplicates URL_new now keeper members σ).1 = Normal x ->
      forall b, b ∈ members -> id b <> id keeper ->
        flags (mark_duplicates URL_new now keeper members σ).2 (id b)
        = Some (true, Some (id keeper))).
Proof.
  unfold mark_duplicates.
  match goal with |- context [for_of members ?f tt] => set (body := f) end.
  revert σ. induction members as [|b bs IH]; intros σ.
  { split; [by left|]. intros _ _ b Hb. by apply elem_of_nil in Hb. }
  rewrite for_of_cons.
  destruct (String.eqb_spec (id b) (id keeper)) as [Heq|Hne].
  - assert (Hstep : body tt b σ = (Normal tt, σ)).
    { unfold body. by rewrite (proj2 (String.eqb_eq _ _) Heq). }
    rewrite Hstep. destruct (IH σ) as [IH1 IH2]. split.
    + intros i. destruct (IH1 i) as [?|(? & (b' & ? & ?) & ?)]; [by left|].
      right. split; [done|]. split; [|done]. exists b'. split; [by right|done].
    + intros x Hx b' [->|Hb']%elem_of_cons Hid; [done|]. by eapply IH2.
  - assert (Hstep : body tt b σ
              = match update (id b) (duplicate_mark keeper) σ with
                | (Normal _, σ1) => (Normal tt, σ1)
                | (Throw e, σ1) => (Throw e, σ1)
                end).
    { unfold body. rewrite (proj2 (String.eqb_neq _ _) Hne).
      cbn [negb]. unfold mbind, Async_bind.
      by destruct (update _ _ σ) as [[?|?] ?]. }
    rewrite Hstep. clear Hstep.
    destruct (updateBookmark_flags (id b) (duplicate_mark keeper) σ)
      as [Hother Hself].
    destruct (update (id b) (duplicate_mark keeper) σ) as [[upd|e] σ1];
      simpl in Hother, Hself.
    + destruct Hself as (e & He & Hself).
      destruct (IH σ1) as [IH1 IH2]. split.
      * intros i. destruct (IH1 i) as [Hi|(? & (b' & ? & ?) & ?)].
        -- destruct (decide (i = id b)) as [->|Hib].
           ++ right. split; [done|]. split; [exists b; split; [by left|done]|].
              by rewrite Hi, Hself.
           ++ left. rewrite Hi. by apply Hother.
        -- right. split; [done|]. split; [|done].
           exists b'. split; [by right|done].
      * intros x Hx b' Hb' Hid.
        destruct (decide (id b' = id b)) as [Hbb|Hbb].
        -- rewrite Hbb. destruct (IH1 (id b)) as [Hi|(_ & _ & ?)]; [|done].
           by rewrite Hi, Hself.
        -- apply elem_of_cons in Hb' as [->|Hb']; [done|]. by eapply IH2.
    + subst σ1. split; [by left|]. done.
Qed.

Lemma resolve_group_flags options results g σ :
  (forall i,
     flags (resolve options results g σ).2 i = flags σ i
     \/ exists keeper,
          keeper_of g = Some keeper /\ i <> id keeper
          /\ (exists b, b ∈ dg_bookmarks g /\ id b = i)
          /\ flags (resolve options results g σ).2 i
             = Some (true, Some (id keeper)))
  /\ (forall x, (resolve options results g σ).1 = Normal x ->
      2 <= dg_count g ->
      forall keeper, keeper_of g = Some keeper ->
      forall b, b ∈ dg_bookmarks g -> id b <> id keeper ->
        flags (resolve options results g σ).2 (id b)
        = Some (true, Some (id keeper))).
Proof.
  unfold resolve_group, keeper_of.
  destruct (Z.ltb_spec (dg_count g) 2) as [Hlt|Hge].
  { split; [by left|]. intros. lia. }
  destruct (List.find _ (dg_bookmarks g)) as [keeper|] eqn:Hfind.
  2:{ split; [by left|]. intros x Hx Hc keeper Hk. discriminate Hk. }
  set (upd := if opt_mergeMetadata options && _ then _ else _).
  assert (Hupd : forall j, flags (upd σ).2 j = flags σ j).
  { intros j. unfold upd. destruct (_ && _); [|done].
    pose proof (updateBookmark_keeps_flags (id keeper)
                  (keeper_updates keeper (merge (dg_recommendedAction g))) σ
                  eq_refl eq_refl j) as Hk.
    unfold mbind, Async_bind.
    by destruct (update _ _ σ) as [[?|?] ?]. }
  match goal with
  | |- context [(upd ≫= ?k) σ] =>
      assert (Hout : (upd ≫= k) σ
                     = match upd σ with
                       | (Normal a, σa) => k a σa
                       | (Throw e, σa) => (Throw e, σa)
                       end) by done;
      rewrite Hout; clear Hout
  end.
  destruct (upd σ) as [[[]|e] σa]; simpl in Hupd.
  2:{ split; [by left|intros x Hx; simpl in Hx; discriminate]. }
  match goal with
  | |- context [(mark_duplicates URL_new now keeper (dg_bookmarks g) ≫= ?k) σa] =>
      assert (Hout : (mark_duplicates URL_new now keeper (dg_bookmarks g) ≫= k) σa
                     = match mark_duplicates URL_new now keeper (dg_bookmarks g) σa with
                       | (Normal a, σb) => k a σb
                       | (Throw e, σb) => (Throw e, σb)
                       end) by done;
      rewrite Hout; clear Hout
  end.
  destruct (mark_duplicates_flags keeper (dg_bookmarks g) σa) as [Hm1 Hm2].
  destruct (mark_duplicates URL_new now keeper (dg_bookmarks g) σa)
    as [[[]|e] σb]; simpl in *.
  - split.
    + intros i. destruct (Hm1 i) as [Hi|(? & ? & ?)].
      * left. by rewrite Hi.
      * right. by exists keeper.
    + intros x _ _ k [= <-] b Hb Hid. by eapply Hm2.
  - split; [|done].
    intros i. destruct (Hm1 i) as [Hi|(? & ? & ?)].
    * left. by rewrite Hi.
    * right. by exists keeper.
Qed.

(** The flags after the loop of [autoResolve] over the groups. *)
Lemma resolve_groups_flags options groups results σ :
  (forall i,
     flags (for_of groups (resolve options) results σ).2 i = flags σ i
     \/ exists g keeper,
          g ∈ groups /\ keeper_of g = Some keeper /\ i <> id keeper
          /\ (exists b, b ∈ dg_bookmarks g /\ id b = i)
          /\ flags (for_of groups (resolve options) results σ).2 i
             = Some (true, Some (id keeper)))
  /\ (forall x,
        (for_of groups (resolve options) results σ).1 = Normal x ->
        ids_disjoint groups ->
        (forall g, g ∈ groups -> 2 <= dg_count g) ->
        forall g keeper b,
          g ∈ groups -> keeper_of g = Some keeper -> b ∈ dg_bookmarks g ->
          (id b <> id keeper ->
           flags (for_of groups (resolve options) results σ).2 (id b)
           = Some (true, Some (id keeper)))
          /\ (id b = id keeper ->
              flags (for_of groups (resolve options) results σ).2 (id b)
              = flags σ (id b))).
Proof.
  revert results σ. induction groups as [|g gs IH]; intros results σ.
  { split; [by left|]. intros x _ _ _ g k b Hg. by apply elem_of_nil in Hg. }
  rewrite for_of_cons.
  destruct (resolve_group_flags options results g σ) as [C1 C2].
  destruct (resolve options results g σ) as [[r1|e] σ1]; simpl in C1, C2.
  2:{ split; [|done]. intros i. destruct (C1 i) as [?|(k & ? & ? & ? & ?)].
      - by left.
      - right. exists g, k. split; [by left|done]. }
  destruct (IH r1 σ1) as [I1 I2]. split.
  - intros i. destruct (I1 i) as [Hi|(g' & k & Hg' & ?)].
    + destruct (C1 i) as [Hc|(k & ? & ? & ? & Hc)].
      * left. by rewrite Hi.
      * right. exists g, k. split; [by left|]. by rewrite Hi.
    + right. exists g', k. split; [by right|done].
  - intros x Hx [Hd1 Hd2] Hcount g0 k b Hg0 Hk Hb.
    assert (Hsame : forall b0, b0 ∈ dg_bookmarks g ->
              flags (for_of gs (resolve options) r1 σ1).2 (id b0)
              = flags σ1 (id b0)).
    { intros b0 Hb0.
      destruct (I1 (id b0)) as [?|(g' & k' & Hg' & _ & _ & (b' & Hb' & Hid) & _)];
        [done|].
      exfalso. by eapply (Hd1 g' b0 b'). }
    apply elem_of_cons in Hg0 as [->|Hg0].
    + rewrite (Hsame b Hb). split.
      * intros Hid. eapply C2; eauto. apply Hcount. by left.
      * intros Hid. destruct (C1 (id b)) as [?|(k' & Hk' & Hne & _)]; [done|].
        congruence.
    + destruct (I2 x Hx Hd2 (fun g' Hg' => Hcount g' (list_elem_of_further _ _ _ Hg'))
                  g0 k b Hg0 Hk Hb) as [J1 J2].
      split; [done|]. intros Hid. rewrite (J2 Hid).
      destruct (C1 (id b)) as [?|(k' & _ & _ & (b' & Hb' & Hid') & _)]; [done|].
      exfalso. by eapply (Hd1 g0 b' b).
Qed.
End AsyncFacts.

Lemma Array_map_Normal {A B} (f : A -> completion B) (l : list A) :
  (forall x, x ∈ l -> exists y, f x = Normal y) ->
  exists l', Array_map f l = Normal l' /\ Forall2 (fun x y => f x = Normal y) l l'.
Proof.
  induction l as [|x l IH]; intros Hf; simpl.
  - exists []. split; [done|constructor].
  - destruct (Hf x) as [y Hy]; [by left|].
    destruct IH as (l' & Hl' & HF); [intros z Hz; apply Hf; by right|].
    exists (y :: l'). rewrite Hy, Hl'. split; [done|]. by constructor.
Qed.

Section FindAllFacts.
Variable URL_new : string -> completion URL.
Variable URLSearchParams_new : string -> list (string * string).
Variable now : Z.

Local Abbreviation key := (key_of URL_new URLSearchParams_new).

Implicit Types (σ : gmap string Bookmark).

Lemma getAllBookmarks_spec σ :
  exists all,
    getAllBookmarks σ = (Normal all, σ)
    /\ forall b, b ∈ all <-> exists i, σ !! i = Some b.
Proof.
  eexists. split; [done|]. intros b.
  assert (Hp : Array_sort by_dateModified_desc
                 (Array_sort_by (fun x y => String.leb x.1 y.1)
                    (map_to_list σ)).*2
               ≡ₚ (map_to_list σ).*2).
  { etransitivity; [apply Array_sort_by_Permutation|].
    apply fmap_Permutation, Array_sort_by_Permutation. }
  rewrite Hp, list_elem_of_fmap. split.
  - intros ([i b'] & -> & Hin). exists i. by apply elem_of_map_to_list.
  - intros [i Hi]. exists (i, b). split; [done|]. by apply elem_of_map_to_list.
Qed.

Lemma describe_group_Normal g dg :
  describe_group now g = Normal dg ->
  dg_url dg = normalizedUrl g
  /\ dg_bookmarks dg = bookmarks g
  /\ dg_count dg = Z.of_nat (List.length (bookmarks g))
  /\ recommendAction now (bookmarks g) = Normal (dg_recommendedAction dg).
Proof.
  unfold describe_group.
  destruct (recommendAction now (bookmarks g)) as [r|e]; [|done].
  simpl. by intros [= <-].
Qed.

Lemma keeper_of_found dg :
  dg_bookmarks dg <> [] ->
  recommendAction now (dg_bookmarks dg) = Normal (dg_recommendedAction dg) ->
  exists keeper,
    keeper_of dg = Some keeper /\ keeper ∈ dg_bookmarks dg
    /\ id keeper = keep (dg_recommendedAction dg).
Proof.
  intros Hne Hrec.
  destruct (recommendAction_first_max now _ Hne) as (r & best & Hr & _ & Hbest & Hk).
  rewrite Hrec in Hr. injection Hr as <-.
  destruct (first_max_spec _ _ _ Hbest) as (i & Hi & _).
  unfold keeper_of.
  destruct (List.find _ (dg_bookmarks dg)) as [keeper|] eqn:Hfind.
  - apply find_some in Hfind as [Hin Heq]. exists keeper.
    split; [done|]. split; [by apply list_elem_of_In|]. by apply String.eqb_eq.
  - exfalso. assert (Hin : In best (dg_bookmarks dg)).
    { apply list_elem_of_In, list_elem_of_lookup. eauto. }
    pose proof (find_none _ _ Hfind best Hin) as Hno. simpl in Hno.
    apply String.eqb_neq in Hno. by rewrite Hk in Hno.
Qed.

(** What [findAll] returns over a well-formed store. *)
Lemma findAll_spec σ :
  store_wf σ ->
  exists groups,
    findAll URL_new URLSearchParams_new now σ = (Normal groups, σ)
    /\ NoDup (dg_url <$> groups)
    /\ forall g, g ∈ groups ->
         2 <= dg_count g
         /\ (forall b, b ∈ dg_bookmarks g ->
               σ !! id b = Some b /\ key b = Some (dg_url g))
         /\ exists keeper,
              keeper_of g = Some keeper /\ keeper ∈ dg_bookmarks g
              /\ id keeper = keep (dg_recommendedAction g).
Proof.
  intros Hwf. destruct (getAllBookmarks_spec σ) as (all & Hall & Hin).
  destruct (groupDuplicates_groups URL_new URLSearchParams_new all)
    as (gs & Hgs & Hnd & Hgin).
  destruct (Array_map_Normal (describe_group now) gs) as (groups & Hmap & HF).
  { intros g [Hg Hlen]%Hgin. unfold describe_group.
    destruct (recommendAction_first_max now (bookmarks g)) as (r & _ & -> & _).
    { destruct (bookmarks g); [simpl in Hlen; lia|done]. }
    simpl. eauto. }
  exists groups. split.
  { unfold findAll, Async_try_catch, mbind, Async_bind, sync.
    by rewrite Hall, Hgs, Hmap. }
  assert (Hurls : dg_url <$> groups = normalizedUrl <$> gs).
  { clear -HF. induction HF as [|g dg gs groups Hd _ IH]; [done|]. csimpl.
    apply describe_group_Normal in Hd as (-> & _). by rewrite IH. }
  split; [by rewrite Hurls|].
  intros dg Hdg.
  destruct (proj1 (list_elem_of_lookup _ _) Hdg) as [n Hn].
  destruct (Forall2_lookup_r _ _ _ _ _ HF Hn) as (g & Hg & Hd).
  apply describe_group_Normal in Hd as (Hurl & Hbs & Hcount & Hrec).
  assert (Hg' : g ∈ gs) by (apply list_elem_of_lookup; eauto).
  pose proof (proj1 (Hgin g) Hg') as [_ Hlen].
  split; [rewrite Hcount; lia|]. split.
  - intros b Hb. rewrite Hbs in Hb.
    destruct (groupDuplicates_member URL_new URLSearchParams_new gs all g b
                Hgin Hg' Hb) as [Hball Hkey].
    apply Hin in Hball as [i Hi]. rewrite (Hwf _ _ Hi), Hurl. done.
  - apply keeper_of_found; [|by rewrite Hbs].
    rewrite Hbs. destruct (bookmarks g); [simpl in Hlen; lia|done].
Qed.

Lemma ids_disjoint_by_url σ (groups : list DuplicateGroup) :
  NoDup (dg_url <$> groups) ->
  (forall g b, g ∈ groups -> b ∈ dg_bookmarks g ->
     σ !! id b = Some b /\ key b = Some (dg_url g)) ->
  ids_disjoint groups.
Proof.
  induction groups as [|g gs IH]; csimpl; [done|].
  intros [Hg Hnd]%NoDup_cons Hmem. split.
  - intros g' b b' Hg' Hb Hb' Hid.
    destruct (Hmem g b) as [Hb1 Hk1]; [by left|done|].
    destruct (Hmem g' b') as [Hb2 Hk2]; [by right|done|].
    rewrite Hid, Hb2 in Hb1. injection Hb1 as ->.
    rewrite Hk1 in Hk2. injection Hk2 as Hurl.
    apply Hg. rewrite Hurl. apply list_elem_of_fmap. by exists g'.
  - apply IH; [done|]. intros g' b Hg'. apply Hmem. by right.
Qed.

End FindAllFacts.

Lemma sample_store_wf : store_wf sample_store.
Proof.
  intros i b. unfold sample_store.
  rewrite !lookup_insert. repeat case_decide; subst; try done.
  all: by intros [= <-].
Qed.

Example autoResolve_sample :
  (autoResolve Whatwg.URL_new Whatwg.URLSearchParams_new sample_now
     default_options sample_store).1
  = Normal [{| res_group := "dup_github_com_user_repo";
               res_kept := "1";
               res_removed := ["2"];
               res_action := keep_first |}]
  /\ flags (autoResolve Whatwg.URL_new Whatwg.URLSearchParams_new sample_now
              default_options sample_store).2 "2"
     = Some (true, Some "1")
  /\ flags (autoResolve Whatwg.URL_new Whatwg.URLSearchParams_new sample_now
              default_options sample_store).2 "1"
     = Some (false, None).
Proof. repeat split; vm_compute; reflexivity. Qed.


(** ** Stores and asynchronous computations *)

Lemma Async_bind_run {A B} (m : Async A) (k : A -> Async B) σ :
  (m ≫= k) σ
  = match m σ with
    | (Normal a, σ') => k a σ'
    | (Throw e, σ') => (Throw e, σ')
    end.
Proof. done. Qed.

(** A property of the store that every turn of a loop keeps holds after the
    loop, however it ends. *)
Lemma for_of_invariant {A S} (I : gmap string Bookmark -> Prop) (l : list A)
    (body : S -> A -> Async S) s σ :
  (forall s x σ, x ∈ l -> I σ -> I (body s x σ).2) ->
  I σ -> I (for_of l body s σ).2.
Proof.
  revert s σ. induction l as [|x l IH]; intros s σ Hbody Hσ; [done|].
  rewrite for_of_cons.
  pose proof (Hbody s x σ ltac:(by left) Hσ) as Hx.
  destruct (body s x σ) as [[s'|e] σ1]; simpl in Hx; [|done].
  apply IH; [|done]. intros s0 y σ0 Hy. apply Hbody. by right.
Qed.

(** A loop whose turns return normally over the stores that satisfy [I], and
    keep [I], returns normally. *)
Lemma for_of_Normal {A S} (I : gmap string Bookmark -> Prop) (l : list A)
    (body : S -> A -> Async S) s σ :
  (forall s x σ, x ∈ l -> I σ ->
     exists s', (body s x σ).1 = Normal s' /\ I (body s x σ).2) ->
  I σ ->
  exists s', (for_of l body s σ).1 = Normal s' /\ I (for_of l body s σ).2.
Proof.
  revert s σ. induction l as [|x l IH]; intros s σ Hbody Hσ.
  { exists s. done. }
  rewrite for_of_cons.
  destruct (Hbody s x σ ltac:(by left) Hσ) as (s' & Hs' & Hx).
  destruct (body s x σ) as [[s1|e] σ1]; simpl in *; [|done].
  apply IH; [|done]. intros s0 y σ0 Hy. apply Hbody. by right.
Qed.

Lemma same_origin_refl b : same_origin b b.
Proof. by repeat split. Qed.

Lemma same_origin_trans a b c :
  same_origin a b -> same_origin b c -> same_origin a c.
Proof.
  unfold same_origin. intros (? & ? & ? & ? & ? & ? & ?) (? & ? & ? & ? & ? & ? & ?).
  repeat split; congruence.
Qed.

Lemma same_records_refl σ : same_records σ σ.
Proof. intros i. destruct (σ !! i); [apply same_origin_refl|done]. Qed.

Lemma same_records_trans σ1 σ2 σ3 :
  same_records σ1 σ2 -> same_records σ2 σ3 -> same_records σ1 σ3.
Proof.
  intros H12 H23 i. specialize (H12 i). specialize (H23 i).
  destruct (σ1 !! i), (σ2 !! i), (σ3 !! i); try done.
  by eapply same_origin_trans.
Qed.

Lemma same_records_dom σ σ' i :
  same_records σ σ' -> σ' !! i = None <-> σ !! i = None.
Proof.
  intros H. specialize (H i). destruct (σ !! i), (σ' !! i); done.
Qed.

Section ServiceFacts.
Variable URL_new : string -> completion URL.
Variable now : Z.

Local Abbreviation update := (updateBookmark URL_new now).
Local Abbreviation valid := (validateBookmark URL_new).

Implicit Types (σ : gmap string Bookmark) (i : string) (u : Updates).

Lemma updateBookmark_run i u σ :
  update i u σ
  = match σ !! i with
    | None => (Throw (Error "Bookmark not found"), σ)
    | Some e =>
        if valid (spread e u i now)
        then (Normal (spread e u i now), <[i := spread e u i now]> σ)
        else (Throw (Error "Invalid bookmark"), σ)
    end.
Proof.
  unfold updateBookmark, getBookmark, mbind, Async_bind. simpl.
  destruct (σ !! i) as [e|]; [|done]. simpl.
  by destruct (valid (spread e u i now)).
Qed.

(** Validity is a matter of the title and of the URL. *)
Lemma validateBookmark_ext a b :
  title a = title b -> url a = url b -> valid a = valid b.
Proof. unfold validateBookmark. by intros -> ->. Qed.

Lemma validateBookmark_spread e u i :
  u_title u = None -> valid (spread e u i now) = valid e.
Proof. intros Hu. apply validateBookmark_ext; simpl; by rewrite ?Hu. Qed.

Lemma updateBookmark_same_records i u σ :
  store_wf σ -> same_records σ (update i u σ).2.
Proof.
  intros Hwf. rewrite updateBookmark_run.
  destruct (σ !! i) as [e|] eqn:Hi; [|apply same_records_refl].
  destruct (valid _); [|apply same_records_refl]. simpl.
  intros j. destruct (decide (j = i)) as [->|Hj].
  - rewrite Hi, lookup_insert_eq. repeat split. simpl. by apply Hwf.
  - rewrite lookup_insert_ne by done.
    destruct (σ !! j); [apply same_origin_refl|done].
Qed.

Lemma updateBookmark_store_wf i u σ :
  store_wf σ -> store_wf (update i u σ).2.
Proof.
  intros Hwf. rewrite updateBookmark_run.
  destruct (σ !! i) as [e|] eqn:Hi; [|done].
  destruct (valid _); [|done]. simpl.
  intros j b. destruct (decide (j = i)) as [->|Hj].
  - rewrite lookup_insert_eq. by intros [= <-].
  - rewrite lookup_insert_ne by done. apply Hwf.
Qed.

Lemma updateBookmark_store_valid i u σ :
  store_valid URL_new σ -> store_valid URL_new (update i u σ).2.
Proof.
  intros Hv. rewrite updateBookmark_run.
  destruct (σ !! i) as [e|] eqn:Hi; [|done].
  destruct (valid _) eqn:E; [|done]. simpl.
  intros j b. destruct (decide (j = i)) as [->|Hj].
  - rewrite lookup_insert_eq. by intros [= <-].
  - rewrite lookup_insert_ne by done. apply Hv.
Qed.
End ServiceFacts.

(** ** Bookmark service: update, validation and listing *)

Section SortedBy.
Context {A : Type} (le : A -> A -> bool) (R : A -> A -> Prop) (P : A -> Prop).
Hypothesis le_true : forall a b, P a -> P b -> le a b = true -> R a b.
Hypothesis le_false : forall a b, P a -> P b -> le a b = false -> R b a.
Hypothesis R_trans : forall a b c, P a -> P b -> P c -> R a b -> R b c -> R a c.

Lemma insert_by_sorted x l :
  P x -> Forall P l -> StronglySorted R l -> StronglySorted R (insert_by le x l).
Proof.
  intros Hx HP Hs. induction Hs as [|y l Hl IH Hy]; simpl.
  - repeat constructor.
  - apply Forall_cons in HP as [Py Pl].
    destruct (le x y) eqn:E.
    + constructor; [by constructor|]. constructor; [by apply le_true|].
      apply Forall_forall. intros z Hz.
      apply (R_trans x y z); try done.
      * eapply Forall_forall in Pl; [exact Pl|done].
      * by apply le_true.
      * eapply Forall_forall in Hy; [exact Hy|done].
    + constructor; [by apply IH|].
      rewrite insert_by_Permutation. constructor; [by apply le_false|done].
Qed.

Lemma Array_sort_by_sorted l :
  Forall P l -> StronglySorted R (Array_sort_by le l).
Proof.
  induction l as [|x l IH]; intros HP; [constructor|].
  apply Forall_cons in HP as [Px Pl].
  unfold Array_sort_by. simpl. apply insert_by_sorted; [done| |by apply IH].
  change (foldr (insert_by le) [] l) with (Array_sort_by le l).
  by rewrite Array_sort_by_Permutation.
Qed.
End SortedBy.

Section ServiceContract.
Variable URL_new : string -> completion URL.
Variable now : Z.

Local Abbreviation update := (updateBookmark URL_new now).
Local Abbreviation valid := (validateBookmark URL_new).

Implicit Types (σ : gmap string Bookmark) (i : string) (u : Updates).


Lemma nonblank_spec o :
  nonblank o = true <-> exists t, o = Some t /\ trim t <> "".
Proof.
  unfold nonblank, truthy. destruct o as [t|].
  2:{ split; [done|]. by intros (t & ? & _). }
  rewrite andb_true_iff, Nat.ltb_lt. split.
  - intros [_ Hlen]. exists t. split; [done|].
    intros E. rewrite E in Hlen. simpl in Hlen. lia.
  - intros (t' & [= <-] & Ht). split.
    + destruct t; [done|done].
    + destruct (trim t); [done|simpl; lia].
Qed.

(** X20.  [validateBookmark] accepts exactly the records that have a title that
    is not blank and has 255 characters at most, and a non-empty url of
    2048 characters at most that parses as a URL with the protocol http:
    or https:. *)
Theorem validateBookmark_accepts b :
  valid b = true <->
  exists t s urlObj,
    title b = Some t /\ trim t <> "" /\ (String.length t <= 255)%nat
    /\ url b = Some s /\ s <> "" /\ (String.length s <= 2048)%nat
    /\ URL_new s = Normal urlObj
    /\ (protocol urlObj = "http:" \/ protocol urlObj = "https:").
Proof.
  assert (Hurl : forall s, validateUrl URL_new s = true <->
            exists urlObj, URL_new s = Normal urlObj
              /\ (String.length s <= 2048)%nat
              /\ (protocol urlObj = "http:" \/ protocol urlObj = "https:")).
  { intros s. unfold validateUrl.
    destruct (URL_new s) as [urlObj|e].
    2:{ split; [done|]. by intros (? & ? & _). }
    assert (Hp : includes ["http:"; "https:"] (protocol urlObj) = true
                 <-> protocol urlObj = "http:" \/ protocol urlObj = "https:").
    { unfold includes. simpl. rewrite !orb_true_iff, !String.eqb_eq.
      intuition discriminate. }
    destruct (includes ["http:"; "https:"] (protocol urlObj)) eqn:E;
      cbn [negb].
    - destruct (Nat.ltb_spec 2048 (String.length s)) as [Hlen|Hlen].
      + split; [done|]. intros (? & [= <-] & ? & _). lia.
      + assert (Hd : includes ["javascript:"; "data:"; "file:"; "ftp:"]
                       (protocol urlObj) = false).
        { destruct (proj1 Hp eq_refl) as [-> | ->]; reflexivity. }
        rewrite Hd. split; [|done]. intros _. exists urlObj.
        split; [done|]. split; [done|]. by apply Hp.
    - split; [done|]. intros (? & [= <-] & _ & H).
      apply Hp in H. discriminate. }
  unfold validateBookmark.
  destruct (nonblank (title b)) eqn:Hnb; simpl.
  2:{ split.
      - intros H. exfalso.
        destruct (truthy (url b)); simpl in H;
          [destruct (validateUrl _ _); simpl in H|];
          destruct (truthy (title b) && _); simpl in H; discriminate.
      - intros (t & s & urlObj & Ht & Htrim & _).
        assert (nonblank (title b) = true) by (apply nonblank_spec; eauto).
        congruence. }
  apply nonblank_spec in Hnb as (t & Ht & Htrim).
  assert (Htruthy : truthy (Some t) = true).
  { destruct t; [done|done]. }
  rewrite Ht, Htruthy. cbn [negb andb default from_option Datatypes.id].
  destruct (url b) as [[|c s]|] eqn:Hs.
  - split.
    + destruct (255 <? String.length t)%nat; intros H; cbn in H; discriminate.
    + by intros (? & s' & ? & _ & _ & _ & [= <-] & Hne & _).
  - change (truthy (Some (String c s))) with true.
    cbn [negb default from_option Datatypes.id].
    destruct (validateUrl URL_new (String c s)) eqn:Hv; cbn [negb].
    + apply Hurl in Hv as (urlObj & Hparse & Hlen & Hproto).
      destruct (Nat.ltb_spec 255 (String.length t)) as [Hl|Hl].
      * split; [intros H; cbn in H; discriminate|].
        intros (t' & ? & ? & [= <-] & _ & ? & _). lia.
      * split; [|done]. intros _. exists t, (String c s), urlObj.
        repeat split; done.
    + split.
      * destruct (255 <? String.length t)%nat; intros H; cbn in H;
          discriminate.
      * intros (? & s' & urlObj & _ & _ & _ & [= <-] & _ & Hlen & Hparse & Hproto).
        assert (validateUrl URL_new (String c s) = true)
          by (apply Hurl; eauto).
        congruence.
  - split.
    + destruct (255 <? String.length t)%nat; intros H; cbn in H; discriminate.
    + by intros (? & ? & ? & _ & _ & _ & ? & _).
Qed.

(** X21.  Over a store whose records all have a modification time, as every
    record that [saveBookmark] wrote has, [getAllBookmarks] returns the
    records of the store, each once, the most recently modified first; the
    store is not changed. *)
Theorem getAllBookmarks_most_recent_first σ :
  (forall i b, σ !! i = Some b -> is_Some (dateModified b)) ->
  exists all,
    getAllBookmarks σ = (Normal all, σ)
    /\ all ≡ₚ (map_to_list σ).*2
    /\ StronglySorted
         (fun a b => default 0 (dateModified b) <= default 0 (dateModified a))
         all.
Proof.
  intros Hmod. eexists. split; [done|].
  assert (Hp : (Array_sort_by (fun x y => String.leb x.1 y.1)
                  (map_to_list σ)).*2 ≡ₚ (map_to_list σ).*2).
  { apply fmap_Permutation, Array_sort_by_Permutation. }
  split.
  { etransitivity; [apply Array_sort_by_Permutation|exact Hp]. }
  unfold Array_sort.
  apply (Array_sort_by_sorted _ _ (fun b => is_Some (dateModified b))).
  - intros a b [ta Ha] [tb Hb]. unfold by_dateModified_desc.
    rewrite Ha, Hb. simpl.
    destruct (Z.ltb_spec tb ta); [intros _; lia|].
    destruct (Z.ltb_spec ta tb); [done|]. intros _. lia.
  - intros a b [ta Ha] [tb Hb]. unfold by_dateModified_desc.
    rewrite Ha, Hb. simpl.
    destruct (Z.ltb_spec tb ta); [done|].
    destruct (Z.ltb_spec ta tb); [intros _; lia|done].
  - intros a b c _ _ _. lia.
  - apply Forall_forall. intros b Hb. rewrite Hp in Hb.
    apply list_elem_of_fmap in Hb as ([i b'] & -> & Hin).
    apply elem_of_map_to_list in Hin. by eapply Hmod.
Qed.
End ServiceContract.

(** ** Finding all duplicates *)

Lemma NoDup_two {A} (l : list A) x y :
  NoDup l -> x ∈ l -> y ∈ l -> x <> y -> (2 <= List.length l)%nat.
Proof.
  intros Hnd Hx Hy Hxy. destruct l as [|a [|b l]]; simpl; try lia.
  - by apply elem_of_nil in Hx.
  - apply list_elem_of_singleton in Hx, Hy. congruence.
Qed.

Lemma two_elements {A} `{EqDecision A} (l : list A) x :
  NoDup l -> (2 <= List.length l)%nat -> exists y, y ∈ l /\ y <> x.
Proof.
  intros Hnd Hlen. destruct l as [|a [|b l]]; simpl in Hlen; try lia.
  apply NoDup_cons in Hnd as [Hab _].
  destruct (decide (a = x)) as [->|Ha].
  - exists b. split; [by right; left|]. intros ->. apply Hab. by left.
  - exists a. split; [by left|done].
Qed.

Lemma NoDup_filter_list {A} (p : A -> bool) (l : list A) :
  NoDup l -> NoDup (List.filter p l).
Proof.
  intros Hnd. eapply sublist_NoDup; [exact Hnd|]. apply filter_sublist.
Qed.

Lemma store_values_NoDup (σ : gmap string Bookmark) :
  store_wf σ -> NoDup (map_to_list σ).*2.
Proof.
  intros Hwf. apply NoDup_fmap_2_strong; [|apply NoDup_map_to_list].
  intros [i a] [j b] Ha%elem_of_map_to_list Hb%elem_of_map_to_list. simpl.
  intros <-. apply Hwf in Ha, Hb. congruence.
Qed.

Section FindAllGroups.
Variable URL_new : string -> completion URL.
Variable URLSearchParams_new : string -> list (string * string).
Variable now : Z.

Local Abbreviation key := (key_of URL_new URLSearchParams_new).
Local Abbreviation shared := (sharing URL_new URLSearchParams_new).
Local Abbreviation entry := (group_for URL_new URLSearchParams_new).
Local Abbreviation find_all := (findAll URL_new URLSearchParams_new now).

Implicit Types (σ : gmap string Bookmark).

Lemma describe_group_fields g dg :
  describe_group now g = Normal dg ->
  dg_id dg = group_id g
  /\ dg_url dg = normalizedUrl g
  /\ dg_bookmarks dg = bookmarks g
  /\ dg_count dg = Z.of_nat (List.length (bookmarks g))
  /\ dg_severity dg = calculateSeverity (Z.of_nat (List.length (bookmarks g)))
  /\ recommendAction now (bookmarks g) = Normal (dg_recommendedAction dg).
Proof.
  unfold describe_group.
  destruct (recommendAction now (bookmarks g)) as [r|e]; [|done].
  simpl. by intros [= <-].
Qed.

Lemma group_for_id k seen g :
  entry k seen = Some g -> group_id g = "dup_" ++ replace_non_alnum k.
Proof.
  unfold group_for. destruct (shared k seen); [done|]. by intros [= <-].
Qed.

(** How [findAll] runs: it reads all the records, groups them and describes
    each group; the [catch] is not reached. *)
Lemma findAll_run σ :
  exists all gs groups,
    getAllBookmarks σ = (Normal all, σ)
    /\ all ≡ₚ (map_to_list σ).*2
    /\ NoDup (normalizedUrl <$> gs)
    /\ (forall g, g ∈ gs <->
          entry (normalizedUrl g) all = Some g
          /\ (2 <= List.length (bookmarks g))%nat)
    /\ find_all σ = (Normal groups, σ)
    /\ Forall2 (fun g dg => describe_group now g = Normal dg) gs groups.
Proof.
  destruct (groupDuplicates_groups URL_new URLSearchParams_new
              (Array_sort by_dateModified_desc
                 (Array_sort_by (fun x y => String.leb x.1 y.1)
                    (map_to_list σ)).*2))
    as (gs & Hgs & Hnd & Hgin).
  destruct (Array_map_Normal (describe_group now) gs) as (groups & Hmap & HF).
  { intros g [Hg Hlen]%Hgin. unfold describe_group.
    destruct (recommendAction_first_max now (bookmarks g)) as (r & _ & -> & _).
    { destruct (bookmarks g); [simpl in Hlen; lia|done]. }
    simpl. eauto. }
  set (all := Array_sort by_dateModified_desc _) in *.
  assert (Hall : getAllBookmarks σ = (Normal all, σ)) by done.
  exists all, gs, groups. split; [done|]. split.
  { etransitivity; [apply Array_sort_by_Permutation|].
    apply fmap_Permutation, Array_sort_by_Permutation. }
  split; [done|]. split; [done|]. split; [|done].
  unfold findAll, Async_try_catch, mbind, Async_bind, sync.
  by rewrite Hall, Hgs, Hmap.
Qed.

Lemma calculateSeverity_medium n : calculateSeverity n = medium <-> n < 3.
Proof.
  unfold calculateSeverity.
  destruct (Z.leb_spec 5 n); [split; [done|lia]|].
  destruct (Z.leb_spec 3 n); [split; [done|lia]|]. split; [lia|done].
Qed.

Lemma calculateSeverity_high n : calculateSeverity n = high <-> 3 <= n < 5.
Proof.
  unfold calculateSeverity.
  destruct (Z.leb_spec 5 n); [split; [done|lia]|].
  destruct (Z.leb_spec 3 n); split; (done || lia).
Qed.

Lemma calculateSeverity_critical n : calculateSeverity n = critical <-> 5 <= n.
Proof.
  unfold calculateSeverity.
  destruct (Z.leb_spec 5 n); [done|].
  destruct (Z.leb_spec 3 n); split; (done || lia).
Qed.

(** X1.  [findAll] never throws and does not write to the store.  The groups it
    returns have distinct normalized URLs; each has the id ["dup_"]
    followed by its URL with every character that is no letter or digit
    replaced by an underscore; its [count] is the number of its members,
    at least 2; its severity is medium for 2 members, high for 3 or 4 and
    critical from 5 on; its members are stored records whose url has the
    normalized form of the group; and the id to keep of its recommended
    action, the one [recommendAction] gives for the members, is the id of
    a member. *)
Theorem findAll_describes_groups σ :
  exists groups,
    find_all σ = (Normal groups, σ)
    /\ NoDup (dg_url <$> groups)
    /\ forall g, g ∈ groups ->
         dg_id g = "dup_" ++ replace_non_alnum (dg_url g)
         /\ dg_count g = Z.of_nat (List.length (dg_bookmarks g))
         /\ 2 <= dg_count g
         /\ (dg_severity g = medium <-> dg_count g = 2)
         /\ (dg_severity g = high <-> 3 <= dg_count g <= 4)
         /\ (dg_severity g = critical <-> 5 <= dg_count g)
         /\ (forall b, b ∈ dg_bookmarks g ->
               (exists i, σ !! i = Some b) /\ key b = Some (dg_url g))
         /\ recommendAction now (dg_bookmarks g)
            = Normal (dg_recommendedAction g)
         /\ exists keeper,
              keeper ∈ dg_bookmarks g
              /\ id keeper = keep (dg_recommendedAction g).
Proof.
  destruct (findAll_run σ) as (all & gs & groups & Hall & Hperm & Hnd & Hgin
                               & Hfind & HF).
  exists groups. split; [done|].
  assert (Hurls : dg_url <$> groups = normalizedUrl <$> gs).
  { clear -HF. induction HF as [|g dg gs groups Hd _ IH]; [done|]. csimpl.
    apply describe_group_fields in Hd as (_ & -> & _). by rewrite IH. }
  split; [by rewrite Hurls|].
  intros dg Hdg.
  destruct (proj1 (list_elem_of_lookup _ _) Hdg) as [n Hn].
  destruct (Forall2_lookup_r _ _ _ _ _ HF Hn) as (g & Hg & Hd).
  apply describe_group_fields in Hd as (Hid & Hurl & Hbs & Hcount & Hsev & Hrec).
  assert (Hg' : g ∈ gs) by (apply list_elem_of_lookup; eauto).
  pose proof (proj1 (Hgin g) Hg') as [Hentry Hlen].
  rewrite Hbs, Hurl, Hid, Hcount, Hsev.
  split; [by eapply group_for_id|]. split; [done|]. split; [lia|].
  split; [rewrite calculateSeverity_medium; lia|].
  split; [rewrite calculateSeverity_high; lia|].
  split; [apply calculateSeverity_critical|].
  split.
  { intros b Hb.
    destruct (groupDuplicates_member URL_new URLSearchParams_new gs all g b
                Hgin Hg' Hb) as [Hball Hkey].
    split; [|done]. rewrite Hperm in Hball.
    apply list_elem_of_fmap in Hball as ([i b'] & -> & Hin).
    exists i. by apply elem_of_map_to_list. }
  split; [done|].
  destruct (keeper_of_found now dg) as (keeper & _ & Hin & Hk).
  - rewrite Hbs. destruct (bookmarks g); [simpl in Hlen; lia|done].
  - by rewrite Hbs.
  - exists keeper. by rewrite <- Hbs.
Qed.

(** X2.  Over a store that keeps every record under its id, a stored record is
    in a group that [findAll] returns exactly when it has a url and another
    stored record has the same normalized URL; no record is in two groups;
    and [findAll] returns no group exactly when no two stored records with
    a url have the same normalized URL. *)
Theorem findAll_finds_every_duplicate σ :
  store_wf σ ->
  exists groups,
    find_all σ = (Normal groups, σ)
    /\ (forall i b, σ !! i = Some b ->
          (exists g, g ∈ groups /\ b ∈ dg_bookmarks g)
          <-> is_Some (key b)
              /\ exists j b', j <> i /\ σ !! j = Some b' /\ key b' = key b)
    /\ (forall b g g', g ∈ groups -> g' ∈ groups ->
          b ∈ dg_bookmarks g -> b ∈ dg_bookmarks g' -> g = g')
    /\ (groups = [] <->
        forall i j b b', i <> j -> σ !! i = Some b -> σ !! j = Some b' ->
          is_Some (key b) -> key b <> key b').
Proof.
  intros Hwf.
  destruct (findAll_run σ) as (all & gs & groups & Hall & Hperm & Hnd & Hgin
                               & Hfind & HF).
  exists groups. split; [done|].
  assert (Hin : forall b, b ∈ all <-> exists i, σ !! i = Some b).
  { intros b. rewrite Hperm, list_elem_of_fmap. split.
    - intros ([i b'] & -> & Hb). exists i. by apply elem_of_map_to_list.
    - intros [i Hi]. exists (i, b). split; [done|].
      by apply elem_of_map_to_list. }
  assert (Hndall : NoDup all).
  { rewrite Hperm. by apply store_values_NoDup. }
  assert (Hmem : forall b, (exists dg, dg ∈ groups /\ b ∈ dg_bookmarks dg)
                   <-> exists k, key b = Some k /\ b ∈ all
                         /\ (2 <= List.length (shared k all))%nat).
  { intros b. split.
    - intros (dg & Hdg & Hb).
      destruct (proj1 (list_elem_of_lookup _ _) Hdg) as [n Hn].
      destruct (Forall2_lookup_r _ _ _ _ _ HF Hn) as (g & Hg & Hd).
      apply describe_group_fields in Hd as (_ & _ & Hbs & _).
      assert (Hg' : g ∈ gs) by (apply list_elem_of_lookup; eauto).
      pose proof (proj1 (Hgin g) Hg') as [Hentry Hlen].
      apply group_for_Some in Hentry as (_ & Hsh & _).
      rewrite Hbs, Hsh in Hb. rewrite Hsh in Hlen.
      apply elem_of_sharing in Hb as [Hball Hk].
      exists (normalizedUrl g). done.
    - intros (k & Hk & Hball & Hlen).
      destruct (entry k all) as [g|] eqn:Hentry.
      2:{ unfold group_for in Hentry.
          destruct (shared k all); [simpl in Hlen; lia|done]. }
      destruct (group_for_Some _ _ _ _ _ Hentry) as (Hn & Hsh & _).
      assert (Hg : g ∈ gs).
      { apply Hgin. rewrite Hn, Hsh. done. }
      destruct (proj1 (list_elem_of_lookup _ _) Hg) as [n Hn'].
      destruct (Forall2_lookup_l _ _ _ _ _ HF Hn') as (dg & Hdg & Hd).
      apply describe_group_fields in Hd as (_ & _ & Hbs & _).
      exists dg. split; [apply list_elem_of_lookup; eauto|].
      rewrite Hbs, Hsh. by apply elem_of_sharing. }
  split; [|split].
  - intros i b Hi. rewrite Hmem. split.
    + intros (k & Hk & Hball & Hlen). split; [by rewrite Hk|].
      destruct (two_elements (shared k all) b) as (b' & Hb' & Hne);
        [by apply NoDup_filter_list|done|].
      apply elem_of_sharing in Hb' as [Hb'all Hk'].
      apply Hin in Hb'all as [j Hj]. exists j, b'.
      split; [|by rewrite Hk, Hk'].
      intros ->. congruence.
    + intros ([k Hk] & j & b' & Hne & Hj & Hk').
      exists k. split; [done|]. split; [apply Hin; eauto|].
      apply (NoDup_two _ b b'); [by apply NoDup_filter_list| | |].
      * apply elem_of_sharing. split; [apply Hin; eauto|done].
      * apply elem_of_sharing. split; [apply Hin; eauto|congruence].
      * intros ->. apply Hwf in Hi, Hj. congruence.
  - intros b dg dg' Hdg Hdg' Hb Hb'.
    assert (Hurl : forall d, d ∈ groups -> b ∈ dg_bookmarks d ->
              key b = Some (dg_url d)).
    { intros d Hd Hbd.
      destruct (proj1 (list_elem_of_lookup _ _) Hd) as [n Hn].
      destruct (Forall2_lookup_r _ _ _ _ _ HF Hn) as (g & Hg & Hdesc).
      apply describe_group_fields in Hdesc as (_ & Hu & Hbs & _).
      assert (Hg' : g ∈ gs) by (apply list_elem_of_lookup; eauto).
      rewrite Hbs in Hbd. rewrite Hu.
      by destruct (groupDuplicates_member URL_new URLSearchParams_new gs all
                     g b Hgin Hg' Hbd). }
    pose proof (Hurl dg Hdg Hb) as H1. pose proof (Hurl dg' Hdg' Hb') as H2.
    rewrite H1 in H2. injection H2 as Heq.
    assert (Hndu : NoDup (dg_url <$> groups)).
    { assert (Hurls : dg_url <$> groups = normalizedUrl <$> gs).
      { clear -HF. induction HF as [|g d gs groups Hd _ IH]; [done|]. csimpl.
        apply describe_group_fields in Hd as (_ & -> & _). by rewrite IH. }
      by rewrite Hurls. }
    destruct (proj1 (list_elem_of_lookup _ _) Hdg) as [n Hn].
    destruct (proj1 (list_elem_of_lookup _ _) Hdg') as [n' Hn'].
    assert (n = n').
    { eapply NoDup_lookup; [exact Hndu| |].
      - rewrite list_lookup_fmap, Hn. done.
      - rewrite list_lookup_fmap, Hn'. simpl. by rewrite Heq. }
    subst n'. congruence.
  - split.
    + intros -> i j b b' Hne Hi Hj [k Hk] Heq.
      assert (Hex : exists dg, dg ∈ [] /\ b ∈ dg_bookmarks dg).
      { apply Hmem. exists k. split; [done|]. split; [apply Hin; eauto|].
        apply (NoDup_two _ b b'); [by apply NoDup_filter_list| | |].
        - apply elem_of_sharing. split; [apply Hin; eauto|done].
        - apply elem_of_sharing. split; [apply Hin; eauto|congruence].
        - intros ->. apply Hwf in Hi, Hj. congruence. }
      destruct Hex as (dg & Hdg & _). by apply elem_of_nil in Hdg.
    + intros Hno. destruct groups as [|dg groups']; [done|]. exfalso.
      destruct (proj1 (list_elem_of_lookup _ _)
                  (list_elem_of_here dg groups')) as [n Hn].
      destruct (Forall2_lookup_r _ _ _ _ _ HF Hn) as (g & Hg & Hd).
      apply describe_group_fields in Hd as (_ & _ & Hbs & _).
      assert (Hg' : g ∈ gs) by (apply list_elem_of_lookup; eauto).
      pose proof (proj1 (Hgin g) Hg') as [Hentry Hlen].
      apply group_for_Some in Hentry as (_ & Hsh & _).
      rewrite Hsh in Hlen.
      destruct (shared (normalizedUrl g) all) as [|b [|b' l]] eqn:E;
        simpl in Hlen; try lia.
      assert (Hb : b ∈ shared (normalizedUrl g) all) by (rewrite E; by left).
      assert (Hb' : b' ∈ shared (normalizedUrl g) all)
        by (rewrite E; by right; left).
      assert (Hbb : b <> b').
      { pose proof (NoDup_filter_list
                      (has_key URL_new URLSearchParams_new (normalizedUrl g))
                      all Hndall) as Hnds.
        fold (shared (normalizedUrl g) all) in Hnds. rewrite E in Hnds.
        apply NoDup_cons in Hnds as [Hnot _]. intros ->. apply Hnot. by left. }
      apply elem_of_sharing in Hb as [Hball Hk].
      apply elem_of_sharing in Hb' as [Hb'all Hk'].
      apply Hin in Hball as [i Hi]. apply Hin in Hb'all as [j Hj].
      apply (Hno i j b b');
        [intros ->; congruence|done|done|by rewrite Hk|by rewrite Hk, Hk'].
Qed.
End FindAllGroups.

(** ** Statistics *)

Lemma foldl_counts (a : Z) (l : list DuplicateGroup) :
  foldl (fun sum group => sum + dg_count group) a l
  = a + foldr (fun group sum => dg_count group + sum) 0 l.
Proof.
  revert a. induction l as [|g l IH]; intros a; simpl; [lia|].
  rewrite IH. lia.
Qed.

(** Each element of [l] passes the test of one key of [ks] at most, so the
    elements that the keys select are no more than the elements of [l]. *)
Lemma selected_by_distinct_keys {A K} (p : K -> A -> bool) (ks : list K)
    (l : list A) :
  NoDup ks ->
  (forall k k' x, p k x = true -> p k' x = true -> k = k') ->
  (foldr (fun k sum => List.length (List.filter (p k) l) + sum) 0 ks
   <= List.length l)%nat.
Proof.
  intros Hnd Hp. induction l as [|x l IH]; simpl.
  { induction ks as [|k ks IHk]; simpl; [lia|].
    apply NoDup_cons in Hnd as [_ Hnd]. by apply IHk. }
  assert (Hone : (foldr (fun k sum => (if p k x then 1 else 0) + sum) 0 ks <= 1)%nat).
  { clear IH. induction ks as [|k ks IHk]; simpl; [lia|].
    apply NoDup_cons in Hnd as [Hk Hnd].
    destruct (p k x) eqn:E; [|by apply IHk].
    assert (Hzero : (foldr (fun k sum => (if p k x then 1 else 0) + sum) 0 ks
                     = 0)%nat).
    { clear IHk Hnd. induction ks as [|k' ks IHk]; simpl; [done|].
      destruct (p k' x) eqn:E'.
      - exfalso. apply Hk. rewrite (Hp k k' x E E'). by left.
      - apply IHk. intros Hin. apply Hk. by right. }
    rewrite Hzero. lia. }
  assert (Hsplit : (foldr (fun k sum =>
                             List.length (if p k x then x :: List.filter (p k) l
                                          else List.filter (p k) l) + sum) 0 ks
                    = foldr (fun k sum => (if p k x then 1 else 0) + sum) 0 ks
                      + foldr (fun k sum => List.length (List.filter (p k) l) + sum)
                          0 ks)%nat).
  { clear. induction ks as [|k ks IHk]; simpl; [done|].
    rewrite IHk. destruct (p k x); simpl; lia. }
  rewrite Hsplit. lia.
Qed.

Lemma severity_partition (l : list DuplicateGroup) :
  (List.length (List.filter (fun g => Severity_eqb (dg_severity g) critical) l)
   + List.length (List.filter (fun g => Severity_eqb (dg_severity g) high) l)
   + List.length (List.filter (fun g => Severity_eqb (dg_severity g) medium) l)
   = List.length l)%nat.
Proof.
  induction l as [|g l IH]; simpl; [done|].
  destruct (dg_severity g); simpl; lia.
Qed.

Section Statistics.
Variable URL_new : string -> completion URL.
Variable URLSearchParams_new : string -> list (string * string).
Variable now : Z.

Local Abbreviation shared := (sharing URL_new URLSearchParams_new).
Local Abbreviation keyed := (has_key URL_new URLSearchParams_new).
Local Abbreviation statistics :=
  (getStatistics URL_new URLSearchParams_new now).

Implicit Types (σ : gmap string Bookmark).

(** X3.  [getStatistics] never throws and does not write to the store.  The
    three severity counts add up to the number of groups; the records
    affected are the duplicates counted, the members of all the groups; a
    medium group counts for 2 of them, a high one for 3 at least and a
    critical one for 5 at least; they are no more than the records of the
    store; and there is no group exactly when no duplicate is counted. *)
Theorem getStatistics_counts σ :
  exists stats,
    getStatistics URL_new URLSearchParams_new now σ = (Normal stats, σ)
    /\ count_critical (severityCounts stats)
       + count_high (severityCounts stats)
       + count_medium (severityCounts stats) = totalGroups stats
    /\ totalBookmarksAffected stats = totalDuplicates stats
    /\ 2 * count_medium (severityCounts stats)
       + 3 * count_high (severityCounts stats)
       + 5 * count_critical (severityCounts stats) <= totalDuplicates stats
    /\ totalDuplicates stats <= Z.of_nat (size σ)
    /\ (totalGroups stats = 0 <-> totalDuplicates stats = 0).
Proof.
  destruct (findAll_run URL_new URLSearchParams_new now σ)
    as (all & gs & groups & Hall & Hperm & Hnd & Hgin & Hfind & HF).
  eexists. split.
  { unfold getStatistics. rewrite Async_bind_run, Hfind. reflexivity. }
  cbn [severityCounts count_critical count_high count_medium totalGroups
       totalDuplicates totalBookmarksAffected].
  rewrite foldl_counts, Z.add_0_l.
  assert (Hlower : forall l : list DuplicateGroup,
            Forall (fun g => dg_severity g = calculateSeverity (dg_count g)
                             /\ 2 <= dg_count g) l ->
            2 * Z.of_nat (List.length
                  (List.filter (fun g => Severity_eqb (dg_severity g) medium) l))
            + 3 * Z.of_nat (List.length
                  (List.filter (fun g => Severity_eqb (dg_severity g) high) l))
            + 5 * Z.of_nat (List.length
                  (List.filter (fun g => Severity_eqb (dg_severity g) critical) l))
            <= foldr (fun group sum => dg_count group + sum) 0 l).
  { induction 1 as [|g l [Hsev Hcount] _ IH]; simpl; [lia|].
    pose proof (calculateSeverity_high (dg_count g)) as Hh.
    pose proof (calculateSeverity_critical (dg_count g)) as Hc.
    rewrite <- Hsev in Hh, Hc.
    destruct (dg_severity g); simpl.
    - assert (5 <= dg_count g) by tauto. lia.
    - assert (3 <= dg_count g < 5) by tauto. lia.
    - lia. }
  assert (Hshape : Forall (fun g => dg_severity g = calculateSeverity (dg_count g)
                                    /\ 2 <= dg_count g) groups).
  { apply Forall_forall. intros dg Hdg.
    destruct (proj1 (list_elem_of_lookup _ _) Hdg) as [n Hn].
    destruct (Forall2_lookup_r _ _ _ _ _ HF Hn) as (g & Hg & Hd).
    apply describe_group_fields in Hd as (_ & _ & _ & Hcount & Hsev & _).
    assert (Hg' : g ∈ gs) by (apply list_elem_of_lookup; eauto).
    pose proof (proj1 (Hgin g) Hg') as [_ Hlen].
    rewrite Hcount, Hsev. split; [done|lia]. }
  assert (Hupper : foldr (fun group sum => dg_count group + sum) 0 groups
                   <= Z.of_nat (size σ)).
  { assert (Hsum : forall gs0 groups0,
              Forall2 (fun g dg => describe_group now g = Normal dg) gs0 groups0 ->
              (forall g, g ∈ gs0 -> g ∈ gs) ->
              foldr (fun group sum => dg_count group + sum) 0 groups0
              = Z.of_nat
                  (foldr (fun k sum =>
                            List.length (List.filter (keyed k) all) + sum)%nat
                     0%nat (normalizedUrl <$> gs0))).
    { induction 1 as [|g dg gs0 groups0 Hd _ IH]; intros Hsub; [done|].
      apply describe_group_fields in Hd as (_ & _ & _ & Hcount & _).
      csimpl. rewrite IH by (intros g' Hg'; apply Hsub; by right).
      destruct (proj1 (Hgin g) (Hsub g ltac:(by left))) as [Hentry _].
      apply group_for_Some in Hentry as (_ & Hsh & _).
      rewrite Hcount, Hsh. unfold sharing. lia. }
    rewrite (Hsum gs groups HF) by done.
    assert (Hlen : List.length all = size σ).
    { rewrite Hperm, length_fmap. apply length_map_to_list. }
    rewrite <- Hlen. apply inj_le.
    apply selected_by_distinct_keys; [done|].
    intros k k' x Hk Hk'. unfold has_key in Hk, Hk'.
    apply bool_decide_eq_true in Hk, Hk'. congruence. }
  pose proof (severity_partition groups) as Hpart.
  pose proof (Hlower groups Hshape) as Hlow.
  split; [lia|]. split; [done|]. split; [done|]. split; [done|].
  split.
  - intros Hz. destruct groups; [done|]. simpl in Hz. lia.
  - intros Hz. lia.
Qed.
End Statistics.

(** ** Clean-up of the duplicate flags *)

Lemma spread_unmark_twice b i j t :
  spread (spread b duplicate_unmark i t) duplicate_unmark j t
  = spread b duplicate_unmark j t.
Proof. done. Qed.

Lemma store_wf_delete (σ : gmap string Bookmark) d :
  store_wf σ -> store_wf (delete d σ).
Proof.
  intros Hwf i b Hi. apply lookup_delete_Some in Hi as [_ Hi]. by apply Hwf.
Qed.

Section CleanupFacts.
Variable URL_new : string -> completion URL.
Variable now : Z.

Local Abbreviation valid := (validateBookmark URL_new).
Local Abbreviation step := (cleanup_step URL_new now).
Local Abbreviation clean := (cleanup URL_new now).
Local Abbreviation unmarked := (fun b => spread b duplicate_unmark (id b) now).
Local Abbreviation cleaned := (cleaned_from now).

Implicit Types (σ : gmap string Bookmark) (b x : Bookmark).

Lemma dangling_test σ b :
  isDuplicate b && truthy (duplicateOf b) = true
  /\ σ !! default "" (duplicateOf b) = None
  <-> dangling σ b.
Proof.
  unfold dangling, truthy. rewrite andb_true_iff. split.
  - intros [[Hd Ht] Ho]. split; [done|].
    destruct (duplicateOf b) as [[|c d]|]; try done.
    exists (String c d). done.
  - intros [Hd (d & -> & Hne & Ho)]. simpl. split; [|done].
    split; [done|]. by destruct d.
Qed.

Lemma cleanup_step_run x σ :
  step tt x σ
  = if isDuplicate x && truthy (duplicateOf x)
    then match σ !! default "" (duplicateOf x) with
         | Some _ => (Normal tt, σ)
         | None =>
             match σ !! id x with
             | None => (Throw (Error "Bookmark not found"), σ)
             | Some e =>
                 if valid (spread e duplicate_unmark (id x) now)
                 then (Normal tt,
                       <[id x := spread e duplicate_unmark (id x) now]> σ)
                 else (Throw (Error "Invalid bookmark"), σ)
             end
         end
    else (Normal tt, σ).
Proof.
  unfold cleanup_step. destruct (isDuplicate x && truthy (duplicateOf x)); [|done].
  rewrite Async_bind_run. unfold getBookmark.
  destruct (σ !! default "" (duplicateOf x)); [done|].
  rewrite Async_bind_run, updateBookmark_run.
  destruct (σ !! id x) as [e|]; [|done].
  by destruct (valid (spread e duplicate_unmark (id x) now)).
Qed.

Lemma cleaned_dom σ σc d : cleaned σ σc -> σc !! d = None <-> σ !! d = None.
Proof.
  intros H. destruct (H d) as [->|(b & Hb & _ & Hc)]; [done|].
  rewrite Hb, Hc. done.
Qed.

Lemma cleanup_loop σ (l : list Bookmark) σc :
  cleaned σ σc ->
  (forall x, x ∈ l -> σ !! id x = Some x) ->
  cleaned σ (for_of l step tt σc).2
  /\ (forall x, σ !! id x = Some x -> σc !! id x = Some (unmarked x) ->
        (for_of l step tt σc).2 !! id x = Some (unmarked x))
  /\ ((for_of l step tt σc).1 = Normal tt ->
      forall x, x ∈ l -> dangling σ x ->
        (for_of l step tt σc).2 !! id x = Some (unmarked x)).
Proof.
  revert σc. induction l as [|x l IH]; intros σc Hc Hl.
  { split; [done|]. split; [done|]. intros _ x Hx. by apply elem_of_nil in Hx. }
  rewrite for_of_cons.
  assert (Hx : σ !! id x = Some x) by (apply Hl; by left).
  assert (Hl' : forall y, y ∈ l -> σ !! id y = Some y)
    by (intros y Hy; apply Hl; by right).
  (* the turn for [x] *)
  assert (Hstep :
    exists o σ1, step tt x σc = (o, σ1)
      /\ cleaned σ σ1
      /\ (forall y, σ !! id y = Some y -> σc !! id y = Some (unmarked y) ->
            σ1 !! id y = Some (unmarked y))
      /\ (o = Normal tt -> dangling σ x -> σ1 !! id x = Some (unmarked x))).
  { rewrite cleanup_step_run.
    destruct (isDuplicate x && truthy (duplicateOf x)) eqn:Hflag.
    2:{ eexists _, _. split; [done|]. split; [done|]. split; [done|].
        intros _ Hd. apply dangling_test in Hd as [Hd _]. congruence. }
    destruct (σc !! default "" (duplicateOf x)) as [o|] eqn:Ho.
    { eexists _, _. split; [done|]. split; [done|]. split; [done|].
      intros _ Hd. apply dangling_test in Hd as [_ Hd].
      apply (cleaned_dom σ σc) in Hd; [|done]. congruence. }
    assert (Hdang : dangling σ x).
    { apply dangling_test. split; [done|]. by apply (cleaned_dom σ σc). }
    assert (He : exists e, σc !! id x = Some e
                 /\ spread e duplicate_unmark (id x) now = unmarked x).
    { destruct (Hc (id x)) as [Hsame|(b & Hb & _ & Hcb)].
      - exists x. split; [by rewrite Hsame|done].
      - rewrite Hx in Hb. injection Hb as <-. exists (unmarked x).
        split; [done|]. apply spread_unmark_twice. }
    destruct He as (e & He & Hspread). rewrite He, Hspread.
    destruct (valid (unmarked x)).
    2:{ eexists _, _. split; [done|]. split; [done|]. split; [done|]. done. }
    eexists _, _. split; [done|]. split; [|split].
    - intros i. destruct (decide (i = id x)) as [->|Hi].
      + right. exists x. by rewrite lookup_insert_eq.
      + rewrite lookup_insert_ne by done. apply Hc.
    - intros y Hy Hcy. destruct (decide (id y = id x)) as [Heq|Hne].
      + rewrite Heq in Hy. rewrite Hx in Hy. injection Hy as ->.
        by rewrite lookup_insert_eq.
      + by rewrite lookup_insert_ne.
    - intros _ _. by rewrite lookup_insert_eq. }
  destruct Hstep as (o & σ1 & -> & Hc1 & Hmono1 & Hdone1).
  destruct o as [[]|e].
  2:{ split; [done|]. split; [done|]. done. }
  destruct (IH σ1 Hc1 Hl') as (Hc2 & Hmono2 & Hdone2).
  split; [done|]. split.
  - intros y Hy Hcy. apply Hmono2; [done|]. by apply Hmono1.
  - intros Hn y [->|Hy]%elem_of_cons Hd.
    + apply Hmono2; [done|]. by apply Hdone1.
    + by apply Hdone2.
Qed.

Lemma cleanup_run σ :
  exists all,
    (forall b, b ∈ all <-> exists i, σ !! i = Some b)
    /\ clean σ = for_of all step tt σ.
Proof.
  destruct (getAllBookmarks_spec σ) as (all & Hall & Hin).
  exists all. split; [done|].
  unfold cleanup. by rewrite Async_bind_run, Hall.
Qed.

Lemma cleanup_cleaned σ :
  store_wf σ ->
  cleaned σ (clean σ).2
  /\ ((clean σ).1 = Normal tt ->
      forall i b, σ !! i = Some b -> dangling σ b ->
        (clean σ).2 !! i = Some (unmarked b)).
Proof.
  intros Hwf. destruct (cleanup_run σ) as (all & Hin & ->).
  assert (Hl : forall x, x ∈ all -> σ !! id x = Some x).
  { intros x [i Hi]%Hin. by rewrite (Hwf _ _ Hi). }
  destruct (cleanup_loop σ all σ) as (Hc & _ & Hdone); [by left|done|].
  split; [done|]. intros Hn i b Hi Hd.
  rewrite <- (Hwf _ _ Hi). apply Hdone; [done| |done]. apply Hin. eauto.
Qed.

Lemma cleanup_store_wf σ : store_wf σ -> store_wf (clean σ).2.
Proof.
  intros Hwf. destruct (cleanup_run σ) as (all & Hin & ->).
  apply (for_of_invariant store_wf); [|done].
  intros [] x σc _ Hc. rewrite cleanup_step_run.
  destruct (_ && _); [|done].
  destruct (σc !! default "" (duplicateOf x)); [done|].
  destruct (σc !! id x) as [e|]; [|done].
  destruct (valid _); [|done]. simpl.
  intros j b. destruct (decide (j = id x)) as [->|Hj].
  - rewrite lookup_insert_eq. by intros [= <-].
  - rewrite lookup_insert_ne by done. apply Hc.
Qed.

Lemma cleanup_no_dangling σ :
  store_wf σ -> (clean σ).1 = Normal tt ->
  forall i b', (clean σ).2 !! i = Some b' -> ~ dangling (clean σ).2 b'.
Proof.
  intros Hwf Hn i b' Hi' Hd'.
  destruct (cleanup_cleaned σ Hwf) as [Hc Hdone].
  destruct (Hc i) as [Hsame|(b & Hb & Hd & Hcb)].
  - rewrite Hi' in Hsame. symmetry in Hsame.
    assert (Hd : dangling σ b').
    { destruct Hd' as [Hflag (d & Hdup & Hne & Ho)]. split; [done|].
      exists d. split; [done|]. split; [done|]. by apply (cleaned_dom σ _ d Hc). }
    rewrite (Hdone Hn i b' Hsame Hd) in Hi'. injection Hi' as Heq.
    destruct Hd' as [Hflag _]. rewrite <- Heq in Hflag. discriminate.
  - rewrite Hcb in Hi'. injection Hi' as Heq.
    destruct Hd' as [Hflag _]. rewrite <- Heq in Hflag. discriminate.
Qed.

Lemma cleanup_noop σ :
  store_wf σ ->
  (forall i b, σ !! i = Some b -> ~ dangling σ b) ->
  clean σ = (Normal tt, σ).
Proof.
  intros Hwf Hno. destruct (cleanup_run σ) as (all & Hin & ->).
  assert (Hl : forall x, x ∈ all -> ~ dangling σ x).
  { intros x [i Hi]%Hin. by eapply Hno. }
  clear Hin. induction all as [|x l IH]; [done|].
  rewrite for_of_cons, cleanup_step_run.
  assert (Hx : ~ dangling σ x) by (apply Hl; by left).
  destruct (isDuplicate x && truthy (duplicateOf x)) eqn:Hflag.
  - destruct (σ !! default "" (duplicateOf x)) eqn:Ho.
    + apply IH. intros y Hy. apply Hl. by right.
    + exfalso. apply Hx. by apply dangling_test.
  - apply IH. intros y Hy. apply Hl. by right.
Qed.

(** X14.  However [cleanup] ends over a store that keeps every record under its
    id, every record of the store is still there, and it is as it was
    unless it was marked as the duplicate of a record that the store does
    not hold: such a record is as it was or has [isDuplicate = false], no
    [duplicateOf] and the modification time [now], and is as it was
    otherwise.  So [cleanup] deletes no record and marks none. *)
Theorem cleanup_only_unmarks_dangling σ :
  store_wf σ ->
  forall i,
    (clean σ).2 !! i = σ !! i
    \/ exists b,
         σ !! i = Some b /\ dangling σ b
         /\ (clean σ).2 !! i = Some (spread b duplicate_unmark i now).
Proof.
  intros Hwf i. destruct (cleanup_cleaned σ Hwf) as [Hc _].
  destruct (Hc i) as [?|(b & Hb & Hd & Hcb)]; [by left|].
  right. exists b. by rewrite <- (Hwf _ _ Hb) at 3.
Qed.

(** X15.  When [cleanup] returns over a store that keeps every record under its
    id, no record of the store is marked as the duplicate of a record that
    the store does not hold: each record that was is unmarked. *)
Theorem cleanup_leaves_no_dangling_mark σ :
  store_wf σ ->
  (clean σ).1 = Normal tt ->
  (forall i b', (clean σ).2 !! i = Some b' -> ~ dangling (clean σ).2 b')
  /\ (forall i b, σ !! i = Some b -> dangling σ b ->
        exists b', (clean σ).2 !! i = Some b'
                   /\ isDuplicate b' = false /\ duplicateOf b' = None).
Proof.
  intros Hwf Hn. split; [by apply cleanup_no_dangling|].
  intros i b Hi Hd. destruct (cleanup_cleaned σ Hwf) as [_ Hdone].
  exists (spread b duplicate_unmark (id b) now). split; [by apply Hdone|done].
Qed.

(** X16.  [cleanup] is idempotent: once it has returned, a second run returns
    too and writes nothing. *)
Theorem cleanup_idempotent σ :
  store_wf σ ->
  (clean σ).1 = Normal tt ->
  clean (clean σ).2 = (Normal tt, (clean σ).2).
Proof.
  intros Hwf Hn. apply cleanup_noop; [by apply cleanup_store_wf|].
  by apply cleanup_no_dangling.
Qed.

(** X17.  Over a store whose records are valid and kept under their ids,
    [cleanup] returns: no update it makes is refused. *)
Theorem cleanup_returns_on_valid_store σ :
  store_wf σ -> store_valid URL_new σ -> (clean σ).1 = Normal tt.
Proof.
  intros Hwf Hv. destruct (cleanup_run σ) as (all & Hin & ->).
  destruct (for_of_Normal
              (fun σc => store_valid URL_new σc
                         /\ forall x, x ∈ all -> is_Some (σc !! id x))
              all step tt σ) as ([] & Hs & _); [| |done].
  - intros [] x σc Hx [Hvc Hdom]. rewrite cleanup_step_run.
    destruct (_ && _); [|by exists tt].
    destruct (σc !! default "" (duplicateOf x)); [by exists tt|].
    destruct (Hdom x Hx) as [e He]. rewrite He.
    rewrite validateBookmark_spread by done. rewrite (Hvc _ _ He).
    exists tt. split; [done|]. simpl. split.
    + intros j b. destruct (decide (j = id x)) as [->|Hj].
      * rewrite lookup_insert_eq. intros [= <-].
        rewrite validateBookmark_spread by done. by apply (Hvc _ _ He).
      * rewrite lookup_insert_ne by done. apply Hvc.
    + intros y Hy. destruct (decide (id y = id x)) as [->|Hj].
      * by rewrite lookup_insert_eq.
      * rewrite lookup_insert_ne by done. by apply Hdom.
  - split; [done|]. intros x [i Hi]%Hin. rewrite (Hwf _ _ Hi). eauto.
Qed.

(** X18.  Deleting a record and running [cleanup]: when [cleanup] returns, every
    record that was marked as a duplicate of the deleted one is
    unmarked. *)
Theorem cleanup_after_deleteBookmark σ i b d :
  store_wf σ ->
  σ !! i = Some b -> isDuplicate b = true -> duplicateOf b = Some d ->
  d <> "" -> i <> d ->
  let outcome := (deleteBookmark d ≫= fun _ => clean) σ in
  outcome.1 = Normal tt ->
  outcome.2 !! d = None
  /\ exists b', outcome.2 !! i = Some b'
                /\ isDuplicate b' = false /\ duplicateOf b' = None.
Proof.
  intros Hwf Hi Hflag Hdup Hne Hid outcome.
  unfold outcome. rewrite Async_bind_run. unfold deleteBookmark.
  intros Hn.
  assert (Hwf' : store_wf (delete d σ)) by by apply store_wf_delete.
  destruct (cleanup_cleaned _ Hwf') as [Hc Hdone].
  split.
  { apply (cleaned_dom _ _ d Hc). apply lookup_delete_eq. }
  assert (Hi' : delete d σ !! i = Some b) by by rewrite lookup_delete_ne.
  exists (spread b duplicate_unmark (id b) now). split; [|done].
  apply (Hdone Hn i b Hi').
  split; [done|]. exists d. split; [done|]. split; [done|].
  apply lookup_delete_eq.
Qed.
End CleanupFacts.

(** ** Manual resolution *)

Lemma merge_if_better_step a m :
  let a' := merge_if_better a m in
  (String.length (default "" (data_title a))
   <= String.length (default "" (data_title a')))%nat
  /\ (String.length (default "" (title m))
      <= String.length (default "" (data_title a')))%nat
  /\ (data_title a' = data_title a \/ data_title a' = title m)
  /\ (List.length (default [] (data_tags a))
      <= List.length (default [] (data_tags a')))%nat
  /\ (List.length (default [] (tags m))
      <= List.length (default [] (data_tags a')))%nat
  /\ (data_tags a' = data_tags a \/ data_tags a' = tags m)
  /\ (truthy (data_description a) = true ->
      data_description a' = data_description a)
  /\ (truthy (description m) = true -> truthy (data_description a') = true)
  /\ (data_description a' = data_description a
      \/ data_description a' = description m)
  /\ data_meta a' = data_meta a.
Proof.
  assert (Hfalsy : forall o, truthy o = false ->
            String.length (default "" o) = 0%nat).
  { intros [[|c s]|]; done. }
  destruct a as [t d g mt]. unfold merge_if_better.
  cbn [data_title data_description data_tags data_meta].
  destruct (truthy (title m)
            && (String.length (default "" t)
                <? String.length (default "" (title m)))%nat) eqn:E1;
    cbn [data_title data_description data_tags data_meta];
    destruct (truthy (description m) && negb (truthy d)) eqn:E2;
    cbn [data_title data_description data_tags data_meta];
    destruct ((if tags m is Some _ then true else false)
              && (List.length (default [] g)
                  <? List.length (default [] (tags m)))%nat) eqn:E3;
    cbn [data_title data_description data_tags data_meta].
  all: try (apply andb_true_iff in E1 as [E1a E1b]; apply Nat.ltb_lt in E1b).
  all: try (apply andb_false_iff in E1 as [E1|E1];
            [apply Hfalsy in E1|apply Nat.ltb_ge in E1]).
  all: try (apply andb_true_iff in E2 as [E2a E2b];
            apply negb_true_iff in E2b).
  all: try (apply andb_false_iff in E2 as [E2|E2];
            [|apply negb_false_iff in E2]).
  all: try (apply andb_true_iff in E3 as [E3a E3b]; apply Nat.ltb_lt in E3b).
  all: try (apply andb_false_iff in E3 as [E3|E3];
            [destruct (tags m); [discriminate E3|]|apply Nat.ltb_ge in E3]).
  all: repeat split; try done; try lia; try (by left); try (by right);
    try congruence.
  all: try (simpl; lia).
Qed.

Lemma foldl_merge_if_better a ms :
  let a' := foldl merge_if_better a ms in
  (String.length (default "" (data_title a))
   <= String.length (default "" (data_title a')))%nat
  /\ (forall m, m ∈ ms ->
        (String.length (default "" (title m))
         <= String.length (default "" (data_title a')))%nat)
  /\ (data_title a' = data_title a \/ exists m, m ∈ ms /\ data_title a' = title m)
  /\ (List.length (default [] (data_tags a))
      <= List.length (default [] (data_tags a')))%nat
  /\ (forall m, m ∈ ms ->
        (List.length (default [] (tags m))
         <= List.length (default [] (data_tags a')))%nat)
  /\ (data_tags a' = data_tags a \/ exists m, m ∈ ms /\ data_tags a' = tags m)
  /\ (truthy (data_description a) = true ->
      data_description a' = data_description a)
  /\ ((exists m, m ∈ ms /\ truthy (description m) = true) ->
      truthy (data_description a') = true)
  /\ data_meta a' = data_meta a.
Proof.
  revert a. induction ms as [|m ms IH]; intros a; simpl.
  { repeat split; try done; try (by left).
    - intros m Hm. by apply elem_of_nil in Hm.
    - intros m Hm. by apply elem_of_nil in Hm.
    - intros (m & Hm & _). by apply elem_of_nil in Hm. }
  destruct (merge_if_better_step a m)
    as (S1 & S2 & S3 & S4 & S5 & S6 & S7 & S8 & S9 & S10).
  destruct (IH (merge_if_better a m))
    as (I1 & I2 & I3 & I4 & I5 & I6 & I7 & I8 & I9).
  simpl in *.
  split; [lia|]. split.
  { intros m' [->|Hm']%elem_of_cons; [lia|by apply I2]. }
  split.
  { destruct I3 as [I3|(m' & Hm' & I3)].
    - rewrite I3. destruct S3 as [S3|S3]; [by left|].
      right. exists m. split; [by left|done].
    - right. exists m'. split; [by right|done]. }
  split; [lia|]. split.
  { intros m' [->|Hm']%elem_of_cons; [lia|by apply I5]. }
  split.
  { destruct I6 as [I6|(m' & Hm' & I6)].
    - rewrite I6. destruct S6 as [S6|S6]; [by left|].
      right. exists m. split; [by left|done].
    - right. exists m'. split; [by right|done]. }
  split.
  { intros Ha. rewrite I7; [by apply S7|]. by rewrite S7. }
  split; [|congruence].
  intros (m' & [->|Hm']%elem_of_cons & Hd).
  - rewrite I7; by apply S8.
  - apply I8. eauto.
Qed.

Section ManualResolution.
Variable URL_new : string -> completion URL.
Variable URLSearchParams_new : string -> list (string * string).
Variable now : Z.

Local Abbreviation find_all := (findAll URL_new URLSearchParams_new now).
Local Abbreviation manual := (resolveManually URL_new URLSearchParams_new now).
Local Abbreviation update := (updateBookmark URL_new now).
Local Abbreviation mark := (mark_duplicates URL_new now).
Local Abbreviation merge_step := (merge_data URL_new now).

Implicit Types (σ : gmap string Bookmark) (b : Bookmark).

(** The loop of [resolveManually] over the duplicates is the loop of
    [autoResolve] over the members that skips the keeper. *)
Lemma mark_loop_filter keeper members σ :
  for_of (List.filter (fun b => negb (String.eqb (id b) (id keeper))) members)
    (fun _ duplicate =>
       _ ← update (id duplicate) (duplicate_mark keeper); mret tt)
    tt σ
  = mark keeper members σ.
Proof.
  unfold mark_duplicates. revert σ.
  induction members as [|b bs IH]; intros σ; [done|].
  cbn [List.filter]. destruct (negb (String.eqb (id b) (id keeper))) eqn:E.
  - rewrite !for_of_cons, E.
    destruct ((_ ← update (id b) (duplicate_mark keeper); mret tt) σ)
      as [[[]|e] σ1]; [apply IH|done].
  - rewrite for_of_cons, E. apply IH.
Qed.

Lemma resolveManually_run groupId keepId action σ groups :
  find_all σ = (Normal groups, σ) ->
  manual groupId keepId action σ
  = match List.find (fun g => String.eqb (dg_id g) groupId) groups with
    | None => (Throw (Error "Duplicate group not found"), σ)
    | Some group =>
        match List.find (fun b => String.eqb (id b) keepId)
                (dg_bookmarks group) with
        | None => (Throw (Error "Bookmark to keep not found"), σ)
        | Some keeper =>
            let duplicates :=
              List.filter (fun b => negb (String.eqb (id b) keepId))
                (dg_bookmarks group) in
            match merge_step action keeper duplicates σ with
            | (Normal _, σ1) =>
                match mark keeper (dg_bookmarks group) σ1 with
                | (Normal _, σ2) =>
                    (Normal {| man_kept := keepId;
                               man_removed := List.map id duplicates;
                               man_action := action |}, σ2)
                | (Throw e, σ2) => (Throw e, σ2)
                end
            | (Throw e, σ1) => (Throw e, σ1)
            end
        end
    end.
Proof.
  intros Hfind. unfold resolveManually. rewrite Async_bind_run, Hfind.
  destruct (List.find _ groups) as [group|]; [|done].
  destruct (List.find _ (dg_bookmarks group)) as [keeper|] eqn:Hk; [|done].
  apply find_some in Hk as [_ Hk]. apply String.eqb_eq in Hk. subst keepId.
  rewrite Async_bind_run. fold (merge_data URL_new now action keeper
    (List.filter (fun b => negb (String.eqb (id b) (id keeper)))
       (dg_bookmarks group))).
  cbn zeta.
  destruct (merge_step _ _ _ σ) as [[[]|e] σ1]; [|done].
  rewrite Async_bind_run, mark_loop_filter.
  by destruct (mark keeper (dg_bookmarks group) σ1) as [[[]|e] σ2].
Qed.

Lemma merge_step_frame action keeper duplicates σ i :
  i <> id keeper -> (merge_step action keeper duplicates σ).2 !! i = σ !! i.
Proof.
  intros Hi. unfold merge_data. destruct (String.eqb _ _); [|done].
  rewrite Async_bind_run, updateBookmark_run.
  destruct (σ !! id keeper) as [e|]; [|done].
  destruct (validateBookmark _ _); [|done]. simpl.
  by rewrite lookup_insert_ne.
Qed.

Lemma merge_step_flags action keeper duplicates σ i :
  flags (merge_step action keeper duplicates σ).2 i = flags σ i.
Proof.
  unfold merge_data. destruct (String.eqb _ _); [|done].
  rewrite Async_bind_run.
  match goal with
  | |- context [update ?j ?u σ] =>
      pose proof (updateBookmark_keeps_flags URL_new now j u σ
                    eq_refl eq_refl i) as Hk;
      by destruct (update j u σ) as [[?|?] ?]
  end.
Qed.

Lemma merge_step_same_records action keeper duplicates σ :
  store_wf σ ->
  store_wf (merge_step action keeper duplicates σ).2
  /\ same_records σ (merge_step action keeper duplicates σ).2.
Proof.
  intros Hwf. unfold merge_data.
  destruct (String.eqb _ _); [|split; [done|apply same_records_refl]].
  rewrite Async_bind_run.
  match goal with
  | |- context [update ?j ?u σ] =>
      pose proof (updateBookmark_store_wf URL_new now j u σ Hwf) as H1;
      pose proof (updateBookmark_same_records URL_new now j u σ Hwf) as H2;
      by destruct (update j u σ) as [[?|?] ?]
  end.
Qed.

Lemma mark_duplicates_frame keeper members σ i :
  (forall b, b ∈ members -> id b = i -> i = id keeper) ->
  (mark keeper members σ).2 !! i = σ !! i.
Proof.
  intros Hi. unfold mark_duplicates.
  apply (for_of_invariant (fun σc => σc !! i = σ !! i)); [|done].
  intros [] b σc Hb Hc.
  destruct (String.eqb_spec (id b) (id keeper)) as [Heq|Hne]; [done|].
  cbn [negb]. rewrite Async_bind_run, updateBookmark_run.
  destruct (σc !! id b) as [e|]; [|done].
  destruct (validateBookmark _ _); [|done]. simpl.
  rewrite lookup_insert_ne; [done|]. intros Hid.
  apply Hne. rewrite <- (Hi b Hb Hid). done.
Qed.

Lemma mark_duplicates_same_records keeper members σ :
  store_wf σ ->
  store_wf (mark keeper members σ).2
  /\ same_records σ (mark keeper members σ).2.
Proof.
  intros Hwf. unfold mark_duplicates.
  apply (for_of_invariant (fun σc => store_wf σc /\ same_records σ σc));
    [|split; [done|apply same_records_refl]].
  intros [] b σc _ [Hc Hs].
  destruct (negb _); [|done].
  rewrite Async_bind_run.
  pose proof (updateBookmark_store_wf URL_new now (id b)
                (duplicate_mark keeper) σc Hc) as H1.
  pose proof (updateBookmark_same_records URL_new now (id b)
                (duplicate_mark keeper) σc Hc) as H2.
  destruct (update (id b) (duplicate_mark keeper) σc) as [[?|?] σ1];
    simpl in *; (split; [done|by eapply same_records_trans]).
Qed.

(** X10.  [resolveManually] with the id of no group that [findAll] returns
    throws the error "Duplicate group not found"; with the id of a group
    and, to be kept, the id of no member of the first group of that id, it
    throws "Bookmark to keep not found".  In both cases nothing is
    written. *)
Theorem resolveManually_unknown_ids groupId keepId action σ :
  exists groups,
    findAll URL_new URLSearchParams_new now σ = (Normal groups, σ)
    /\ ((forall g, g ∈ groups -> dg_id g <> groupId) ->
        resolveManually URL_new URLSearchParams_new now groupId keepId action σ
        = (Throw (Error "Duplicate group not found"), σ))
    /\ (forall group,
          List.find (fun g => String.eqb (dg_id g) groupId) groups
          = Some group ->
          (forall b, b ∈ dg_bookmarks group -> id b <> keepId) ->
          resolveManually URL_new URLSearchParams_new now groupId keepId action σ
          = (Throw (Error "Bookmark to keep not found"), σ)).
Proof.
  destruct (findAll_run URL_new URLSearchParams_new now σ)
    as (all & gs & groups & _ & _ & _ & _ & Hfind & _).
  exists groups. split; [done|]. split.
  - intros Hno. rewrite (resolveManually_run _ _ _ _ _ Hfind).
    destruct (List.find _ groups) as [g|] eqn:Hg; [|done].
    apply find_some in Hg as [Hin Hid]. apply String.eqb_eq in Hid.
    exfalso. by apply (Hno g); [apply list_elem_of_In|].
  - intros group Hg Hno. rewrite (resolveManually_run _ _ _ _ _ Hfind), Hg.
    destruct (List.find _ (dg_bookmarks group)) as [k|] eqn:Hk; [|done].
    apply find_some in Hk as [Hin Hid]. apply String.eqb_eq in Hid.
    exfalso. by apply (Hno k); [apply list_elem_of_In|].
Qed.

(** X11.  When [resolveManually] returns over a store that keeps every record
    under its id, the id given is that of a group, of which the record to
    keep is a member; the result names this record as kept, the other
    members as removed and the action given; every other member is stored
    with [isDuplicate = true] and [duplicateOf] the id kept; the flags of
    every other record, the keeper among them, are as they were; and every
    record is still there. *)
Theorem resolveManually_marks_the_others groupId keepId action σ r :
  store_wf σ ->
  (manual groupId keepId action σ).1 = Normal r ->
  exists groups group keeper,
    find_all σ = (Normal groups, σ)
    /\ List.find (fun g => String.eqb (dg_id g) groupId) groups = Some group
    /\ keeper ∈ dg_bookmarks group /\ id keeper = keepId
    /\ r = {| man_kept := keepId;
              man_removed :=
                List.map id
                  (List.filter (fun b => negb (String.eqb (id b) keepId))
                     (dg_bookmarks group));
              man_action := action |}
    /\ (forall b, b ∈ dg_bookmarks group -> id b <> keepId ->
          flags (manual groupId keepId action σ).2 (id b)
          = Some (true, Some keepId))
    /\ (forall i,
          (forall b, b ∈ dg_bookmarks group -> id b = i -> i = keepId) ->
          flags (manual groupId keepId action σ).2 i = flags σ i)
    /\ same_records σ (manual groupId keepId action σ).2.
Proof.
  intros Hwf.
  destruct (findAll_run URL_new URLSearchParams_new now σ)
    as (all & gs & groups & _ & _ & _ & _ & Hfind & _).
  rewrite (resolveManually_run _ _ _ _ _ Hfind).
  destruct (List.find _ groups) as [group|] eqn:Hg; [|done].
  destruct (List.find _ (dg_bookmarks group)) as [keeper|] eqn:Hk; [|done].
  apply find_some in Hk as [Hin Hid]. apply String.eqb_eq in Hid.
  apply list_elem_of_In in Hin. cbn zeta.
  set (duplicates := List.filter _ (dg_bookmarks group)).
  pose proof (merge_step_flags action keeper duplicates σ) as Hmf.
  destruct (merge_step_same_records action keeper duplicates σ Hwf)
    as [Hwf1 Hs1].
  destruct (merge_step action keeper duplicates σ) as [[[]|e] σ1]; [|done].
  simpl in Hmf, Hwf1, Hs1.
  destruct (mark_duplicates_flags URL_new now keeper (dg_bookmarks group) σ1)
    as [Hm1 Hm2].
  destruct (mark_duplicates_same_records keeper (dg_bookmarks group) σ1 Hwf1)
    as [_ Hs2].
  destruct (mark keeper (dg_bookmarks group) σ1) as [[[]|e] σ2]; [|done].
  simpl in *. intros [= <-].
  exists groups, group, keeper. split; [done|]. split; [done|].
  split; [done|]. split; [done|]. split; [done|]. split; [|split].
  - intros b Hb Hne. rewrite <- Hid. apply (Hm2 tt eq_refl b Hb).
    by rewrite Hid.
  - intros i Hi. rewrite <- Hmf.
    destruct (Hm1 i) as [?|(Hne & (b & Hb & Hbi) & _)]; [done|].
    exfalso. apply Hne. rewrite Hid. by apply (Hi b).
  - by eapply same_records_trans.
Qed.

(** X12.  However [resolveManually] ends, it writes to no record but the members
    of the first group of the id given; and with an action other than
    "merge_metadata" it does not write to the record to keep either. *)
Theorem resolveManually_writes_to_the_group_only groupId keepId action σ :
  exists groups,
    findAll URL_new URLSearchParams_new now σ = (Normal groups, σ)
    /\ forall i,
         (forall group b,
            List.find (fun g => String.eqb (dg_id g) groupId) groups
            = Some group ->
            b ∈ dg_bookmarks group -> id b = i ->
            i = keepId /\ action <> "merge_metadata") ->
         (resolveManually URL_new URLSearchParams_new now groupId keepId action
            σ).2 !! i = σ !! i.
Proof.
  destruct (findAll_run URL_new URLSearchParams_new now σ)
    as (all & gs & groups & _ & _ & _ & _ & Hfind & _).
  exists groups. split; [done|]. intros i Hi.
  rewrite (resolveManually_run _ _ _ _ _ Hfind).
  destruct (List.find _ groups) as [group|] eqn:Hg; [|done].
  destruct (List.find _ (dg_bookmarks group)) as [keeper|] eqn:Hk; [|done].
  apply find_some in Hk as [Hin Hid]. apply String.eqb_eq in Hid.
  apply list_elem_of_In in Hin. cbn zeta.
  set (duplicates := List.filter _ (dg_bookmarks group)).
  assert (H1 : (merge_step action keeper duplicates σ).2 !! i = σ !! i).
  { destruct (decide (i = id keeper)) as [->|Hne];
      [|by apply merge_step_frame].
    destruct (Hi group keeper eq_refl Hin eq_refl) as [_ Hact].
    unfold merge_data. by rewrite (proj2 (String.eqb_neq _ _) Hact). }
  destruct (merge_step action keeper duplicates σ) as [[[]|e] σ1]; [|done].
  simpl in H1.
  assert (H2 : (mark keeper (dg_bookmarks group) σ1).2 !! i = σ1 !! i).
  { apply mark_duplicates_frame. intros b Hb Hbi.
    destruct (Hi group b eq_refl Hb Hbi) as [-> _]. done. }
  destruct (mark keeper (dg_bookmarks group) σ1) as [[[]|e] σ2];
    simpl in *; congruence.
Qed.

(** X13.  When [resolveManually] with the action "merge_metadata" returns over a
    store that keeps every record under its id, the record kept is stored
    with a title and a list of tags taken from members of the group, none
    of which has a longer title or more tags; with the description of the
    keeper if it had one, and with a description if any member had one;
    and with the [meta] and the duplicate flags that the keeper had. *)
Theorem resolveManually_merges_the_best groupId keepId σ r :
  store_wf σ ->
  (manual groupId keepId "merge_metadata" σ).1 = Normal r ->
  exists groups group keeper kept,
    find_all σ = (Normal groups, σ)
    /\ List.find (fun g => String.eqb (dg_id g) groupId) groups = Some group
    /\ σ !! keepId = Some keeper /\ keeper ∈ dg_bookmarks group
    /\ (manual groupId keepId "merge_metadata" σ).2 !! keepId = Some kept
    /\ (forall m, m ∈ dg_bookmarks group ->
          (String.length (default "" (title m))
           <= String.length (default "" (title kept)))%nat
          /\ (List.length (default [] (tags m))
              <= List.length (default [] (tags kept)))%nat)
    /\ (exists m, m ∈ dg_bookmarks group /\ title kept = title m)
    /\ (exists m, m ∈ dg_bookmarks group /\ tags kept = tags m)
    /\ (truthy (description keeper) = true ->
        description kept = description keeper)
    /\ ((exists m, m ∈ dg_bookmarks group /\ truthy (description m) = true) ->
        truthy (description kept) = true)
    /\ meta kept = meta keeper
    /\ isDuplicate kept = isDuplicate keeper
    /\ duplicateOf kept = duplicateOf keeper.
Proof.
  intros Hwf.
  destruct (findAll_spec URL_new URLSearchParams_new now σ Hwf)
    as (groups & Hfind & _ & Hshape).
  rewrite (resolveManually_run _ _ _ _ _ Hfind).
  destruct (List.find _ groups) as [group|] eqn:Hg; [|done].
  destruct (List.find _ (dg_bookmarks group)) as [keeper|] eqn:Hk; [|done].
  apply find_some in Hk as [Hin Hid]. apply String.eqb_eq in Hid.
  apply list_elem_of_In in Hin. cbn zeta.
  set (duplicates := List.filter _ (dg_bookmarks group)).
  assert (Hgroup : group ∈ groups).
  { apply find_some in Hg as [Hgin _]. by apply list_elem_of_In. }
  assert (Hstored : forall m, m ∈ dg_bookmarks group -> σ !! id m = Some m).
  { intros m Hm. destruct (Hshape group Hgroup) as (_ & Hmem & _).
    by apply Hmem. }
  pose proof (Hstored keeper Hin) as Hkeeper.
  unfold merge_data. cbn [String.eqb Ascii.eqb Bool.eqb andb].
  rewrite Async_bind_run, updateBookmark_run, Hkeeper.
  set (data := foldl merge_if_better _ duplicates).
  destruct (validateBookmark URL_new _); [|done].
  unfold mret, Async_ret. cbn beta iota.
  set (kept := spread keeper (AllData_updates data) (id keeper) now).
  assert (H2 : (mark keeper (dg_bookmarks group) (<[id keeper := kept]> σ)).2
                 !! id keeper = Some kept).
  { rewrite mark_duplicates_frame by done. by rewrite lookup_insert_eq. }
  destruct (mark keeper (dg_bookmarks group) (<[id keeper := kept]> σ))
    as [[[]|e] σ2]; [|done].
  simpl in *. intros _.
  exists groups, group, keeper, kept. subst keepId.
  split; [done|]. split; [done|]. split; [done|]. split; [done|].
  split; [done|].
  destruct (foldl_merge_if_better
              {| data_title := title keeper;
                 data_description := description keeper;
                 data_tags := tags keeper;
                 data_meta := meta keeper |} duplicates)
    as (F1 & F2 & F3 & F4 & F5 & F6 & F7 & F8 & F9).
  fold data in F1, F2, F3, F4, F5, F6, F7, F8, F9. simpl in *.
  assert (Hmember : forall m, m ∈ dg_bookmarks group ->
            m = keeper \/ m ∈ duplicates).
  { intros m Hm. destruct (String.eqb_spec (id m) (id keeper)) as [Heq|Hne].
    - left. pose proof (Hstored m Hm) as Hsm. rewrite Heq, Hkeeper in Hsm.
      by injection Hsm.
    - right. unfold duplicates. apply list_elem_of_In, filter_In.
      split; [by apply list_elem_of_In|].
      by rewrite (proj2 (String.eqb_neq _ _) Hne). }
  assert (Hdup : forall m, m ∈ duplicates -> m ∈ dg_bookmarks group).
  { intros m Hm. unfold duplicates in Hm.
    apply list_elem_of_In, filter_In in Hm as [Hm _].
    by apply list_elem_of_In. }
  split; [|split; [|split; [|split; [|split]]]].
  - intros m [->|Hm]%Hmember; [done|]. split; [by apply F2|by apply F5].
  - destruct F3 as [F3|(m & Hm & F3)]; [by exists keeper|].
    exists m. split; [by apply Hdup|done].
  - destruct F6 as [F6|(m & Hm & F6)]; [by exists keeper|].
    exists m. split; [by apply Hdup|done].
  - done.
  - intros (m & [->|Hm]%Hmember & Hd).
    + by rewrite F7.
    + apply F8. eauto.
  - done.
Qed.
End ManualResolution.

(** ** Automatic resolution: records, results and keepers *)

Section AutoResolution.
Variable URL_new : string -> completion URL.
Variable URLSearchParams_new : string -> list (string * string).
Variable now : Z.

Local Abbreviation find_all := (findAll URL_new URLSearchParams_new now).
Local Abbreviation auto := (autoResolve URL_new URLSearchParams_new now).
Local Abbreviation update := (updateBookmark URL_new now).
Local Abbreviation valid := (validateBookmark URL_new).
Local Abbreviation mark := (mark_duplicates URL_new now).
Local Abbreviation resolve := (resolve_group URL_new now).
Local Abbreviation merge_step := (merge_keeper URL_new now).

Implicit Types (σ : gmap string Bookmark) (b : Bookmark) (g : DuplicateGroup).

Lemma merge_keeper_run options keeper rec σ :
  merge_step options keeper rec σ
  = if opt_mergeMetadata options && ActionKind_eqb (action rec) merge_metadata
    then
      match σ !! id keeper with
      | None => (Throw (Error "Bookmark not found"), σ)
      | Some e =>
          if valid (spread e (keeper_updates keeper (merge rec)) (id keeper) now)
          then (Normal tt,
                <[id keeper := spread e (keeper_updates keeper (merge rec))
                                 (id keeper) now]> σ)
          else (Throw (Error "Invalid bookmark"), σ)
      end
    else (Normal tt, σ).
Proof.
  unfold merge_keeper. destruct (_ && _); [|done].
  rewrite Async_bind_run, updateBookmark_run.
  destruct (σ !! id keeper) as [e|]; [|done].
  by destruct (valid _).
Qed.

Lemma resolve_group_run options results g σ :
  resolve options results g σ
  = if dg_count g <? 2 then (Normal results, σ)
    else
      match keeper_of g with
      | None => (Normal results, σ)
      | Some keeper =>
          match merge_step options keeper (dg_recommendedAction g) σ with
          | (Normal _, σ1) =>
              match mark keeper (dg_bookmarks g) σ1 with
              | (Normal _, σ2) =>
                  (Normal (results ++
                     [{| res_group := dg_id g;
                         res_kept := id keeper;
                         res_removed :=
                           List.map id
                             (List.filter
                                (fun b => negb (String.eqb (id b) (id keeper)))
                                (dg_bookmarks g));
                         res_action := action (dg_recommendedAction g) |}])%list,
                   σ2)
              | (Throw e, σ2) => (Throw e, σ2)
              end
          | (Throw e, σ1) => (Throw e, σ1)
          end
      end.
Proof.
  unfold resolve_group, keeper_of.
  destruct (dg_count g <? 2); [done|].
  destruct (List.find _ (dg_bookmarks g)) as [keeper|]; [|done].
  rewrite Async_bind_run.
  fold (merge_keeper URL_new now options keeper (dg_recommendedAction g)).
  destruct (merge_step options keeper (dg_recommendedAction g) σ)
    as [[[]|e] σ1]; [|done].
  rewrite Async_bind_run.
  by destruct (mark keeper (dg_bookmarks g) σ1) as [[[]|?] ?].
Qed.

Lemma merge_keeper_frame options keeper rec σ i :
  i <> id keeper -> (merge_step options keeper rec σ).2 !! i = σ !! i.
Proof.
  intros Hi. rewrite merge_keeper_run. destruct (_ && _); [|done].
  destruct (σ !! id keeper) as [e|]; [|done].
  destruct (valid _); [|done]. simpl. by rewrite lookup_insert_ne.
Qed.

Lemma merge_keeper_same_records options keeper rec σ :
  store_wf σ ->
  store_wf (merge_step options keeper rec σ).2
  /\ same_records σ (merge_step options keeper rec σ).2.
Proof.
  intros Hwf. unfold merge_keeper.
  destruct (_ && _); [|split; [done|apply same_records_refl]].
  rewrite Async_bind_run.
  pose proof (updateBookmark_store_wf URL_new now (id keeper)
                (keeper_updates keeper (merge rec)) σ Hwf) as W.
  pose proof (updateBookmark_same_records URL_new now (id keeper)
                (keeper_updates keeper (merge rec)) σ Hwf) as S.
  by destruct (update (id keeper) (keeper_updates keeper (merge rec)) σ)
    as [[?|?] ?].
Qed.

Lemma keeper_of_member g keeper :
  keeper_of g = Some keeper ->
  keeper ∈ dg_bookmarks g /\ id keeper = keep (dg_recommendedAction g).
Proof.
  unfold keeper_of. intros [Hin Hid]%find_some.
  split; [by apply list_elem_of_In|by apply String.eqb_eq].
Qed.

(** A turn of the loop of [autoResolve] writes to the members of its group
    only, keeps every record and its origin, and keeps the store keyed by
    id. *)
Lemma resolve_group_frame options results g σ i :
  (forall b, b ∈ dg_bookmarks g -> id b <> i) ->
  (resolve options results g σ).2 !! i = σ !! i.
Proof.
  intros Hi. rewrite resolve_group_run.
  destruct (dg_count g <? 2); [done|].
  destruct (keeper_of g) as [keeper|] eqn:Hk; [|done].
  apply keeper_of_member in Hk as [Hin _].
  pose proof (merge_keeper_frame options keeper (dg_recommendedAction g) σ i
                ltac:(intros ->; by apply (Hi keeper))) as H1.
  destruct (merge_step options keeper (dg_recommendedAction g) σ)
    as [[[]|e] σ1]; [|done].
  simpl in H1. rewrite <- H1.
  pose proof (mark_duplicates_frame URL_new now keeper (dg_bookmarks g) σ1 i)
    as H2.
  destruct (mark keeper (dg_bookmarks g) σ1) as [[[]|e] σ2]; simpl in *;
    apply H2; intros b Hb Hbi; by destruct (Hi b Hb).
Qed.

Lemma resolve_group_same_records options results g σ :
  store_wf σ ->
  store_wf (resolve options results g σ).2
  /\ same_records σ (resolve options results g σ).2.
Proof.
  intros Hwf. rewrite resolve_group_run.
  destruct (dg_count g <? 2); [split; [done|apply same_records_refl]|].
  destruct (keeper_of g) as [keeper|];
    [|split; [done|apply same_records_refl]].
  destruct (merge_keeper_same_records options keeper
              (dg_recommendedAction g) σ Hwf) as [W1 S1].
  destruct (merge_step options keeper (dg_recommendedAction g) σ)
    as [[[]|e] σ1]; [|done].
  simpl in W1, S1.
  destruct (mark_duplicates_same_records URL_new now keeper
              (dg_bookmarks g) σ1 W1) as [W2 S2].
  destruct (mark keeper (dg_bookmarks g) σ1) as [[[]|e] σ2]; simpl in *;
    (split; [done|by eapply same_records_trans]).
Qed.

Lemma findAll_keepers σ :
  exists groups,
    find_all σ = (Normal groups, σ)
    /\ forall g, g ∈ groups ->
         2 <= dg_count g
         /\ recommendAction now (dg_bookmarks g)
            = Normal (dg_recommendedAction g)
         /\ exists keeper, keeper_of g = Some keeper.
Proof.
  destruct (findAll_run URL_new URLSearchParams_new now σ)
    as (all & gs & groups & _ & _ & _ & Hgin & Hfind & HF).
  exists groups. split; [done|]. intros dg Hdg.
  destruct (proj1 (list_elem_of_lookup _ _) Hdg) as [n Hn].
  destruct (Forall2_lookup_r _ _ _ _ _ HF Hn) as (g & Hg & Hd).
  apply describe_group_fields in Hd as (_ & _ & Hbs & Hcount & _ & Hrec).
  assert (Hg' : g ∈ gs) by (apply list_elem_of_lookup; eauto).
  pose proof (proj1 (Hgin g) Hg') as [_ Hlen].
  split; [lia|]. split; [by rewrite Hbs|].
  destruct (keeper_of_found now dg) as (keeper & Hk & _).
  - rewrite Hbs. destruct (bookmarks g); [simpl in Hlen; lia|done].
  - by rewrite Hbs.
  - eauto.
Qed.

Lemma autoResolve_run options σ groups :
  find_all σ = (Normal groups, σ) ->
  auto options σ = for_of groups (resolve options) [] σ.
Proof. intros H. unfold autoResolve. by rewrite Async_bind_run, H. Qed.

(** X5.  However [autoResolve] ends over a store that keeps every record under
    its id, the store is still so, every record is still there with its
    url, category, dates added and visited, visit count and broken flag,
    and the records that are in no group that [findAll] returned are as
    they were. *)
Theorem autoResolve_keeps_every_record options σ :
  store_wf σ ->
  store_wf (auto options σ).2
  /\ same_records σ (auto options σ).2
  /\ exists groups,
       find_all σ = (Normal groups, σ)
       /\ forall i,
            (forall g b, g ∈ groups -> b ∈ dg_bookmarks g -> id b <> i) ->
            (auto options σ).2 !! i = σ !! i.
Proof.
  intros Hwf. destruct (findAll_keepers σ) as (groups & Hfind & _).
  rewrite (autoResolve_run _ _ _ Hfind).
  assert (H : store_wf (for_of groups (resolve options) [] σ).2
              /\ same_records σ (for_of groups (resolve options) [] σ).2).
  { apply (for_of_invariant (fun σc => store_wf σc /\ same_records σ σc));
      [|split; [done|apply same_records_refl]].
    intros rs g σc _ [W S].
    destruct (resolve_group_same_records options rs g σc W) as [W' S'].
    split; [done|by eapply same_records_trans]. }
  destruct H as [W S]. split; [done|]. split; [done|].
  exists groups. split; [done|]. intros i Hi.
  apply (for_of_invariant (fun σc => σc !! i = σ !! i)); [|done].
  intros rs g σc Hg Hc. rewrite resolve_group_frame; [done|].
  intros b Hb. by apply (Hi g).
Qed.

(** X6.  When [autoResolve] returns, its result has one entry for each group
    that [findAll] returned, in the same order: the id of the group, as
    kept the id that [recommendAction] chose, as removed the ids of the
    other members, and the action recommended. *)
Theorem autoResolve_reports_every_group options σ :
  exists groups,
    find_all σ = (Normal groups, σ)
    /\ forall results,
         (auto options σ).1 = Normal results ->
         results = resolution_of <$> groups.
Proof.
  destruct (findAll_keepers σ) as (groups & Hfind & Hgroups).
  exists groups. split; [done|]. rewrite (autoResolve_run _ _ _ Hfind).
  assert (H : forall acc σc results,
            (for_of groups (resolve options) acc σc).1 = Normal results ->
            results = (acc ++ (resolution_of <$> groups))%list).
  { clear Hfind. induction groups as [|g gs IH]; intros acc σc results.
    { simpl. intros [= <-]. by rewrite app_nil_r. }
    rewrite for_of_cons, resolve_group_run.
    destruct (Hgroups g ltac:(by left)) as (Hcount & _ & keeper & Hk).
    destruct (Z.ltb_spec (dg_count g) 2) as [?|_]; [lia|]. rewrite Hk.
    apply keeper_of_member in Hk as [_ Hid].
    destruct (merge_step options keeper (dg_recommendedAction g) σc)
      as [[[]|e] σ1]; [|done].
    destruct (mark keeper (dg_bookmarks g) σ1) as [[[]|e] σ2]; [|done].
    intros Hr. apply IH in Hr; [|intros g' Hg'; apply Hgroups; by right].
    rewrite Hr, <- app_assoc. csimpl. unfold resolution_of at 2.
    by rewrite Hid. }
  intros results Hr. by apply H in Hr.
Qed.

Lemma mergeTitles_member records :
  mergeTitles records <> "" ->
  exists b, b ∈ records /\ title b = Some (mergeTitles records).
Proof.
  unfold mergeTitles.
  set (titles := List.filter nonblank (List.map title records)).
  pose proof (Array_sort_by_Permutation
                (fun x y => Qle_bool (length_of y - length_of x) 0) titles)
    as Hperm.
  unfold Array_sort.
  destruct (Array_sort_by _ titles) as [|t sorted] eqn:E; [done|].
  intros Hne.
  assert (Ht : t ∈ titles) by (rewrite <- Hperm; by left).
  unfold titles in Ht. apply list_elem_of_In, filter_In in Ht as [Hin Hnb].
  apply in_map_iff in Hin as (b & Hb & Hin).
  exists b. split; [by apply list_elem_of_In|].
  rewrite Hb. destruct t as [s|]; [done|]. done.
Qed.

(** Validity is a property of the title and a property of the url. *)
Lemma validateBookmark_mix a b c :
  title c = title a -> url c = url b ->
  valid a = true -> valid b = true -> valid c = true.
Proof.
  unfold validateBookmark. intros -> ->.
  destruct (nonblank (title a)); destruct (nonblank (title b));
    destruct (truthy (url a)); destruct (truthy (url b));
    destruct (validateUrl URL_new (default "" (url a)));
    destruct (validateUrl URL_new (default "" (url b)));
    destruct (truthy (title a) && _);
    destruct (truthy (title b) && _);
    cbn; congruence.
Qed.

Lemma updateBookmark_is_Some i u σ j :
  is_Some (σ !! j) -> is_Some ((update i u σ).2 !! j).
Proof.
  intros Hj. rewrite updateBookmark_run.
  destruct (σ !! i) as [e|]; [|done].
  destruct (valid _); [|done]. simpl.
  destruct (decide (j = i)) as [->|Hne].
  - by rewrite lookup_insert_eq.
  - by rewrite lookup_insert_ne.
Qed.

Lemma mark_duplicates_returns keeper members σ0 σ :
  store_valid URL_new σ ->
  (forall j, is_Some (σ0 !! j) -> is_Some (σ !! j)) ->
  (forall b, b ∈ members -> is_Some (σ0 !! id b)) ->
  (mark keeper members σ).1 = Normal tt
  /\ store_valid URL_new (mark keeper members σ).2
  /\ (forall j, is_Some (σ0 !! j) -> is_Some ((mark keeper members σ).2 !! j)).
Proof.
  intros Hv Hdom Hmem. unfold mark_duplicates.
  destruct (for_of_Normal
              (fun σc => store_valid URL_new σc
                         /\ forall j, is_Some (σ0 !! j) -> is_Some (σc !! j))
              members
              (fun _ bookmark =>
                 if negb (String.eqb (id bookmark) (id keeper))
                 then _ ← update (id bookmark) (duplicate_mark keeper); mret tt
                 else mret tt)
              tt σ) as ([] & Hn & Hv' & Hdom'); [| |done].
  - intros [] b σc Hb [Hvc Hdc]. destruct (negb _); [|by exists tt].
    rewrite Async_bind_run.
    pose proof (updateBookmark_store_valid URL_new now (id b)
                  (duplicate_mark keeper) σc Hvc) as Hv1.
    assert (Hd1 : forall j, is_Some (σ0 !! j) ->
              is_Some ((update (id b) (duplicate_mark keeper) σc).2 !! j)).
    { intros j Hj. by apply updateBookmark_is_Some, Hdc. }
    rewrite updateBookmark_run in *.
    destruct (Hdc (id b) (Hmem b Hb)) as [e He]. rewrite He in *.
    rewrite validateBookmark_spread in * by done.
    rewrite (Hvc _ _ He) in *. by exists tt.
  - done.
Qed.

(** X7.  Over a store whose records are valid and kept under their ids,
    [autoResolve] returns: no update it makes is refused. *)
Theorem autoResolve_returns_on_valid_store options σ :
  store_wf σ -> store_valid URL_new σ ->
  exists results, (auto options σ).1 = Normal results.
Proof.
  intros Hwf Hv.
  destruct (findAll_spec URL_new URLSearchParams_new now σ Hwf)
    as (groups & Hfind & _ & Hgroups).
  destruct (findAll_keepers σ) as (groups' & Hfind' & Hrec).
  rewrite Hfind in Hfind'. injection Hfind' as <-.
  rewrite (autoResolve_run _ _ _ Hfind).
  destruct (for_of_Normal
              (fun σc => store_valid URL_new σc
                         /\ forall j, is_Some (σ !! j) -> is_Some (σc !! j))
              groups (resolve options) [] σ) as (rs & Hn & _); [| |eauto].
  2:{ done. }
  intros acc g σc Hg [Hvc Hdc]. rewrite resolve_group_run.
  destruct (Hgroups g Hg) as (Hcount & Hmem & keeper & Hk & Hkin & Hkid).
  destruct (Hrec g Hg) as (_ & Hrecg & _).
  destruct (Z.ltb_spec (dg_count g) 2) as [?|_]; [lia|]. rewrite Hk.
  assert (Hstored : forall b, b ∈ dg_bookmarks g -> is_Some (σ !! id b)).
  { intros b Hb. destruct (Hmem b Hb) as [-> _]. eauto. }
  assert (H1 : exists σ1,
            merge_step options keeper (dg_recommendedAction g) σc
            = (Normal tt, σ1)
            /\ store_valid URL_new σ1
            /\ forall j, is_Some (σ !! j) -> is_Some (σ1 !! j)).
  { rewrite merge_keeper_run. destruct (_ && _); [|by exists σc].
    destruct (Hdc (id keeper) (Hstored keeper Hkin)) as [e He]. rewrite He.
    assert (Hvalid : valid (spread e
                              (keeper_updates keeper
                                 (merge (dg_recommendedAction g)))
                              (id keeper) now) = true).
    { destruct (recommendAction_inv now _ _ Hrecg) as (_ & _ & Hmt & _).
      destruct (truthy (Some (merged_title (merge (dg_recommendedAction g)))))
        eqn:Ht.
      - destruct (mergeTitles_member (dg_bookmarks g)) as (b & Hb & Htb).
        { rewrite <- Hmt. intros E. by rewrite E in Ht. }
        apply (validateBookmark_mix b e).
        + simpl. simpl in Ht. by rewrite Ht, Htb, Hmt.
        + done.
        + destruct (Hmem b Hb) as [Hsb _]. by apply (Hv _ _ Hsb).
        + by apply (Hvc _ _ He).
      - apply (validateBookmark_mix keeper e).
        + simpl. simpl in Ht. by rewrite Ht.
        + done.
        + destruct (Hmem keeper Hkin) as [Hsk _]. by apply (Hv _ _ Hsk).
        + by apply (Hvc _ _ He). }
    rewrite Hvalid. eexists. split; [done|]. split.
    - intros j b. destruct (decide (j = id keeper)) as [->|Hj].
      + rewrite lookup_insert_eq. by intros [= <-].
      + rewrite lookup_insert_ne by done. apply Hvc.
    - intros j Hj. destruct (decide (j = id keeper)) as [->|Hne].
      + by rewrite lookup_insert_eq.
      + rewrite lookup_insert_ne by done. by apply Hdc. }
  destruct H1 as (σ1 & -> & Hv1 & Hd1).
  destruct (mark_duplicates_returns keeper (dg_bookmarks g) σ σ1 Hv1 Hd1 Hstored)
    as (Hm & Hv2 & Hd2).
  destruct (mark keeper (dg_bookmarks g) σ1) as [[[]|e] σ2]; [|done].
  eexists. split; [done|]. done.
Qed.


End AutoResolution.

(** ** Order of parameters, records and members *)

Lemma String_leb_trans s1 s2 s3 :
  String.leb s1 s2 = true -> String.leb s2 s3 = true -> String.leb s1 s3 = true.
Proof.
  unfold String.leb. revert s2 s3.
  induction s1 as [|c1 s1 IH]; intros [|c2 s2] [|c3 s3]; simpl; try done.
  unfold Ascii.compare.
  destruct (N.compare_spec (N_of_ascii c1) (N_of_ascii c2)) as [E12|L12|G12];
    destruct (N.compare_spec (N_of_ascii c2) (N_of_ascii c3)) as [E23|L23|G23];
    try done.
  - rewrite E12, E23, N.compare_refl. apply IH.
  - rewrite E12. intros _ _. by apply N.compare_lt_iff in L23 as ->.
  - rewrite <- E23. intros _ _. by apply N.compare_lt_iff in L12 as ->.
  - intros _ _.
    assert (L13 : (N_of_ascii c1 < N_of_ascii c3)%N) by lia.
    by apply N.compare_lt_iff in L13 as ->.
Qed.

Lemma Array_sort_default_sorted l :
  StronglySorted (fun a b => String.leb a b = true) (Array_sort_default l).
Proof.
  apply (Array_sort_by_sorted _ _ (fun _ => True)).
  - done.
  - intros a b _ _ E. destruct (String.leb_total a b); congruence.
  - intros a b c _ _ _. apply String_leb_trans.
  - by apply Forall_forall.
Qed.

(** [sort()] gives one result for all the orders of the same strings. *)
Lemma Array_sort_default_Permutation l1 l2 :
  l1 ≡ₚ l2 -> Array_sort_default l1 = Array_sort_default l2.
Proof.
  intros Hp.
  apply (StronglySorted_unique_strong (fun a b => String.leb a b = true)).
  - intros x y _ _. apply String.leb_antisym.
  - apply Array_sort_default_sorted.
  - apply Array_sort_default_sorted.
  - unfold Array_sort_default. by rewrite !Array_sort_by_Permutation.
Qed.

Lemma List_filter_Permutation {A} (p : A -> bool) (l1 l2 : list A) :
  l1 ≡ₚ l2 -> List.filter p l1 ≡ₚ List.filter p l2.
Proof.
  induction 1 as [|x l1 l2 _ IH|x y l|l1 l2 l3 _ IH1 _ IH2]; simpl.
  - done.
  - destruct (p x); by rewrite IH.
  - destruct (p x), (p y); try done. apply Permutation_swap.
  - by etransitivity.
Qed.

Lemma existsb_Permutation {A} (p : A -> bool) (l1 l2 : list A) :
  l1 ≡ₚ l2 -> existsb p l1 = existsb p l2.
Proof.
  intros Hp. apply eq_true_iff_eq. rewrite !existsb_exists.
  split; intros (x & Hx & Hpx); exists x; (split; [|done]).
  - by rewrite <- Hp.
  - by rewrite Hp.
Qed.

Section NormalizerOrder.
Variable URL_new : string -> completion URL.
Variable URLSearchParams_new : string -> list (string * string).

Local Abbreviation normalize := (normalizeUrl URL_new URLSearchParams_new).

(** X22.  Two URLs that parse to the same host name, path and fragment, and whose
    search parameters, the tracking parameters left out, are the same up
    to their order, have the same normalized form, whatever their
    protocols. *)
Theorem normalizeUrl_ignores_order_and_tracking u1 u2 o1 o2 :
  URL_new u1 = Normal o1 -> URL_new u2 = Normal o2 ->
  hostname o1 = hostname o2 -> pathname o1 = pathname o2 ->
  hash o1 = hash o2 ->
  untracked (URLSearchParams_new (search o1))
    ≡ₚ untracked (URLSearchParams_new (search o2)) ->
  normalize u1 = normalize u2.
Proof.
  intros H1 H2 Hhost Hpath Hhash Hq.
  unfold normalizeUrl, normalizeUrl_try. rewrite H1, H2.
  cbn [mbind completion_bind try_catch mret completion_ret]. cbv zeta.
  rewrite Hhost, Hpath, Hhash. unfold untracked in Hq.
  set (c1 := List.filter _ (URLSearchParams_new (search o1))) in *.
  set (c2 := List.filter _ (URLSearchParams_new (search o2))) in *.
  rewrite !length_map, (Permutation_length Hq).
  destruct (0 <? _)%nat; [|done].
  do 4 f_equal. apply Array_sort_default_Permutation.
  by apply Permutation_map.
Qed.
End NormalizerOrder.

Section GrouperOrder.
Variable URL_new : string -> completion URL.
Variable URLSearchParams_new : string -> list (string * string).

Local Abbreviation shared := (sharing URL_new URLSearchParams_new).
Local Abbreviation entry := (group_for URL_new URLSearchParams_new).
Local Abbreviation group := (groupDuplicates URL_new URLSearchParams_new).

(** X24.  The groups do not depend on the order of the records, but for the
    order of the groups and of the members: for the same records in
    another order there are groups of the same normalized URLs and ids,
    with the same members. *)
Theorem groupDuplicates_permutation (records records' : list Bookmark) :
  records ≡ₚ records' ->
  exists groups groups',
    group records = Normal groups
    /\ group records' = Normal groups'
    /\ normalizedUrl <$> groups ≡ₚ normalizedUrl <$> groups'
    /\ forall g, g ∈ groups ->
         exists g', g' ∈ groups'
           /\ group_id g' = group_id g
           /\ normalizedUrl g' = normalizedUrl g
           /\ bookmarks g' ≡ₚ bookmarks g.
Proof.
  intros Hp.
  destruct (groupDuplicates_groups URL_new URLSearchParams_new records)
    as (groups & Hg & Hnd & Hin).
  destruct (groupDuplicates_groups URL_new URLSearchParams_new records')
    as (groups' & Hg' & Hnd' & Hin').
  exists groups, groups'. split; [done|]. split; [done|].
  assert (Hshared : forall k, shared k records ≡ₚ shared k records').
  { intros k. by apply List_filter_Permutation. }
  assert (Hto : forall (rs rs' : list Bookmark) (gs gs' : list Group),
            (forall k, shared k rs ≡ₚ shared k rs') ->
            (forall g, g ∈ gs <->
               entry (normalizedUrl g) rs = Some g
               /\ (2 <= List.length (bookmarks g))%nat) ->
            (forall g, g ∈ gs' <->
               entry (normalizedUrl g) rs' = Some g
               /\ (2 <= List.length (bookmarks g))%nat) ->
            forall g, g ∈ gs ->
              exists g', g' ∈ gs'
                /\ group_id g' = group_id g
                /\ normalizedUrl g' = normalizedUrl g
                /\ bookmarks g' ≡ₚ bookmarks g).
  { intros rs rs' gs gs' Hsh Hgs Hgs' g [Hentry Hlen]%Hgs.
    pose proof (group_for_id _ _ _ _ _ Hentry) as Hid.
    destruct (group_for_Some _ _ _ _ _ Hentry) as (_ & Hbs & _).
    rewrite Hbs in Hlen.
    assert (Hlen' : (2 <= List.length (shared (normalizedUrl g) rs'))%nat).
    { by rewrite <- (Permutation_length (Hsh (normalizedUrl g))). }
    destruct (entry (normalizedUrl g) rs') as [g'|] eqn:Hentry'.
    2:{ unfold group_for in Hentry'.
        destruct (shared (normalizedUrl g) rs'); [simpl in Hlen'; lia|done]. }
    pose proof (group_for_id _ _ _ _ _ Hentry') as Hid'.
    destruct (group_for_Some _ _ _ _ _ Hentry') as (Hn' & Hbs' & _).
    exists g'. split; [|split; [congruence|split; [done|]]].
    - apply Hgs'. rewrite Hn', Hbs'. done.
    - rewrite Hbs, Hbs'. symmetry. apply Hsh. }
  split; [|by apply (Hto records records')].
  apply NoDup_Permutation; [done|done|]. intros k.
  rewrite !list_elem_of_fmap. split.
  - intros (g & -> & Hgin).
    destruct (Hto records records' groups groups' Hshared Hin Hin' g Hgin)
      as (g' & Hg'in & _ & Hn & _).
    exists g'. done.
  - intros (g' & -> & Hg'in).
    destruct (Hto records' records groups' groups
                (fun k => symmetry (Hshared k)) Hin' Hin g' Hg'in)
      as (g & Hgin & _ & Hn & _).
    exists g. done.
Qed.
End GrouperOrder.

Section RecommenderEdges.
Variable now : Z.

(** X25.  The action recommended for a group does not depend on the order of its
    members. *)
Theorem determineAction_permutation (records records' : list Bookmark) :
  records ≡ₚ records' -> determineAction records = determineAction records'.
Proof.
  intros Hp. unfold determineAction.
  by rewrite !(existsb_Permutation _ _ _ Hp).
Qed.

(** X26.  [recommendAction] throws a [TypeError] for the empty group, and for no
    other: for a group with a member it returns. *)
Theorem recommendAction_throws_on_empty_group_only (records : list Bookmark) :
  (records = [] ->
   exists msg, recommendAction now records = Throw (TypeError msg))
  /\ (records <> [] -> exists r, recommendAction now records = Normal r)
  /\ ((exists e, recommendAction now records = Throw e) <-> records = []).
Proof.
  split; [intros ->; by eexists|].
  assert (Hne : records <> [] -> exists r, recommendAction now records = Normal r).
  { intros H. destruct (recommendAction_first_max now records H)
      as (r & _ & -> & _). eauto. }
  split; [done|]. split.
  - intros [e He]. destruct records as [|b bs]; [done|].
    destruct Hne as [r Hr]; [done|]. congruence.
  - intros ->. by eexists.
Qed.
End RecommenderEdges.

(** ** Equivalent URLs, and the statistics after a resolution *)

Lemma toLowerCase_app a b : toLowerCase (a ++ b) = toLowerCase a ++ toLowerCase b.
Proof.
  induction a as [|c a IH]; [done|].
  change (String (lower_char c) (toLowerCase (a ++ b))
          = String (lower_char c) (toLowerCase a ++ toLowerCase b)).
  by rewrite IH.
Qed.

Lemma length_app_slash p : String.length (p ++ "/") = S (String.length p).
Proof.
  induction p as [|c p IH]; [done|].
  change (S (String.length (p ++ "/")) = S (S (String.length p))).
  by rewrite IH.
Qed.

Lemma app_slash_cons p : exists d s, p ++ "/" = String d s.
Proof. destruct p as [|c p]; [by exists "/"%char, ""|]. by exists c, (p ++ "/"). Qed.

Lemma endsWith_app_slash p : endsWith (p ++ "/") "/" = true.
Proof.
  induction p as [|c p IH]; [done|].
  change (String c p ++ "/") with (String c (p ++ "/")).
  destruct (app_slash_cons p) as (d & s & E). rewrite E in *.
  by rewrite endsWith_slash_cons.
Qed.

Lemma slice_app_slash p : slice_0_m1 (p ++ "/") = p.
Proof.
  induction p as [|c p IH]; [done|].
  change (String c p ++ "/") with (String c (p ++ "/")).
  destruct (app_slash_cons p) as (d & s & E). rewrite E in *.
  change (slice_0_m1 (String c (String d s)))
    with (String c (slice_0_m1 (String d s))).
  by rewrite IH.
Qed.

Lemma replace_start_www_app s : replace_start re_www ("www." ++ s) = s.
Proof.
  unfold re_www. rewrite replace_start_lits. unfold strip_leading.
  change ("www." ++ s) with (String "w" (String "w" (String "w" (String "." s)))).
  rewrite !prefix_cons, prefix_nil. done.
Qed.

Lemma replace_start_www_none s :
  startsWith s "www." = false -> replace_start re_www s = s.
Proof.
  intros H. unfold re_www. rewrite replace_start_lits. unfold strip_leading.
  unfold startsWith in H. by rewrite H.
Qed.

Section NormalizerEquivalences.
Variable URL_new : string -> completion URL.
Variable URLSearchParams_new : string -> list (string * string).

Local Abbreviation normalize := (normalizeUrl URL_new URLSearchParams_new).

(** X23.  A [www.] in front of the host name and a slash at the end of a path
    that is not the root make no difference, nor does the protocol: two
    URLs that parse to the same search parameters and fragment, to the
    same host name but for a leading [www.], and to the same path but for
    a trailing slash, have the same normalized form. *)
Theorem normalizeUrl_ignores_www_and_trailing_slash u1 u2 o1 o2 :
  URL_new u1 = Normal o1 -> URL_new u2 = Normal o2 ->
  (hostname o2 = hostname o1
   \/ hostname o2 = "www." ++ hostname o1
      /\ startsWith (toLowerCase (hostname o1)) "www." = false) ->
  (pathname o2 = pathname o1
   \/ pathname o2 = pathname o1 ++ "/"
      /\ pathname o1 <> "" /\ endsWith (pathname o1) "/" = false) ->
  hash o2 = hash o1 -> search o2 = search o1 ->
  normalize u1 = normalize u2.
Proof.
  intros H1 H2 Hhost Hpath Hhash Hsearch.
  unfold normalizeUrl, normalizeUrl_try. rewrite H1, H2.
  cbn [mbind completion_bind try_catch mret completion_ret]. cbv zeta.
  rewrite Hhash, Hsearch.
  assert (Eh : replace_start re_www (toLowerCase (hostname o2))
               = replace_start re_www (toLowerCase (hostname o1))).
  { destruct Hhost as [->|[-> Hno]]; [done|].
    rewrite toLowerCase_app.
    change (toLowerCase "www.") with "www.".
    by rewrite replace_start_www_app, replace_start_www_none. }
  assert (Ep : (if (1 <? String.length (pathname o2))%nat
                   && endsWith (pathname o2) "/"
                then slice_0_m1 (pathname o2) else pathname o2)
               = (if (1 <? String.length (pathname o1))%nat
                     && endsWith (pathname o1) "/"
                  then slice_0_m1 (pathname o1) else pathname o1)).
  { destruct Hpath as [->|(-> & Hne & Hend)]; [done|].
    rewrite Hend, andb_false_r, length_app_slash, endsWith_app_slash,
      slice_app_slash.
    destruct (pathname o1) as [|c p]; [done|]. done. }
  by rewrite Eh, Ep.
Qed.
End NormalizerEquivalences.

Lemma filter_count_fmap {A B} (f : A -> B) (p : B -> bool) (l : list A) :
  List.length (List.filter (fun x => p (f x)) l)
  = List.length (List.filter p (f <$> l)).
Proof.
  induction l as [|x l IH]; [done|]. csimpl.
  destruct (p (f x)); simpl; by rewrite IH.
Qed.

Lemma foldr_sum_Permutation (l1 l2 : list Z) :
  l1 ≡ₚ l2 -> foldr Z.add 0 l1 = foldr Z.add 0 l2.
Proof.
  induction 1 as [|x l1 l2 _ IH|x y l|l1 l2 l3 _ IH1 _ IH2]; simpl; lia.
Qed.

Section StatisticsInvariance.
Variable URL_new : string -> completion URL.
Variable URLSearchParams_new : string -> list (string * string).
Variable now : Z.

Local Abbreviation key := (key_of URL_new URLSearchParams_new).
Local Abbreviation shared := (sharing URL_new URLSearchParams_new).
Local Abbreviation entry := (group_for URL_new URLSearchParams_new).
Local Abbreviation find_all := (findAll URL_new URLSearchParams_new now).
Local Abbreviation statistics :=
  (getStatistics URL_new URLSearchParams_new now).
Local Abbreviation auto := (autoResolve URL_new URLSearchParams_new now).

Implicit Types (σ : gmap string Bookmark).

(** The statistics as a function of the member counts of the groups. *)
Lemma getStatistics_of_counts σ :
  exists counts : list (string * nat),
    NoDup counts.*1
    /\ (forall k n, (k, n) ∈ counts <->
          n = List.length (List.filter (fun o => bool_decide (o = Some k))
                             (key <$> (map_to_list σ).*2))
          /\ (2 <= n)%nat)
    /\ (statistics σ).1
       = Normal
           {| totalGroups := Z.of_nat (List.length counts);
              totalDuplicates := foldr Z.add 0 ((fun c => Z.of_nat c.2) <$> counts);
              totalBookmarksAffected :=
                foldr Z.add 0 ((fun c => Z.of_nat c.2) <$> counts);
              severityCounts :=
                {| count_critical :=
                     Z.of_nat (List.length
                       (List.filter
                          (fun n => Severity_eqb (calculateSeverity n) critical)
                          ((fun c => Z.of_nat c.2) <$> counts)));
                   count_high :=
                     Z.of_nat (List.length
                       (List.filter
                          (fun n => Severity_eqb (calculateSeverity n) high)
                          ((fun c => Z.of_nat c.2) <$> counts)));
                   count_medium :=
                     Z.of_nat (List.length
                       (List.filter
                          (fun n => Severity_eqb (calculateSeverity n) medium)
                          ((fun c => Z.of_nat c.2) <$> counts))) |};
              resolution := {| autoResolved := 0; manualResolution := 0 |} |}.
Proof.
  destruct (findAll_run URL_new URLSearchParams_new now σ)
    as (all & gs & groups & Hall & Hperm & Hnd & Hgin & Hfind & HF).
  exists ((fun g => (normalizedUrl g, List.length (bookmarks g))) <$> gs).
  assert (Hcount : forall k,
            List.length (shared k all)
            = List.length (List.filter (fun o => bool_decide (o = Some k))
                             (key <$> (map_to_list σ).*2))).
  { intros k.
    transitivity (List.length
                    (List.filter (fun o => bool_decide (o = Some k))
                       (key <$> all))).
    - by rewrite <- (filter_count_fmap key (fun o => bool_decide (o = Some k))).
    - apply Permutation_length, List_filter_Permutation.
      by apply fmap_Permutation. }
  split; [|split].
  - rewrite <- list_fmap_compose. exact Hnd.
  - intros k n. rewrite list_elem_of_fmap. split.
    + intros (g & [= -> ->] & [Hentry Hlen]%Hgin).
      apply group_for_Some in Hentry as (_ & Hbs & _).
      split; [|done]. by rewrite Hbs, Hcount.
    + intros [-> Hlen]. rewrite <- Hcount in Hlen |- *.
      destruct (entry k all) as [g|] eqn:Hentry.
      2:{ unfold group_for in Hentry.
          destruct (shared k all); [simpl in Hlen; lia|done]. }
      destruct (group_for_Some _ _ _ _ _ Hentry) as (Hn & Hbs & _).
      exists g. rewrite Hn, Hbs. split; [done|].
      apply Hgin. by rewrite Hn, Hbs.
  - unfold getStatistics. rewrite Async_bind_run, Hfind.
    cbn [fst mret Async_ret]. unfold mret, Async_ret. cbn [fst].
    assert (Hcounts : dg_count <$> groups
                      = (fun c => Z.of_nat c.2)
                          <$> ((fun g => (normalizedUrl g,
                                          List.length (bookmarks g))) <$> gs)).
    { clear -HF. induction HF as [|g dg gs groups Hd _ IH]; [done|].
      apply describe_group_fields in Hd as (_ & _ & _ & Hc & _).
      csimpl. by rewrite IH, Hc. }
    assert (Hsev : forall s,
              List.length
                (List.filter (fun g => Severity_eqb (dg_severity g) s) groups)
              = List.length
                  (List.filter (fun n => Severity_eqb (calculateSeverity n) s)
                     (dg_count <$> groups))).
    { intros s. rewrite <- filter_count_fmap. clear -HF.
      induction HF as [|g dg gs groups Hd _ IH]; [done|].
      apply describe_group_fields in Hd as (_ & _ & _ & Hc & Hs & _).
      simpl. rewrite Hs, Hc.
      destruct (Severity_eqb _ s); simpl; by rewrite IH. }
    rewrite foldl_counts, Z.add_0_l, !Hsev, <- Hcounts.
    do 2 f_equal.
    + by rewrite length_fmap, <- (length_fmap dg_count), Hcounts, !length_fmap.
    + clear. induction groups as [|g l IH]; [done|]. csimpl. by rewrite IH.
    + clear. induction groups as [|g l IH]; [done|]. csimpl. by rewrite IH.
Qed.

(** The statistics are those of the urls: two stores that hold records of
    the same urls under the same ids have the same statistics. *)
Lemma getStatistics_same_records σ σ' :
  same_records σ σ' -> (statistics σ').1 = (statistics σ).1.
Proof.
  intros Hs.
  destruct (getStatistics_of_counts σ) as (cs & Hnd & Hin & ->).
  destruct (getStatistics_of_counts σ') as (cs' & Hnd' & Hin' & ->).
  assert (Hkeys : key <$> (map_to_list σ').*2 ≡ₚ key <$> (map_to_list σ).*2).
  { assert (Hmap : key <$> σ' = key <$> σ).
    { apply map_eq. intros i. rewrite !lookup_fmap.
      specialize (Hs i). destruct (σ !! i) as [a|], (σ' !! i) as [b|];
        try done. simpl. f_equal.
      destruct Hs as (_ & Hurl & _). unfold key_of. by rewrite Hurl. }
    assert (Hl : forall m : gmap string Bookmark,
              key <$> (map_to_list m).*2 = (map_to_list (key <$> m)).*2).
    { intros m. rewrite map_to_list_fmap, <- !list_fmap_compose.
      apply list_fmap_ext. by intros ? [??] _. }
    by rewrite !Hl, Hmap. }
  assert (Hp : cs' ≡ₚ cs).
  { apply NoDup_Permutation.
    - by eapply NoDup_fmap_1.
    - by eapply NoDup_fmap_1.
    - intros [k n]. rewrite Hin, Hin'.
      by rewrite (Permutation_length
                    (List_filter_Permutation
                       (fun o => bool_decide (o = Some k)) _ _ Hkeys)). }
  assert (Hq : (fun c : string * nat => Z.of_nat c.2) <$> cs'
               ≡ₚ (fun c : string * nat => Z.of_nat c.2) <$> cs)
    by by apply fmap_Permutation.
  f_equal. f_equal.
  - by rewrite (Permutation_length Hp).
  - by apply foldr_sum_Permutation.
  - by apply foldr_sum_Permutation.
  - f_equal; f_equal; by apply Permutation_length, List_filter_Permutation.
Qed.

(** X4.  [autoResolve] does not change what [getStatistics] reports: however
    it ends over a store that keeps every record under its id, the
    statistics of the store it leaves are those of the store it found;
    the duplicates it marked are still counted. *)
Theorem getStatistics_after_autoResolve options σ :
  store_wf σ ->
  (statistics (auto options σ).2).1 = (statistics σ).1.
Proof.
  intros Hwf. apply getStatistics_same_records.
  destruct (findAll_keepers URL_new URLSearchParams_new now σ)
    as (groups & Hfind & _).
  rewrite (autoResolve_run _ _ _ _ _ _ Hfind).
  apply (for_of_invariant (fun σc => store_wf σc /\ same_records σ σc));
    [|split; [done|apply same_records_refl]].
  intros rs g σc _ [W S].
  destruct (resolve_group_same_records URL_new now options rs g σc W)
    as [W' S'].
  split; [done|by eapply same_records_trans].
Qed.

(** X9.  [autoResolve] leaves no mark of its own that dangles: however it ends
    over a store that keeps every record under its id, a record marked as
    the duplicate of a record that the store does not hold was so marked
    before. *)
Theorem autoResolve_marks_stored_keepers options σ :
  store_wf σ ->
  forall i b',
    (auto options σ).2 !! i = Some b' ->
    dangling (auto options σ).2 b' ->
    exists b, σ !! i = Some b /\ dangling σ b
              /\ isDuplicate b' = isDuplicate b
              /\ duplicateOf b' = duplicateOf b.
Proof.
  intros Hwf i b' Hi' Hd'.
  destruct (findAll_spec URL_new URLSearchParams_new now σ Hwf)
    as (groups & Hfind & _ & Hgroups).
  assert (Hsame : same_records σ (auto options σ).2).
  { rewrite (autoResolve_run _ _ _ _ _ _ Hfind).
    apply (for_of_invariant (fun σc => store_wf σc /\ same_records σ σc));
      [|split; [done|apply same_records_refl]].
    intros rs g σc _ [W S].
    destruct (resolve_group_same_records URL_new now options rs g σc W)
      as [W' S'].
    split; [done|by eapply same_records_trans]. }
  pose proof (proj1 (resolve_groups_flags URL_new now options groups [] σ) i)
    as Hflags.
  rewrite <- (autoResolve_run _ _ _ _ _ _ Hfind) in Hflags.
  destruct Hd' as [Hdup (d & Hof & Hne & Hnone)].
  destruct Hflags as [Hf|(g & keeper & Hg & Hk & _ & _ & Hf)].
  - unfold flags in Hf. rewrite Hi' in Hf.
    destruct (σ !! i) as [b|] eqn:Hi; [|done].
    simpl in Hf. injection Hf as Hf1 Hf2.
    exists b. split; [done|]. split; [|done].
    split; [congruence|]. exists d. split; [congruence|]. split; [done|].
    by apply (same_records_dom σ _ d Hsame).
  - exfalso. unfold flags in Hf. rewrite Hi' in Hf. simpl in Hf.
    injection Hf as _ Hf2. rewrite Hof in Hf2. injection Hf2 as ->.
    apply keeper_of_member in Hk as [Hkin _].
    destruct (Hgroups g Hg) as (_ & Hmem & _).
    destruct (Hmem keeper Hkin) as [Hstored _].
    apply (same_records_dom σ _ (id keeper) Hsame) in Hnone. congruence.
Qed.
End StatisticsInvariance.

(** ** Resolution and clean-up together *)

Section Compositions.
Variable URL_new : string -> completion URL.
Variable URLSearchParams_new : string -> list (string * string).
Variable now : Z.

Local Abbreviation find_all := (findAll URL_new URLSearchParams_new now).
Local Abbreviation auto := (autoResolve URL_new URLSearchParams_new now).
Local Abbreviation update := (updateBookmark URL_new now).
Local Abbreviation valid := (validateBookmark URL_new).
Local Abbreviation mark := (mark_duplicates URL_new now).
Local Abbreviation resolve := (resolve_group URL_new now).
Local Abbreviation merge_step := (merge_keeper URL_new now).
Local Abbreviation clean := (cleanup URL_new now).

Implicit Types (σ : gmap string Bookmark) (b : Bookmark) (g : DuplicateGroup).

(** The content of the records as the loop of [autoResolve] goes: as in
    [σ], but for the ids in [K]. *)
Lemma mark_duplicates_content (K : string -> Prop) σ keeper members σc :
  (forall i,
     match σ !! i, σc !! i with
     | Some a, Some c => same_content a c \/ K i
     | None, None => True
     | _, _ => False
     end) ->
  forall i,
    match σ !! i, (mark keeper members σc).2 !! i with
    | Some a, Some c => same_content a c \/ K i
    | None, None => True
    | _, _ => False
    end.
Proof.
  intros Hc. unfold mark_duplicates.
  apply (for_of_invariant
           (fun σx => forall i,
              match σ !! i, σx !! i with
              | Some a, Some c => same_content a c \/ K i
              | None, None => True
              | _, _ => False
              end)); [|done].
  intros [] b σx _ Hx i. destruct (negb _); [|apply Hx].
  rewrite Async_bind_run, updateBookmark_run.
  destruct (σx !! id b) as [e|] eqn:He; [|apply Hx].
  destruct (valid _); [|apply Hx]. simpl.
  destruct (decide (i = id b)) as [->|Hne].
  - rewrite lookup_insert_eq. specialize (Hx (id b)). rewrite He in Hx.
    destruct (σ !! id b) as [a|]; [|done].
    destruct Hx as [(? & ? & ? & ?)|?]; [left|by right].
    by repeat split.
  - rewrite lookup_insert_ne by done. apply Hx.
Qed.

(** X27.  However [autoResolve] ends over a store that keeps every record
    under its id, every record is still there, with the title, the
    description, the tags and the [meta] it had, unless the option
    [mergeMetadata] is on and it is, in a group whose recommended action
    is "merge_metadata", the record to keep.  So without the option, and
    for every other action, no content is changed. *)
Theorem autoResolve_changes_content_of_merged_keepers_only options σ :
  store_wf σ ->
  exists groups,
    find_all σ = (Normal groups, σ)
    /\ forall i,
         match σ !! i, (auto options σ).2 !! i with
         | Some a, Some c =>
             same_content a c
             \/ (opt_mergeMetadata options = true
                 /\ exists g, g ∈ groups
                      /\ action (dg_recommendedAction g) = merge_metadata
                      /\ i = keep (dg_recommendedAction g))
         | None, None => True
         | _, _ => False
         end.
Proof.
  intros Hwf.
  destruct (findAll_keepers URL_new URLSearchParams_new now σ)
    as (groups & Hfind & _).
  exists groups. split; [done|].
  rewrite (autoResolve_run _ _ _ _ _ _ Hfind).
  set (K := fun i : string =>
              opt_mergeMetadata options = true
              /\ exists g, g ∈ groups
                   /\ action (dg_recommendedAction g) = merge_metadata
                   /\ i = keep (dg_recommendedAction g)).
  apply (for_of_invariant
           (fun σx => forall i,
              match σ !! i, σx !! i with
              | Some a, Some c => same_content a c \/ K i
              | None, None => True
              | _, _ => False
              end)).
  2:{ intros i. destruct (σ !! i); [by left|done]. }
  intros rs g σx Hg Hx. rewrite resolve_group_run.
  destruct (dg_count g <? 2); [done|].
  destruct (keeper_of g) as [keeper|] eqn:Hk; [|done].
  apply keeper_of_member in Hk as [_ Hid].
  assert (H1 : forall i,
            match σ !! i,
                  (merge_step options keeper (dg_recommendedAction g) σx).2 !! i
            with
            | Some a, Some c => same_content a c \/ K i
            | None, None => True
            | _, _ => False
            end).
  { intros i. rewrite merge_keeper_run.
    destruct (opt_mergeMetadata options) eqn:Hopt; [|apply Hx].
    destruct (ActionKind_eqb _ _) eqn:Hact; [|apply Hx]. simpl.
    destruct (σx !! id keeper) as [e|] eqn:He; [|apply Hx].
    destruct (valid _); [|apply Hx]. simpl.
    destruct (decide (i = id keeper)) as [->|Hne].
    - rewrite lookup_insert_eq. specialize (Hx (id keeper)).
      rewrite He in Hx. destruct (σ !! id keeper); [|done].
      right. split; [done|]. exists g. split; [done|]. split; [|done].
      by destruct (action (dg_recommendedAction g)).
    - rewrite lookup_insert_ne by done. apply Hx. }
  destruct (merge_step options keeper (dg_recommendedAction g) σx)
    as [[[]|e] σ1]; [|done].
  simpl in H1.
  pose proof (mark_duplicates_content K σ keeper (dg_bookmarks g) σ1 H1) as H2.
  by destruct (mark keeper (dg_bookmarks g) σ1) as [[[]|e] σ2].
Qed.

(** X28.  [cleanup] after [autoResolve]: when [autoResolve] has returned
    over a store that keeps every record under its id, every member of a
    group other than the record to keep is marked as a duplicate of that
    record, and [cleanup], however it ends, leaves it as it is. *)
Theorem cleanup_keeps_the_marks_of_autoResolve options σ results :
  store_wf σ ->
  (auto options σ).1 = Normal results ->
  exists groups,
    find_all σ = (Normal groups, σ)
    /\ forall g b,
         g ∈ groups -> b ∈ dg_bookmarks g ->
         id b <> keep (dg_recommendedAction g) ->
         flags (auto options σ).2 (id b)
         = Some (true, Some (keep (dg_recommendedAction g)))
         /\ (clean (auto options σ).2).2 !! id b
            = (auto options σ).2 !! id b.
Proof.
  intros Hwf Hn.
  destruct (findAll_spec URL_new URLSearchParams_new now σ Hwf)
    as (groups & Hfind & Hnd & Hgroups).
  exists groups. split; [done|]. intros g b Hg Hb Hne.
  destruct (Hgroups g Hg) as (Hcount & Hmem & keeper & Hk & Hkin & Hkid).
  assert (Hinv : store_wf (auto options σ).2
                 /\ same_records σ (auto options σ).2).
  { rewrite (autoResolve_run _ _ _ _ _ _ Hfind).
    apply (for_of_invariant (fun σc => store_wf σc /\ same_records σ σc));
      [|split; [done|apply same_records_refl]].
    intros rs g' σc _ [W S].
    destruct (resolve_group_same_records URL_new now options rs g' σc W)
      as [W' S'].
    split; [done|by eapply same_records_trans]. }
  destruct Hinv as [Hwf1 Hsame].
  assert (Hflags : flags (auto options σ).2 (id b)
                   = Some (true, Some (id keeper))).
  { pose proof (proj2 (resolve_groups_flags URL_new now options groups [] σ))
      as F2.
    rewrite <- (autoResolve_run _ _ _ _ _ _ Hfind) in F2.
    apply (F2 results Hn) with (g := g); try done.
    - eapply ids_disjoint_by_url; [done|]. intros g' b0 Hg' Hb0.
      by apply (Hgroups g' Hg').
    - intros g' Hg'. by apply (Hgroups g' Hg').
    - by rewrite Hkid. }
  split; [by rewrite <- Hkid|].
  destruct (cleanup_cleaned URL_new now _ Hwf1) as [Hc _].
  destruct (Hc (id b)) as [?|(b1 & Hb1 & Hd & _)]; [done|].
  exfalso. unfold flags in Hflags. rewrite Hb1 in Hflags. simpl in Hflags.
  injection Hflags as _ Hdup.
  destruct Hd as [_ (d & Hof & _ & Hnone)].
  rewrite Hdup in Hof. injection Hof as <-.
  apply (same_records_dom σ _ (id keeper) Hsame) in Hnone.
  destruct (Hmem keeper Hkin) as [Hstored _]. congruence.
Qed.
End Compositions.

(** ** Instances over the sample stores *)

Lemma marked_store_wf : store_wf marked_store.
Proof.
  intros i b. unfold marked_store, sample_store.
  rewrite !lookup_insert. repeat case_decide; subst; try done.
  all: by intros [= <-].
Qed.

Lemma orphan_store_wf : store_wf orphan_store.
Proof. apply store_wf_delete, marked_store_wf. Qed.

Lemma sample_store_valid : store_valid Whatwg.URL_new sample_store.
Proof.
  intros i b. unfold sample_store.
  rewrite !lookup_insert. repeat case_decide; subst; try done.
  all: intros [= <-]; vm_compute; reflexivity.
Qed.

Lemma orphan_store_valid : store_valid Whatwg.URL_new orphan_store.
Proof.
  intros i b. unfold orphan_store, marked_store, sample_store.
  intros [_ Hi]%lookup_delete_Some. revert Hi.
  rewrite !lookup_insert. repeat case_decide; subst; try done.
  all: intros [= <-]; vm_compute; reflexivity.
Qed.

Lemma saved_store_modified :
  forall i b, saved_store !! i = Some b -> is_Some (dateModified b).
Proof.
  intros i b. unfold saved_store, saveBookmark. simpl.
  rewrite !lookup_insert. repeat case_decide; subst; try done.
  all: intros [= <-]; by eexists.
Qed.


Lemma getAllBookmarks_most_recent_first_witness :
  (forall i b, saved_store !! i = Some b -> is_Some (dateModified b))
  /\ exists all,
       getAllBookmarks saved_store = (Normal all, saved_store)
       /\ all ≡ₚ (map_to_list saved_store).*2
       /\ StronglySorted
            (fun a b => default 0 (dateModified b) <= default 0 (dateModified a))
            all.
Proof.
  split; [exact saved_store_modified|].
  exact (getAllBookmarks_most_recent_first saved_store saved_store_modified).
Defined.

Lemma findAll_finds_every_duplicate_witness :
  store_wf sample_store
  /\ exists groups,
       findAll Whatwg.URL_new Whatwg.URLSearchParams_new sample_now sample_store
       = (Normal groups, sample_store)
       /\ forall b g g', g ∈ groups -> g' ∈ groups ->
            b ∈ dg_bookmarks g -> b ∈ dg_bookmarks g' -> g = g'.
Proof.
  split; [exact sample_store_wf|].
  destruct (findAll_finds_every_duplicate Whatwg.URL_new
              Whatwg.URLSearchParams_new sample_now sample_store
              sample_store_wf) as (groups & Hfind & _ & Hone & _).
  exists groups. split; [exact Hfind|exact Hone].
Defined.

Lemma cleanup_only_unmarks_dangling_witness :
  store_wf orphan_store
  /\ forall i,
       (cleanup Whatwg.URL_new sample_now orphan_store).2 !! i
       = orphan_store !! i
       \/ exists b,
            orphan_store !! i = Some b /\ dangling orphan_store b
            /\ (cleanup Whatwg.URL_new sample_now orphan_store).2 !! i
               = Some (spread b duplicate_unmark i sample_now).
Proof.
  split; [exact orphan_store_wf|].
  exact (cleanup_only_unmarks_dangling Whatwg.URL_new sample_now orphan_store
           orphan_store_wf).
Defined.

Lemma cleanup_leaves_no_dangling_mark_witness :
  store_wf orphan_store
  /\ (cleanup Whatwg.URL_new sample_now orphan_store).1 = Normal tt
  /\ forall i b',
       (cleanup Whatwg.URL_new sample_now orphan_store).2 !! i = Some b' ->
       ~ dangling (cleanup Whatwg.URL_new sample_now orphan_store).2 b'.
Proof.
  split; [exact orphan_store_wf|].
  split; [vm_compute; reflexivity|].
  refine (proj1 (cleanup_leaves_no_dangling_mark Whatwg.URL_new sample_now
                   orphan_store orphan_store_wf _)).
  vm_compute. reflexivity.
Defined.

Lemma cleanup_idempotent_witness :
  store_wf orphan_store
  /\ (cleanup Whatwg.URL_new sample_now orphan_store).1 = Normal tt
  /\ cleanup Whatwg.URL_new sample_now
       (cleanup Whatwg.URL_new sample_now orphan_store).2
     = (Normal tt, (cleanup Whatwg.URL_new sample_now orphan_store).2).
Proof.
  split; [exact orphan_store_wf|].
  split; [vm_compute; reflexivity|].
  refine (cleanup_idempotent Whatwg.URL_new sample_now orphan_store
            orphan_store_wf _).
  vm_compute. reflexivity.
Defined.

Lemma cleanup_returns_on_valid_store_witness :
  store_wf orphan_store
  /\ store_valid Whatwg.URL_new orphan_store
  /\ (cleanup Whatwg.URL_new sample_now orphan_store).1 = Normal tt.
Proof.
  split; [exact orphan_store_wf|].
  split; [exact orphan_store_valid|].
  exact (cleanup_returns_on_valid_store Whatwg.URL_new sample_now orphan_store
           orphan_store_wf orphan_store_valid).
Defined.

Lemma cleanup_after_deleteBookmark_witness :
  store_wf marked_store
  /\ ((deleteBookmark "1" ≫= fun _ => cleanup Whatwg.URL_new sample_now)
        marked_store).1 = Normal tt
  /\ ((deleteBookmark "1" ≫= fun _ => cleanup Whatwg.URL_new sample_now)
        marked_store).2 !! "1" = None
  /\ exists b',
       ((deleteBookmark "1" ≫= fun _ => cleanup Whatwg.URL_new sample_now)
          marked_store).2 !! "2" = Some b'
       /\ isDuplicate b' = false /\ duplicateOf b' = None.
Proof.
  split; [exact marked_store_wf|].
  split; [vm_compute; reflexivity|].
  refine (cleanup_after_deleteBookmark Whatwg.URL_new sample_now marked_store
            "2"
            (with_duplicateOf
               (with_url (with_title (a_bookmark "2") (Some "GitHub Repo"))
                  (Some "https://www.github.com/user/repo/"))
               "1")
            "1" marked_store_wf _ _ _ _ _ _).
  - vm_compute. reflexivity.
  - reflexivity.
  - reflexivity.
  - discriminate.
  - discriminate.
  - vm_compute. reflexivity.
Defined.

Lemma resolveManually_marks_the_others_witness :
  store_wf sample_store
  /\ (resolveManually Whatwg.URL_new Whatwg.URLSearchParams_new sample_now
        "dup_github_com_user_repo" "2" "keep" sample_store).1
     = Normal {| man_kept := "2"; man_removed := ["1"]; man_action := "keep" |}
  /\ flags (resolveManually Whatwg.URL_new Whatwg.URLSearchParams_new sample_now
              "dup_github_com_user_repo" "2" "keep" sample_store).2 "2"
     = flags sample_store "2".
Proof.
  split; [exact sample_store_wf|].
  split; [vm_compute; reflexivity|].
  destruct (resolveManually_marks_the_others Whatwg.URL_new
              Whatwg.URLSearchParams_new sample_now
              "dup_github_com_user_repo" "2" "keep" sample_store
              {| man_kept := "2"; man_removed := ["1"]; man_action := "keep" |}
              sample_store_wf ltac:(vm_compute; reflexivity))
    as (groups & group & keeper & _ & _ & _ & _ & _ & _ & Hframe & _).
  apply Hframe. intros b _ _. reflexivity.
Defined.

Lemma resolveManually_merges_the_best_witness :
  store_wf sample_store
  /\ (resolveManually Whatwg.URL_new Whatwg.URLSearchParams_new sample_now
        "dup_github_com_user_repo" "2" "merge_metadata" sample_store).1
     = Normal {| man_kept := "2"; man_removed := ["1"];
                 man_action := "merge_metadata" |}
  /\ exists kept,
       (resolveManually Whatwg.URL_new Whatwg.URLSearchParams_new sample_now
          "dup_github_com_user_repo" "2" "merge_metadata" sample_store).2 !! "2"
       = Some kept
       /\ exists m, (exists i, sample_store !! i = Some m) /\ title kept = title m.
Proof.
  split; [exact sample_store_wf|].
  split; [vm_compute; reflexivity|].
  destruct (resolveManually_merges_the_best Whatwg.URL_new
              Whatwg.URLSearchParams_new sample_now
              "dup_github_com_user_repo" "2" sample_store
              {| man_kept := "2"; man_removed := ["1"];
                 man_action := "merge_metadata" |}
              sample_store_wf ltac:(vm_compute; reflexivity))
    as (groups & group & keeper & kept & Hfind & Hgroup & _ & _ & Hkept & _
        & (m & Hm & Htitle) & _).
  exists kept. split; [exact Hkept|]. exists m. split; [|exact Htitle].
  destruct (findAll_spec Whatwg.URL_new Whatwg.URLSearchParams_new sample_now
              sample_store sample_store_wf) as (groups' & Hfind' & _ & Hmem).
  rewrite Hfind in Hfind'. injection Hfind' as <-.
  apply find_some in Hgroup as [Hin _]. apply list_elem_of_In in Hin.
  destruct (Hmem group Hin) as (_ & Hstored & _).
  exists (id m). exact (proj1 (Hstored m Hm)).
Defined.

Lemma autoResolve_keeps_every_record_witness :
  store_wf sample_store
  /\ store_wf (autoResolve Whatwg.URL_new Whatwg.URLSearchParams_new sample_now
                 default_options sample_store).2
  /\ same_records sample_store
       (autoResolve Whatwg.URL_new Whatwg.URLSearchParams_new sample_now
          default_options sample_store).2.
Proof.
  split; [exact sample_store_wf|].
  pose proof (autoResolve_keeps_every_record Whatwg.URL_new
                Whatwg.URLSearchParams_new sample_now default_options
                sample_store sample_store_wf) as H.
  split; [exact (proj1 H)|exact (proj1 (proj2 H))].
Defined.

Lemma autoResolve_returns_on_valid_store_witness :
  store_wf sample_store
  /\ store_valid Whatwg.URL_new sample_store
  /\ exists results,
       (autoResolve Whatwg.URL_new Whatwg.URLSearchParams_new sample_now
          default_options sample_store).1 = Normal results.
Proof.
  split; [exact sample_store_wf|].
  split; [exact sample_store_valid|].
  exact (autoResolve_returns_on_valid_store Whatwg.URL_new
           Whatwg.URLSearchParams_new sample_now default_options sample_store
           sample_store_wf sample_store_valid).
Defined.


Lemma normalizeUrl_ignores_order_and_tracking_witness :
  normalizeUrl_whatwg plain_url = normalizeUrl_whatwg tracked_url.
Proof.
  refine (normalizeUrl_ignores_order_and_tracking Whatwg.URL_new
            Whatwg.URLSearchParams_new plain_url tracked_url
            {| protocol := "http:"; hostname := "example.com";
               pathname := "/a"; search := "?a=2&b=1"; hash := "" |}
            {| protocol := "https:"; hostname := "example.com";
               pathname := "/a"; search := "?b=1&utm_source=news&a=2";
               hash := "" |}
            _ _ _ _ _ _).
  - vm_compute. reflexivity.
  - vm_compute. reflexivity.
  - reflexivity.
  - reflexivity.
  - reflexivity.
  - vm_compute. apply Permutation_swap.
Defined.

Lemma groupDuplicates_permutation_witness :
  [twin "1"; twin "2"] ≡ₚ [twin "2"; twin "1"]
  /\ exists groups groups',
       groupDuplicates Whatwg.URL_new Whatwg.URLSearchParams_new
         [twin "1"; twin "2"] = Normal groups
       /\ groupDuplicates Whatwg.URL_new Whatwg.URLSearchParams_new
            [twin "2"; twin "1"] = Normal groups'
       /\ normalizedUrl <$> groups ≡ₚ normalizedUrl <$> groups'
       /\ forall g, g ∈ groups ->
            exists g', g' ∈ groups'
              /\ group_id g' = group_id g
              /\ normalizedUrl g' = normalizedUrl g
              /\ bookmarks g' ≡ₚ bookmarks g.
Proof.
  split; [apply Permutation_swap|].
  exact (groupDuplicates_permutation Whatwg.URL_new Whatwg.URLSearchParams_new
           [twin "1"; twin "2"] [twin "2"; twin "1"]
           (Permutation_swap _ _ _)).
Defined.

Lemma determineAction_permutation_witness :
  [test_short; test_descriptive] ≡ₚ [test_descriptive; test_short]
  /\ determineAction [test_short; test_descriptive]
     = determineAction [test_descriptive; test_short].
Proof.
  split; [apply Permutation_swap|].
  exact (determineAction_permutation [test_short; test_descriptive]
           [test_descriptive; test_short] (Permutation_swap _ _ _)).
Defined.

Lemma normalizeUrl_ignores_www_and_trailing_slash_witness :
  normalizeUrl_whatwg "http://github.com/user/repo"
  = normalizeUrl_whatwg "https://www.github.com/user/repo/".
Proof.
  refine (normalizeUrl_ignores_www_and_trailing_slash Whatwg.URL_new
            Whatwg.URLSearchParams_new
            "http://github.com/user/repo" "https://www.github.com/user/repo/"
            {| protocol := "http:"; hostname := "github.com";
               pathname := "/user/repo"; search := ""; hash := "" |}
            {| protocol := "https:"; hostname := "www.github.com";
               pathname := "/user/repo/"; search := ""; hash := "" |}
            _ _ _ _ _ _).
  - vm_compute. reflexivity.
  - vm_compute. reflexivity.
  - right. split; reflexivity.
  - right. split; [reflexivity|]. split; [discriminate|reflexivity].
  - reflexivity.
  - reflexivity.
Defined.

Lemma getStatistics_after_autoResolve_witness :
  store_wf sample_store
  /\ (getStatistics Whatwg.URL_new Whatwg.URLSearchParams_new sample_now
        (autoResolve Whatwg.URL_new Whatwg.URLSearchParams_new sample_now
           default_options sample_store).2).1
     = (getStatistics Whatwg.URL_new Whatwg.URLSearchParams_new sample_now
          sample_store).1.
Proof.
  split; [exact sample_store_wf|].
  exact (getStatistics_after_autoResolve Whatwg.URL_new
           Whatwg.URLSearchParams_new sample_now default_options sample_store
           sample_store_wf).
Defined.

Lemma autoResolve_marks_stored_keepers_witness :
  store_wf orphan_store
  /\ exists b,
       orphan_store !! "2" = Some b /\ dangling orphan_store b
       /\ isDuplicate
            (with_duplicateOf
               (with_url (with_title (a_bookmark "2") (Some "GitHub Repo"))
                  (Some "https://www.github.com/user/repo/"))
               "1") = isDuplicate b
       /\ duplicateOf
            (with_duplicateOf
               (with_url (with_title (a_bookmark "2") (Some "GitHub Repo"))
                  (Some "https://www.github.com/user/repo/"))
               "1") = duplicateOf b.
Proof.
  split; [exact orphan_store_wf|].
  refine (autoResolve_marks_stored_keepers Whatwg.URL_new
            Whatwg.URLSearchParams_new sample_now default_options orphan_store
            orphan_store_wf "2" _ _ _).
  - vm_compute. reflexivity.
  - split; [reflexivity|]. exists "1".
    split; [reflexivity|]. split; [discriminate|]. vm_compute. reflexivity.
Defined.

Lemma autoResolve_changes_content_of_merged_keepers_only_witness :
  store_wf sample_store
  /\ exists groups,
       findAll Whatwg.URL_new Whatwg.URLSearchParams_new sample_now sample_store
       = (Normal groups, sample_store).
Proof.
  split; [exact sample_store_wf|].
  destruct (autoResolve_changes_content_of_merged_keepers_only Whatwg.URL_new
              Whatwg.URLSearchParams_new sample_now default_options
              sample_store sample_store_wf) as (groups & Hfind & _).
  exists groups. exact Hfind.
Defined.

Lemma cleanup_keeps_the_marks_of_autoResolve_witness :
  store_wf sample_store
  /\ (autoResolve Whatwg.URL_new Whatwg.URLSearchParams_new sample_now
        default_options sample_store).1
     = Normal [{| res_group := "dup_github_com_user_repo";
                  res_kept := "1";
                  res_removed := ["2"];
                  res_action := keep_first |}]
  /\ exists groups,
       findAll Whatwg.URL_new Whatwg.URLSearchParams_new sample_now sample_store
       = (Normal groups, sample_store)
       /\ forall g b,
            g ∈ groups -> b ∈ dg_bookmarks g ->
            id b <> keep (dg_recommendedAction g) ->
            flags (autoResolve Whatwg.URL_new Whatwg.URLSearchParams_new
                     sample_now default_options sample_store).2 (id b)
            = Some (true, Some (keep (dg_recommendedAction g)))
            /\ (cleanup Whatwg.URL_new sample_now
                  (autoResolve Whatwg.URL_new Whatwg.URLSearchParams_new
                     sample_now default_options sample_store).2).2 !! id b
               = (autoResolve Whatwg.URL_new Whatwg.URLSearchParams_new
                    sample_now default_options sample_store).2 !! id b.
Proof.
  split; [exact sample_store_wf|].
  split; [vm_compute; reflexivity|].
  refine (cleanup_keeps_the_marks_of_autoResolve Whatwg.URL_new
            Whatwg.URLSearchParams_new sample_now default_options sample_store
            _ sample_store_wf _).
  vm_compute. reflexivity.
Defined.
